(** Verification of the forwarding engine of the Telegram media forwarder
    (forwarderbot-secured.py): the rule store [Configuration], the media
    classifier, the dedup window of media groups, the live monitor and the
    backlog replay of [MediaForwarder]. *)

From Stdlib Require Import ZArith String Ascii List Permutation Sorted.
From Stdlib Require Import DecimalString DecimalZ.
From stdpp Require Import base option list gmap strings.

Open Scope string_scope.
Open Scope list_scope.
Open Scope Z_scope.

(** * Python values used by the engine *)

(** Chat identifiers travel as [Union[int, str]]: an [int] when they come
    from an entity, a [str] when they come from callback data or from the
    configuration file. *)
Inductive PyId : Type :=
  | IdInt (z : Z)
  | IdStr (s : string).

(** [str(z)] for an [int]: the decimal form, with a minus sign when negative. *)
Definition str_of_int (z : Z) : string := NilZero.string_of_int (Z.to_int z).

(** [str(x)]: the identity on strings. *)
Definition py_str (x : PyId) : string :=
  match x with
  | IdInt z => str_of_int z
  | IdStr s => s
  end.

(** [int(x)]: [None] stands for the [ValueError] Python raises.  Strings of
    the plain form [-?[0-9]+] are read; Python also accepts surrounding
    blanks, a plus sign and underscores between digits, which [str] never
    writes and which are rejected here. *)
Definition py_int (x : PyId) : option Z :=
  match x with
  | IdInt z => Some z
  | IdStr s => Z.of_int <$> NilZero.int_of_string s
  end.

(** [x == s] for a string [s]: an [int] is never equal to a string. *)
Definition py_eq_str (x : PyId) (s : string) : bool :=
  match x with
  | IdInt _ => false
  | IdStr s' => bool_decide (s' = s)
  end.

Definition SAVED_MESSAGES_KEY : string := "saved".
Definition DEFAULT_DELAY : Z := 3.

(** * The rule store *)

Module Configuration.

(** One persisted record of [data['active_forwards']]. *)
Record Forward : Type := mkForward {
  source_id : PyId;
  target_id : PyId;
  media_types : list string
}.

(** [self.data]. *)
Record Data : Type := mkData {
  delay : Z;
  active_forwards : list Forward
}.

(** The configuration object: [self.data] in memory, and the successive
    contents [save] has dumped to [self.filename], newest first. *)
Record t : Type := mk {
  data : Data;
  written : list Data
}.

(** [__init__] when no file exists yet. *)
Definition init : t :=
  mk (mkData DEFAULT_DELAY []) [].

Definition save (c : t) : t :=
  mk (data c) (data c :: written c).

Definition set_delay (c : t) (d : Z) : t :=
  save (mk (mkData d (active_forwards (data c))) (written c)).

(** The test of both list comprehensions:
    [str(fwd['source_id']) == str(source_id) and
     str(fwd['target_id']) == str(target_id)]. *)
Definition same_pair (source target : PyId) (fwd : Forward) : bool :=
  bool_decide (py_str (source_id fwd) = py_str source)
  && bool_decide (py_str (target_id fwd) = py_str target).

Definition without (source target : PyId) (l : list Forward) : list Forward :=
  List.filter (fun fwd => negb (same_pair source target fwd)) l.

Definition add_active_forward
    (c : t) (source target : PyId) (mts : list string) : t :=
  let kept := without source target (active_forwards (data c)) in
  let entry := mkForward (IdStr (py_str source)) (IdStr (py_str target)) mts in
  save (mk (mkData (delay (data c)) (kept ++ [entry])) (written c)).

Definition remove_active_forward
    (c : t) (source target : PyId) : bool * t :=
  let initial_length := length (active_forwards (data c)) in
  let kept := without source target (active_forwards (data c)) in
  let c' := mk (mkData (delay (data c)) kept) (written c) in
  if (length kept <? initial_length)%nat then (true, save c') else (false, c').

Definition get_active_forwards (c : t) : list Forward :=
  active_forwards (data c).

End Configuration.

(** * Messages and their media *)

(** [types.Photo]. *)
Record Photo : Type := mkPhoto { photo_id : Z }.

(** [types.Document]; [mime_type] is a mandatory string of the type. *)
Record Document : Type := mkDocument { mime_type : string }.

(** [message.media].  The [document] of a [MessageMediaDocument] is [None]
    when Telegram sent none or sent a [DocumentEmpty], which has no
    [mime_type] attribute. *)
Inductive MessageMedia : Type :=
  | MessageMediaPhoto
  | MessageMediaDocument (document : option Document)
  | MessageMediaOther.

(** The attributes of a Telethon [Message] the engine reads.  [photo],
    [document] and [video] are the convenience attributes probed with
    [getattr(message, ..., None)]. *)
Record Message : Type := mkMessage {
  msg_id : Z;
  chat_id : Z;
  grouped_id : option Z;
  media : option MessageMedia;
  photo : option Photo;
  document : option Document;
  video : option Document
}.

(** Truth value of an object reference: [None] is false, an object is true. *)
Definition truthy {A : Type} (o : option A) : bool :=
  match o with
  | Some _ => true
  | None => false
  end.

(** Truth value of an optional [int], as in [if message.grouped_id:]: [None]
    and [0] are false.  The result is the identifier when it is true. *)
Definition truthy_id (g : option Z) : option Z :=
  match g with
  | Some z => if z =? 0 then None else Some z
  | None => None
  end.

(** [s.startswith(p)]. *)
Definition startswith (s p : string) : bool := String.prefix p s.

(** * The media classifier *)

Definition has_any_media (m : Message) : bool :=
  truthy (media m) || truthy (photo m) || truthy (document m) || truthy (video m).

(** [isinstance(message.media, MessageMediaPhoto)]. *)
Definition media_is_photo (m : Message) : bool :=
  match media m with
  | Some MessageMediaPhoto => true
  | _ => false
  end.

(** The MIME type reached by the three nested tests
    [isinstance(message.media, MessageMediaDocument)],
    [hasattr(message.media.document, 'mime_type')] and
    [message.media.document.mime_type] (an empty string is false). *)
Definition media_mime_type (m : Message) : option string :=
  match media m with
  | Some (MessageMediaDocument (Some d)) =>
      if bool_decide (mime_type d = "") then None else Some (mime_type d)
  | _ => None
  end.

Definition check_media_type (media_types : gset string) (m : Message) : bool :=
  if negb (truthy (media m)) && negb (truthy (photo m))
     && negb (truthy (document m)) && negb (truthy (video m))
  then false
  else if bool_decide ("photo" ∈ media_types)
          && (truthy (photo m) || media_is_photo m)
  then true
  else if bool_decide ("video" ∈ media_types)
          && (truthy (video m)
              || match media_mime_type m with
                 | Some mt => startswith mt "video/"
                 | None => false
                 end)
  then true
  else if bool_decide ("document" ∈ media_types)
          && (truthy (document m)
              || match media_mime_type m with
                 | Some mt => negb (startswith mt "video/")
                 | None => false
                 end)
  then true
  else false.

(** [self.media_types] is passed explicitly. *)
Definition should_forward_message (media_types : gset string) (m : Message) : bool :=
  if bool_decide (media_types = ∅) then has_any_media m
  else check_media_type media_types m.

(** ** The classifier as the specification words it *)

Inductive MediaKind : Type := KindPhoto | KindVideo | KindDocument | KindNone.

Definition kind_name (k : MediaKind) : option string :=
  match k with
  | KindPhoto => Some "photo"
  | KindVideo => Some "video"
  | KindDocument => Some "document"
  | KindNone => None
  end.

(** The kind of an item, read off its media descriptor: a document whose MIME
    type starts with [video/] is a video, any other document is a document. *)
Definition spec_media_kind (m : Message) : MediaKind :=
  match media m with
  | Some MessageMediaPhoto => KindPhoto
  | Some (MessageMediaDocument (Some d)) =>
      if startswith (mime_type d) "video/" then KindVideo else KindDocument
  | _ => KindNone
  end.

(** [shouldForward(item, filter)] of the specification for a non-empty filter:
    the kind of the item is a member of the filter. *)
Definition spec_kind_in_filter (filter : gset string) (m : Message) : bool :=
  match kind_name (spec_media_kind m) with
  | Some name => bool_decide (name ∈ filter)
  | None => false
  end.

(** * Python sets of group identifiers *)

(** A [set] of [int] built by [set()], [add] and [set(list)] is represented
    by its keys in the order they were inserted.  The order in which Python
    iterates over such a set is a function of that insertion sequence (it is
    the order of the slots of the hash table the insertions built); it is the
    parameter [set_iter] of what follows. *)
Definition PySet : Type := list Z.

Definition set_contains (s : PySet) (x : Z) : bool := bool_decide (x ∈ s).

(** [s.add(x)]. *)
Definition set_add (x : Z) (s : PySet) : PySet :=
  if set_contains s x then s else s ++ [x].

(** [set(l)]. *)
Definition set_of_list (l : list Z) : PySet :=
  fold_left (fun s x => set_add x s) l [].

(** [l[-n:]]. *)
Definition last_n {A : Type} (n : nat) (l : list A) : list A :=
  drop (length l - n) l.

(** The [finally] clause of [process_media_group], on the window itself:
    [if len(w) > 100: w = set(list(w)[-50:])]. *)
Definition trim (set_iter : PySet -> list Z) (w : PySet) : PySet :=
  if (100 <? length w)%nat then set_of_list (last_n 50 (set_iter w)) else w.

(** Iteration order of CPython over a set of non-negative ints that are all
    smaller than the size of its hash table (at least 8 slots, and more than
    the number of keys): [hash(i)] is [i], key [i] sits in slot [i], and the
    slots are visited in increasing order. *)
Fixpoint insert_by_slot (x : Z) (l : list Z) : list Z :=
  match l with
  | [] => [x]
  | y :: l' => if x <=? y then x :: l else y :: insert_by_slot x l'
  end.

Definition small_int_iter (s : PySet) : list Z :=
  fold_right insert_by_slot [] s.

(** Iteration in insertion order, as a [dict] (not a [set]) would do. *)
Definition insertion_iter (s : PySet) : list Z := s.

(** * The forwarding engine *)

Module MediaForwarder.

(** A resolved chat: only its [id] is read. *)
Record Entity : Type := mkEntity { ent_id : Z }.

(** Keys of the three dictionaries: [(source_id, target_id)], both strings. *)
Definition Key : Type := string * string.

(** A value of [self.active_forwards].  In Python its set of media types
    is the object [self.media_types] also refers to after a start; the
    methods embedded here assign such sets and never change one in place, so
    the sets are values. *)
Record Rule : Type := mkRule {
  rule_media_types : gset string;
  is_running : bool
}.

(** The closure [handler] built by [start_forward_monitoring]: it captures
    [source_id], [target_id] and [target_entity], and is registered for the
    new messages of [source_entity]. *)
Record Callback : Type := mkCallback {
  cb_key : Key;
  cb_source : Entity;
  cb_target : Entity
}.

(** What [client.add_event_handler(handler, ...)] returned, which the engine
    stores and hands to [client.remove_event_handler] when the rule is
    stopped.  Telethon's [add_event_handler] registers the closure and
    returns [None]. *)
Inductive HandlerRef : Type := ReturnedNone.

Inductive Exn : Type :=
  | FloodWaitError (seconds : Z)
  | KeyError
  | OtherError.

(** The status text handed to the progress callback. *)
Inductive Status : Type :=
  | CountingDone
  | ForwardedSoFar (count : Z)
  | WaitingFlood (seconds : Z).

(** What the engine does to the outside: requests issued through
    [self.client], calls of the progress callback and suspensions. *)
Inductive Event : Type :=
  | EvGetEntity (chat : Z)
  | EvCountMessages (source : Entity)
  | EvIterMessages (source : Entity) (batch_size offset_id : Z)
  | EvGetMessages (chat limit : Z)
  | EvForward (target : Entity) (messages : list Message)
  | EvSleep (seconds : Z)
  | EvProgress (count total : Z) (status : Status)
  | EvAddEventHandler (cb : Callback)
  | EvRemoveEventHandler (ref : HandlerRef).

(** The Telegram side, as the engine meets it.  [get_entity] resolves a chat
    ([None]: the call raises).  [forward_result] and [recent_messages] answer
    [forward_messages] and [get_messages]; they see everything the engine did
    before, so the same request may be answered differently when repeated. *)
Record Telegram : Type := mkTelegram {
  get_entity : Z -> option Entity;
  forward_result : list Event -> Entity -> list Message -> option Exn;
  recent_messages : list Event -> Z -> Exn + list Message
}.

(** The engine object, after [connect] has filled [saved_messages].  [io] is
    not an attribute: it is the sequence of events so far, oldest first. *)
Record t : Type := mk {
  config : Configuration.t;
  source_chat : option Entity;
  target_chat : option Entity;
  media_types : gset string;
  active_forwards : gmap Key Rule;
  message_count : Z;
  handlers : gmap Key HandlerRef;
  saved_messages : Entity;
  forwarded_groups : gmap Key PySet;
  io : list Event
}.

(** [__init__], then the assignment of [saved_messages] in [connect]. *)
Definition init (c : Configuration.t) (self_chat : Entity) : t :=
  mk c None None ∅ ∅ 0 ∅ self_chat ∅ [].

(** ** Attribute assignments *)

Definition set_config (c : Configuration.t) (w : t) : t :=
  mk c (source_chat w) (target_chat w) (media_types w) (active_forwards w)
     (message_count w) (handlers w) (saved_messages w) (forwarded_groups w) (io w).

Definition set_media_types (mts : gset string) (w : t) : t :=
  mk (config w) (source_chat w) (target_chat w) mts (active_forwards w)
     (message_count w) (handlers w) (saved_messages w) (forwarded_groups w) (io w).

Definition set_active_forwards (a : gmap Key Rule) (w : t) : t :=
  mk (config w) (source_chat w) (target_chat w) (media_types w) a
     (message_count w) (handlers w) (saved_messages w) (forwarded_groups w) (io w).

Definition set_message_count (n : Z) (w : t) : t :=
  mk (config w) (source_chat w) (target_chat w) (media_types w) (active_forwards w)
     n (handlers w) (saved_messages w) (forwarded_groups w) (io w).

Definition set_handlers (h : gmap Key HandlerRef) (w : t) : t :=
  mk (config w) (source_chat w) (target_chat w) (media_types w) (active_forwards w)
     (message_count w) h (saved_messages w) (forwarded_groups w) (io w).

Definition set_forwarded_groups (g : gmap Key PySet) (w : t) : t :=
  mk (config w) (source_chat w) (target_chat w) (media_types w) (active_forwards w)
     (message_count w) (handlers w) (saved_messages w) g (io w).

Definition emit (e : Event) (w : t) : t :=
  mk (config w) (source_chat w) (target_chat w) (media_types w) (active_forwards w)
     (message_count w) (handlers w) (saved_messages w) (forwarded_groups w)
     (io w ++ [e]).

(** ** Calls that leave the engine *)

Definition client_get_entity (tg : Telegram) (chat : Z) (w : t) : option Entity * t :=
  (get_entity tg chat, emit (EvGetEntity chat) w).

(** [await self.client.forward_messages(target, messages)]: [None] when the
    call returns, the exception when it raises. *)
Definition client_forward_messages
    (tg : Telegram) (target : Entity) (messages : list Message) (w : t)
    : option Exn * t :=
  (forward_result tg (io w) target messages, emit (EvForward target messages) w).

Definition client_get_messages
    (tg : Telegram) (chat limit : Z) (w : t) : (Exn + list Message) * t :=
  (recent_messages tg (io w) chat, emit (EvGetMessages chat limit) w).

Definition client_add_event_handler (cb : Callback) (w : t) : HandlerRef * t :=
  (ReturnedNone, emit (EvAddEventHandler cb) w).

Definition client_remove_event_handler (ref : HandlerRef) (w : t) : t :=
  emit (EvRemoveEventHandler ref) w.

(** [await asyncio.sleep(seconds)]. *)
Definition sleep (seconds : Z) (w : t) : t := emit (EvSleep seconds) w.

(** [if progress_callback: await progress_callback(count, total, text)].  The
    callback of this program catches its own exceptions. *)
Definition progress (callback : bool) (count total : Z) (status : Status) (w : t) : t :=
  if callback then emit (EvProgress count total status) w else w.

Definition current_delay (w : t) : Z :=
  Configuration.delay (Configuration.data (config w)).

(** ** The live monitor *)

Definition key_of (w : t) (source target : Entity) : Key :=
  (str_of_int (ent_id source),
   if bool_decide (ent_id target = ent_id (saved_messages w))
   then "saved_messages" else str_of_int (ent_id target)).

(** [self.active_forwards.get(key, {}).get('is_running', False)], which is
    also [key in self.active_forwards and self.active_forwards[key]['is_running']]. *)
Definition running (w : t) (key : Key) : bool :=
  match active_forwards w !! key with
  | Some r => is_running r
  | None => false
  end.

(** [str_iter] is [list(media_types)]: the order in which Python lists a set
    of strings follows their hashes, which change with every start of the
    interpreter. *)
Definition start_forward_monitoring
    (str_iter : gset string -> list string)
    (source target : Entity) (mts : gset string) (w : t) : bool * t :=
  let key := key_of w source target in
  if running w key then (false, w)
  else
    let w := set_forwarded_groups (<[key := []]> (forwarded_groups w)) w in
    let w := set_media_types mts w in
    let '(event_handler, w) := client_add_event_handler (mkCallback key source target) w in
    let w := set_active_forwards (<[key := mkRule mts true]> (active_forwards w)) w in
    let w := set_handlers (<[key := event_handler]> (handlers w)) w in
    let w := set_config
               (Configuration.add_active_forward (config w)
                  (IdStr key.1) (IdStr key.2) (str_iter mts)) w in
    (true, w).

(** The two [except] clauses shared by the live paths: wait on a flood
    error, only log anything else. *)
Definition on_error (e : Exn) (w : t) : t :=
  match e with
  | FloodWaitError seconds => sleep seconds w
  | _ => w
  end.

(** The [try] block of [process_media_group]. *)
Definition relay_group
    (tg : Telegram) (gid : Z) (message : Message) (target : Entity) (w : t) : t :=
  match client_get_messages tg (chat_id message) 50 w with
  | (inl e, w) => on_error e w
  | (inr all_recent_messages, w) =>
      let group_messages :=
        List.filter (fun msg => bool_decide (grouped_id msg = Some gid))
                    all_recent_messages in
      let has_matching_media :=
        existsb (should_forward_message (media_types w)) group_messages in
      if has_matching_media && negb (bool_decide (group_messages = [])) then
        match client_forward_messages tg target group_messages w with
        | (Some e, w) => on_error e w
        | (None, w) =>
            let w := set_message_count
                       (message_count w + Z.of_nat (length group_messages)) w in
            sleep (current_delay w) w
        end
      else w
  end.

(** [gid] is [message.grouped_id], which [handler] has found true.  A missing
    window is the [KeyError] of [self.forwarded_groups[key]]. *)
Definition process_media_group
    (tg : Telegram) (set_iter : PySet -> list Z)
    (gid : Z) (message : Message) (target : Entity) (key : Key) (w : t)
    : option Exn * t :=
  match forwarded_groups w !! key with
  | None => (Some KeyError, w)
  | Some seen =>
      if set_contains seen gid then (None, w)
      else
        let w := set_forwarded_groups
                   (<[key := set_add gid seen]> (forwarded_groups w)) w in
        let w := relay_group tg gid message target w in
        match forwarded_groups w !! key with
        | None => (Some KeyError, w)
        | Some seen =>
            (None, set_forwarded_groups
                     (<[key := trim set_iter seen]> (forwarded_groups w)) w)
        end
  end.

Definition process_single_message
    (tg : Telegram) (message : Message) (target : Entity) (key : Key) (w : t) : t :=
  if should_forward_message (media_types w) message then
    match client_forward_messages tg target [message] w with
    | (None, w) =>
        let w := set_message_count (message_count w + 1) w in
        sleep (current_delay w) w
    | (Some e, w) => on_error e w
    end
  else w.

(** The closure [handler], applied to [event.message]. *)
Definition handler
    (tg : Telegram) (set_iter : PySet -> list Z)
    (cb : Callback) (message : Message) (w : t) : option Exn * t :=
  if negb (running w (cb_key cb)) then (None, w)
  else
    match truthy_id (grouped_id message) with
    | Some gid => process_media_group tg set_iter gid message (cb_target cb) (cb_key cb) w
    | None => (None, process_single_message tg message (cb_target cb) (cb_key cb) w)
    end.

(** The body shared by both branches of [stop_forward_monitoring] once the
    rule was found under [key]. *)
Definition stop_found (key : Key) (w : t) : t :=
  let w := set_active_forwards
             (alter (fun r => mkRule (rule_media_types r) false) key
                    (active_forwards w)) w in
  let w := match handlers w !! key with
           | Some ref =>
               let w := client_remove_event_handler ref w in
               set_handlers (delete key (handlers w)) w
           | None => w
           end in
  let w := set_active_forwards (delete key (active_forwards w)) w in
  let w := set_forwarded_groups (delete key (forwarded_groups w)) w in
  set_config
    (Configuration.remove_active_forward (config w) (IdStr key.1) (IdStr key.2)).2 w.

(** The first lines of [stop_forward_monitoring]: the shorthand of the
    callback data is turned into the key the table uses. *)
Definition canonical_target (target_id : PyId) : string :=
  if py_eq_str target_id SAVED_MESSAGES_KEY then "saved_messages"
  else py_str target_id.

Definition stop_forward_monitoring (source_id target_id : PyId) (w : t) : bool * t :=
  let source_id := py_str source_id in
  let target_id := canonical_target target_id in
  let key := (source_id, target_id) in
  if bool_decide (is_Some (active_forwards w !! key)) then (true, stop_found key w)
  else
    let alt_key := (source_id, SAVED_MESSAGES_KEY) in
    if bool_decide (target_id = "saved_messages")
       && bool_decide (is_Some (active_forwards w !! alt_key))
    then (true, stop_found alt_key w)
    else (false, w).

(** ** The backlog replay *)

(** The local variables of [forward_all_media] that live across pages. *)
Record Replay : Type := mkReplay {
  count : Z;
  seen_groups : PySet;
  offset_id : Z;
  processed : Z
}.

(** [limit and processed >= limit]. *)
Definition limit_reached (limit : option Z) (processed : Z) : bool :=
  match limit with
  | Some l => negb (l =? 0) && (l <=? processed)
  | None => false
  end.

(** The [async for] that fills [batch] from the messages of one request:
    it stops at the end of the answer or when the limit is reached. *)
Fixpoint fill_batch (limit : option Z) (processed : Z) (answer : list Message)
    : list Message * Z :=
  match answer with
  | [] => ([], processed)
  | message :: answer =>
      let processed := processed + 1 in
      if limit_reached limit processed then ([message], processed)
      else
        let '(batch, processed) := fill_batch limit processed answer in
        (message :: batch, processed)
  end.

(** [messages_by_group], a dictionary: its keys in insertion order.
    [add_to_group] is
    [if group_id not in d: d[group_id] = []] then [d[group_id].append(m)]. *)
Fixpoint add_to_group (gid : Z) (m : Message) (d : list (Z * list Message))
    : list (Z * list Message) :=
  match d with
  | [] => [(gid, [m])]
  | (g, ms) :: d' =>
      if bool_decide (g = gid) then (g, ms ++ [m]) :: d'
      else (g, ms) :: add_to_group gid m d'
  end.

Definition split_batch (batch : list Message)
    : list (Z * list Message) * list Message :=
  fold_left
    (fun '(messages_by_group, single_messages) message =>
       match truthy_id (grouped_id message) with
       | Some gid => (add_to_group gid message messages_by_group, single_messages)
       | None => (messages_by_group, single_messages ++ [message])
       end)
    batch ([], []).

(** One turn of [for message in single_messages]. *)
Definition replay_single
    (tg : Telegram) (callback : bool) (total : Z) (target : Entity)
    (st : Z * t) (message : Message) : Z * t :=
  let '(count, w) := st in
  if should_forward_message (media_types w) message then
    match client_forward_messages tg target [message] w with
    | (None, w) =>
        let count := count + 1 in
        let w := progress callback count total (ForwardedSoFar count) w in
        (count, sleep (current_delay w) w)
    | (Some (FloodWaitError seconds), w) =>
        let w := progress callback count total (WaitingFlood seconds) w in
        (count, sleep seconds w)
    | (Some _, w) => (count, w)
    end
  else (count, w).

(** One turn of [for grouped_id, messages in messages_by_group.items()]. *)
Definition replay_group
    (tg : Telegram) (callback : bool) (total : Z) (target : Entity)
    (st : Z * PySet * t) (group : Z * list Message) : Z * PySet * t :=
  let '(count, forwarded, w) := st in
  let '(gid, messages) := group in
  if set_contains forwarded gid then (count, forwarded, w)
  else if existsb (should_forward_message (media_types w)) messages then
    match client_forward_messages tg target messages w with
    | (None, w) =>
        let count := count + Z.of_nat (length messages) in
        let forwarded := set_add gid forwarded in
        let w := progress callback count total (ForwardedSoFar count) w in
        (count, forwarded, sleep (current_delay w) w)
    | (Some (FloodWaitError seconds), w) =>
        let w := progress callback count total (WaitingFlood seconds) w in
        (count, forwarded, sleep seconds w)
    | (Some _, w) => (count, forwarded, w)
    end
  else (count, forwarded, w).

(** The body of [while True] once [batch] is filled and not empty. *)
Definition replay_batch
    (tg : Telegram) (callback : bool) (total : Z) (target : Entity)
    (batch : list Message) (processed : Z) (r : Replay) (w : t) : Replay * t :=
  let offset_id := default (offset_id r) (msg_id <$> last batch) in
  let '(messages_by_group, single_messages) := split_batch batch in
  let '(count, w) :=
    fold_left (replay_single tg callback total target) single_messages (count r, w) in
  let '(count, forwarded, w) :=
    fold_left (replay_group tg callback total target) messages_by_group
              (count, seen_groups r, w) in
  (mkReplay count forwarded offset_id processed, w).

(** The [while True] loop.  [answers] holds what the transport returns to the
    successive [iter_messages(source, limit=100, offset_id=..., reverse=True)]
    requests: an exception or the messages it yields; once [answers] is used
    up the history has no more messages.  The result is the exception that
    left the loop, if any, with the local variables at that moment. *)
Fixpoint replay_loop
    (tg : Telegram) (callback : bool) (limit : option Z) (total : Z)
    (source target : Entity) (answers : list (Exn + list Message))
    (r : Replay) (w : t) : option Exn * Replay * t :=
  let w := emit (EvIterMessages source 100 (offset_id r)) w in
  match answers with
  | [] => (None, r, w)
  | inl e :: _ => (Some e, r, w)
  | inr answer :: answers =>
      let '(batch, processed) := fill_batch limit (processed r) (take 100 answer) in
      if bool_decide (batch = []) then
        (None, mkReplay (count r) (seen_groups r) (offset_id r) processed, w)
      else
        let '(r, w) := replay_batch tg callback total target batch processed r w in
        if limit_reached limit processed then (None, r, w)
        else replay_loop tg callback limit total source target answers r w
  end.

(** The counting pass run when a progress callback is given: [scan] is what
    [iter_messages(source)] yields, or the exception it raises. *)
Definition count_messages
    (callback : bool) (source : Entity) (scan : Exn + list Message) (w : t)
    : option Exn * Z * t :=
  if callback then
    let w := emit (EvCountMessages source) w in
    match scan with
    | inl e => (Some e, 0, w)
    | inr messages =>
        let total := Z.min (Z.of_nat (length messages)) 1000 in
        (None, total, progress callback 0 total CountingDone w)
    end
  else (None, 0, w).

(** The [try] block of [forward_all_media] up to the end of the loop: the
    exception that left it, if any, and [count] at that moment. *)
Definition replay_history
    (tg : Telegram) (callback : bool) (limit : option Z)
    (scan : Exn + list Message) (answers : list (Exn + list Message))
    (source target : Entity) (w : t) : option Exn * Z * t :=
  match count_messages callback source scan w with
  | (Some e, _, w) => (Some e, 0, w)
  | (None, total, w) =>
      let '(raised, r, w) :=
        replay_loop tg callback limit total source target answers
                    (mkReplay 0 [] 0 0) w in
      (raised, count r, w)
  end.

Definition forward_all_media
    (str_iter : gset string -> list string)
    (tg : Telegram) (callback : bool) (limit : option Z)
    (scan : Exn + list Message) (answers : list (Exn + list Message))
    (w : t) : (bool * Z) * t :=
  match source_chat w, target_chat w with
  | Some source, Some target =>
      match replay_history tg callback limit scan answers source target w with
      | (Some _, count, w) => ((false, count), w)
      | (None, count, w) =>
          let '(_, w) := start_forward_monitoring str_iter source target (media_types w) w in
          ((true, count), w)
      end
  | _, _ => ((false, 0), w)
  end.

(** ** Restoring the persisted rules *)

(** One turn of the loop of [restore_active_forwards]; every exception of the
    [try] block ends the turn. *)
Definition restore_forward
    (str_iter : gset string -> list string)
    (tg : Telegram) (w : t) (forward : Configuration.Forward) : t :=
  let source_id := Configuration.source_id forward in
  let target_id := Configuration.target_id forward in
  let mts : gset string := list_to_set (Configuration.media_types forward) in
  match py_int source_id with
  | None => w
  | Some source =>
      match client_get_entity tg source w with
      | (None, w) => w
      | (Some source_entity, w) =>
          if bool_decide (py_str target_id = "saved_messages")
             || bool_decide (py_str target_id = SAVED_MESSAGES_KEY)
          then (start_forward_monitoring str_iter source_entity (saved_messages w) mts w).2
          else
            match py_int target_id with
            | None => w
            | Some target =>
                match client_get_entity tg target w with
                | (None, w) => w
                | (Some target_entity, w) =>
                    (start_forward_monitoring str_iter source_entity target_entity mts w).2
                end
            end
      end
  end.

(** The loop runs over the list object [get_active_forwards] returned;
    [add_active_forward] binds a new list and leaves that one as it was. *)
Definition restore_active_forwards
    (str_iter : gset string -> list string) (tg : Telegram) (w : t) : t :=
  fold_left (restore_forward str_iter tg) (Configuration.get_active_forwards (config w)) w.

(** ** Choosing the endpoints of a replay *)

Definition set_source_chat (e : option Entity) (w : t) : t :=
  mk (config w) e (target_chat w) (media_types w) (active_forwards w)
     (message_count w) (handlers w) (saved_messages w) (forwarded_groups w) (io w).

Definition set_target_chat (e : option Entity) (w : t) : t :=
  mk (config w) (source_chat w) e (media_types w) (active_forwards w)
     (message_count w) (handlers w) (saved_messages w) (forwarded_groups w) (io w).

(** The name returned with [True] by [set_source] and [set_target]: the
    fixed name of the own chat, or the [title] (for a user the
    [first_name]) of the entity just stored. *)
Inductive ChatName : Type :=
  | SavedMessagesName
  | NameOf (e : Entity).

(** [int(chat_id)] and [get_entity] are inside the [try]: when either
    raises, the result is [(False, None)] and [source_chat] is what it was. *)
Definition set_source (tg : Telegram) (chat_id : PyId) (w : t)
    : (bool * option ChatName) * t :=
  match py_int chat_id with
  | None => ((false, None), w)
  | Some chat =>
      match client_get_entity tg chat w with
      | (None, w) => ((false, None), w)
      | (Some e, w) => ((true, Some (NameOf e)), set_source_chat (Some e) w)
      end
  end.

Definition set_target (tg : Telegram) (chat_id : PyId) (w : t)
    : (bool * option ChatName) * t :=
  if py_eq_str chat_id "saved_messages" || py_eq_str chat_id SAVED_MESSAGES_KEY
  then ((true, Some SavedMessagesName), set_target_chat (Some (saved_messages w)) w)
  else
    match py_int chat_id with
    | None => ((false, None), w)
    | Some chat =>
        match client_get_entity tg chat w with
        | (None, w) => ((false, None), w)
        | (Some e, w) => ((true, Some (NameOf e)), set_target_chat (Some e) w)
        end
    end.

(** ** The list of dialogs *)

(** A dialog as [iter_dialogs] yields it, and the dictionary [get_dialogs]
    makes of it. *)
Record Dialog : Type := mkDialog {
  dialog_id : Z;
  dialog_name : string;
  is_channel : bool;
  is_group : bool
}.

Inductive DialogType : Type := TypeChannel | TypeGroup | TypeUser.

Record DialogEntry : Type := mkDialogEntry {
  entry_id : Z;
  entry_name : string;
  entry_type : DialogType
}.

Definition dialog_entry (dialog : Dialog) : DialogEntry :=
  mkDialogEntry (dialog_id dialog) (dialog_name dialog)
    (if is_channel dialog then TypeChannel
     else if is_group dialog then TypeGroup else TypeUser).

(** The test [query and query.lower() not in dialog.name.lower()] that
    skips a dialog.  [found q name] stands for
    [q.lower() in name.lower()]; a query that is [None] or empty is false. *)
Definition skipped_by_query
    (found : string -> string -> bool) (query : option string) (dialog : Dialog) : bool :=
  match query with
  | None => false
  | Some q => negb (bool_decide (q = "")) && negb (found q (dialog_name dialog))
  end.

(** The loop of [get_dialogs] over the dialogs that [iter_dialogs] still has
    to yield, with the local variables [dialogs] and [counter]. *)
Fixpoint get_dialogs_from
    (found : string -> string -> bool) (offset limit : Z) (query : option string)
    (rest : list Dialog) (dialogs : list DialogEntry) (counter : Z)
    : list DialogEntry * Z :=
  match rest with
  | [] => (dialogs, counter)
  | dialog :: rest =>
      if skipped_by_query found query dialog
      then get_dialogs_from found offset limit query rest dialogs counter
      else
        let dialogs :=
          if offset <=? counter then dialogs ++ [dialog_entry dialog] else dialogs in
        let counter := counter + 1 in
        if limit <=? Z.of_nat (length dialogs) then (dialogs, counter)
        else get_dialogs_from found offset limit query rest dialogs counter
  end.

(** [all_dialogs] is what [self.client.iter_dialogs()] yields. *)
Definition get_dialogs
    (found : string -> string -> bool) (all_dialogs : list Dialog)
    (offset limit : Z) (query : option string) : list DialogEntry * Z :=
  get_dialogs_from found offset limit query all_dialogs [] 0.

End MediaForwarder.

(** * The operator interface *)

(** [s.split(sep)] for a separator of one character. *)
Fixpoint split_on (sep : ascii) (s : string) : list string :=
  match s with
  | EmptyString => [EmptyString]
  | String c s' =>
      if Ascii.eqb c sep then EmptyString :: split_on sep s'
      else
        match split_on sep s' with
        | [] => [String c EmptyString]
        | part :: parts => String c part :: parts
        end
  end.

(** The two navigation tests of [show_dialog_list], which asks
    [get_dialogs] for pages of 5: a button back when [offset > 0], a button
    forward when [offset + 5 < total]. *)
Definition shows_back (offset : Z) : bool := 0 <? offset.

Definition shows_next (offset total : Z) : bool := offset + 5 <? total.

(** The callback data of the stop button of [create_forwarding_keyboard],
    for a rule listed under the key [(source_id, target_id)]: the own chat is
    written with the shorthand. *)
Definition target_for_callback (target_id : string) : string :=
  if bool_decide (target_id = "saved_messages") then SAVED_MESSAGES_KEY
  else target_id.

Definition stop_button_data (key : MediaForwarder.Key) : string :=
  String.append "forward_stop_"
    (String.append key.1 (String.append "_" (target_for_callback key.2))).

(** The callback data of the stop button [start_forwarding_process] shows
    after a replay, from [source_chat], [target_chat] and [saved_messages];
    [None] when an endpoint is missing (reading its [id] raises). *)
Definition stop_button_after_replay (w : MediaForwarder.t) : option string :=
  match MediaForwarder.source_chat w, MediaForwarder.target_chat w with
  | Some source, Some target =>
      let source_id := str_of_int (MediaForwarder.ent_id source) in
      let target_id :=
        if bool_decide (MediaForwarder.ent_id target
                        = MediaForwarder.ent_id (MediaForwarder.saved_messages w))
        then SAVED_MESSAGES_KEY
        else str_of_int (MediaForwarder.ent_id target) in
      Some (String.append "forward_stop_"
              (String.append source_id (String.append "_" target_id)))
  | _, _ => None
  end.

(** [parts = data.split('_')], [source_id = parts[2]],
    [target_id = parts[3]] of [stop_forward]; [None] is the [IndexError]. *)
Definition parse_stop_data (data : string) : option (string * string) :=
  let parts := split_on "_" data in
  match parts !! 2%nat, parts !! 3%nat with
  | Some source_id, Some target_id => Some (source_id, target_id)
  | _, _ => None
  end.

(** [stop_forward] up to the result of its call of
    [stop_forward_monitoring]: it splits the callback data and hands the two
    strings over.  What it does with the result, the messages it sends and
    the list of active rules it asks for, is not part of this. *)
Definition stop_forward (data : string) (w : MediaForwarder.t)
    : option (bool * MediaForwarder.t) :=
  match parse_stop_data data with
  | Some (source_id, target_id) =>
      Some (MediaForwarder.stop_forward_monitoring (IdStr source_id) (IdStr target_id) w)
  | None => None
  end.

(** What [process_delay_setting] does to the engine: [config] is the object
    the engine holds. *)
Definition set_delay (d : Z) (w : MediaForwarder.t) : MediaForwarder.t :=
  MediaForwarder.set_config
    (Configuration.set_delay (MediaForwarder.config w) d) w.

(** * Notions used in the statements *)

(** An entry for the identity pair is stored in a list of persisted rules;
    none is. *)
Definition present (source target : PyId) (l : list Configuration.Forward) : Prop :=
  Exists (fun fwd => Configuration.same_pair source target fwd = true) l.

Definition absent (source target : PyId) (l : list Configuration.Forward) : Prop :=
  Forall (fun fwd => Configuration.same_pair source target fwd = false) l.

(** What stopping leaves behind for the key of the rule: it is in neither
    the table, the handlers, the windows nor the configuration, and the
    closure registered for it returns at once. *)
Definition stopped (key : MediaForwarder.Key) (w : MediaForwarder.t) : Prop :=
  MediaForwarder.active_forwards w !! key = None
  /\ MediaForwarder.handlers w !! key = None
  /\ MediaForwarder.forwarded_groups w !! key = None
  /\ absent (IdStr key.1) (IdStr key.2)
       (Configuration.get_active_forwards (MediaForwarder.config w))
  /\ forall tg set_iter cb message,
       MediaForwarder.cb_key cb = key ->
       MediaForwarder.handler tg set_iter cb message w = (None, w).

(** Number of dispatches, in a sequence of events, of exactly the messages
    with the identifiers [ids]. *)
Definition forward_attempts (ids : list Z) (events : list MediaForwarder.Event) : nat :=
  length
    (List.filter
       (fun e =>
          match e with
          | MediaForwarder.EvForward _ messages =>
              bool_decide (msg_id <$> messages = ids)
          | _ => false
          end)
       events).

(** The engine with another sequence of events and all attributes as in [w]. *)
Definition with_io (evs : list MediaForwarder.Event) (w : MediaForwarder.t)
    : MediaForwarder.t :=
  MediaForwarder.mk
    (MediaForwarder.config w) (MediaForwarder.source_chat w)
    (MediaForwarder.target_chat w) (MediaForwarder.media_types w)
    (MediaForwarder.active_forwards w) (MediaForwarder.message_count w)
    (MediaForwarder.handlers w) (MediaForwarder.saved_messages w)
    (MediaForwarder.forwarded_groups w) evs.

(** Number of messages Telegram accepted among the events [evs] that follow
    the events [before]: the sizes of the dispatches that returned. *)
Fixpoint delivered (tg : MediaForwarder.Telegram)
    (before evs : list MediaForwarder.Event) : Z :=
  match evs with
  | [] => 0
  | e :: evs =>
      match e with
      | MediaForwarder.EvForward target messages =>
          match MediaForwarder.forward_result tg before target messages with
          | None => Z.of_nat (length messages)
          | Some _ => 0
          end
      | _ => 0
      end + delivered tg (before ++ [e]) evs
  end.

(** Events of the replay proper: everything but the registration and the
    removal of a handler. *)
Definition replay_event (e : MediaForwarder.Event) : bool :=
  match e with
  | MediaForwarder.EvAddEventHandler _ | MediaForwarder.EvRemoveEventHandler _ => false
  | _ => true
  end.

(** From [w] to [w'] only events of the replay were added, [n] messages were
    delivered by them, and no attribute of the engine changed. *)
Definition replayed (tg : MediaForwarder.Telegram)
    (w : MediaForwarder.t) (n : Z) (w' : MediaForwarder.t) : Prop :=
  exists evs,
    w' = with_io (MediaForwarder.io w ++ evs) w
    /\ n = delivered tg (MediaForwarder.io w) evs
    /\ forallb replay_event evs = true.

(** The identity pair of a persisted rule, and the rule it stands for. *)
Definition pair_of (fwd : Configuration.Forward) : MediaForwarder.Key :=
  (py_str (Configuration.source_id fwd), py_str (Configuration.target_id fwd)).

Definition rule_of (fwd : Configuration.Forward) : MediaForwarder.Rule :=
  MediaForwarder.mkRule (list_to_set (Configuration.media_types fwd)) true.

Definition insert_rule (m : gmap MediaForwarder.Key MediaForwarder.Rule)
    (fwd : Configuration.Forward) : gmap MediaForwarder.Key MediaForwarder.Rule :=
  <[pair_of fwd := rule_of fwd]> m.

(** The record [start_forward_monitoring] writes when it restores [fwd]:
    the identifiers as strings, the media types as Python lists their set. *)
Definition rewritten (str_iter : gset string -> list string)
    (fwd : Configuration.Forward) : Configuration.Forward :=
  Configuration.mkForward
    (IdStr (py_str (Configuration.source_id fwd)))
    (IdStr (py_str (Configuration.target_id fwd)))
    (str_iter (list_to_set (Configuration.media_types fwd) : gset string)).

(** A record as [start_forward_monitoring] writes it, with endpoints that
    resolve: the source is [str] of the id of a chat Telegram resolves; the
    target is ["saved_messages"], or [str] of the id of a resolved chat that
    is not the operator's own. *)
Definition restorable (tg : MediaForwarder.Telegram) (self : MediaForwarder.Entity)
    (fwd : Configuration.Forward) : Prop :=
  (exists source,
     Configuration.source_id fwd = IdStr (str_of_int (MediaForwarder.ent_id source))
     /\ MediaForwarder.get_entity tg (MediaForwarder.ent_id source) = Some source)
  /\ (Configuration.target_id fwd = IdStr "saved_messages"
      \/ exists target,
           Configuration.target_id fwd
           = IdStr (str_of_int (MediaForwarder.ent_id target))
           /\ MediaForwarder.get_entity tg (MediaForwarder.ent_id target) = Some target
           /\ MediaForwarder.ent_id target <> MediaForwarder.ent_id self).

(** Number of handlers registered in a sequence of events. *)
Definition registrations (evs : list MediaForwarder.Event) : nat :=
  length
    (List.filter
       (fun e =>
          match e with
          | MediaForwarder.EvAddEventHandler _ => true
          | _ => false
          end)
       evs).

(** The engine with another message counter. *)
Definition with_count (n : Z) (evs : list MediaForwarder.Event) (w : MediaForwarder.t)
    : MediaForwarder.t :=
  MediaForwarder.set_message_count n (with_io evs w).

(** From [w] to [w'] a live path added events of the relay only, raised the
    message counter by the number of messages they delivered, and changed
    nothing else. *)
Definition relayed (tg : MediaForwarder.Telegram)
    (w w' : MediaForwarder.t) : Prop :=
  exists evs,
    w' = with_count (MediaForwarder.message_count w + delivered tg (MediaForwarder.io w) evs)
           (MediaForwarder.io w ++ evs) w
    /\ forallb replay_event evs = true.

(** The table with the same keys and running flags and every set of media
    types replaced by [mts]. *)
Definition retyped (mts : gset string)
    (table : gmap MediaForwarder.Key MediaForwarder.Rule)
    : gmap MediaForwarder.Key MediaForwarder.Rule :=
  (fun r => MediaForwarder.mkRule mts (MediaForwarder.is_running r)) <$> table.

(** The group a message belongs to, as [if message.grouped_id:] reads it:
    [None] for a message outside any group. *)
Definition group_of (m : Message) : option Z := truthy_id (grouped_id m).

(** One call of a method of the engine, or of [set_delay] on the
    configuration object it holds, with any arguments and any answers of
    Telegram.  Calls run one after another: a call is over before the next
    one starts.  The last step is the choice of media types in
    [process_media_selection], which assigns [media_types] or changes the
    set in place; a rule started with that set holds the same object, so the
    media types stored with the rules may change with it, while the keys of
    the table and the running flags do not. *)
Inductive step
    (str_iter : gset string -> list string) (set_iter : PySet -> list Z)
    : MediaForwarder.t -> MediaForwarder.t -> Prop :=
  | step_restore tg w :
      step str_iter set_iter w (MediaForwarder.restore_active_forwards str_iter tg w)
  | step_set_source tg chat_id w :
      step str_iter set_iter w (MediaForwarder.set_source tg chat_id w).2
  | step_set_target tg chat_id w :
      step str_iter set_iter w (MediaForwarder.set_target tg chat_id w).2
  | step_start source target mts w :
      step str_iter set_iter w
        (MediaForwarder.start_forward_monitoring str_iter source target mts w).2
  | step_handler tg cb message w :
      step str_iter set_iter w (MediaForwarder.handler tg set_iter cb message w).2
  | step_stop source_id target_id w :
      step str_iter set_iter w (MediaForwarder.stop_forward_monitoring source_id target_id w).2
  | step_replay tg callback limit scan answers w :
      step str_iter set_iter w
        (MediaForwarder.forward_all_media str_iter tg callback limit scan answers w).2
  | step_set_delay d w :
      step str_iter set_iter w (set_delay d w)
  | step_select mts table w :
      (forall key,
         MediaForwarder.is_running <$> table !! key
         = MediaForwarder.is_running <$> MediaForwarder.active_forwards w !! key) ->
      step str_iter set_iter w
        (MediaForwarder.set_media_types mts (MediaForwarder.set_active_forwards table w)).

(** The engines that a sequence of calls produces from the engine [connect]
    has just built on the configuration [c], with the own chat [self]. *)
Inductive reachable
    (str_iter : gset string -> list string) (set_iter : PySet -> list Z)
    (c : Configuration.t) (self : MediaForwarder.Entity)
    : MediaForwarder.t -> Prop :=
  | reachable_init : reachable str_iter set_iter c self (MediaForwarder.init c self)
  | reachable_step w w' :
      reachable str_iter set_iter c self w -> step str_iter set_iter w w' ->
      reachable str_iter set_iter c self w'.

(** A key as [start_forward_monitoring] builds it: the decimal form of the
    source id, and for the target the name of the own chat or the decimal
    form of the target id. *)
Definition canonical (key : MediaForwarder.Key) : Prop :=
  (exists a, key.1 = str_of_int a)
  /\ (key.2 = "saved_messages" \/ exists b, key.2 = str_of_int b).

(** What the three dictionaries and the store have in common in every
    reachable engine. *)
Record consistent (w : MediaForwarder.t) : Prop := mkConsistent {
  all_running :
    forall key r, MediaForwarder.active_forwards w !! key = Some r ->
                  MediaForwarder.is_running r = true;
  handlers_of_rules :
    dom (MediaForwarder.handlers w) = dom (MediaForwarder.active_forwards w);
  windows_of_rules :
    dom (MediaForwarder.forwarded_groups w) = dom (MediaForwarder.active_forwards w);
  windows_bounded :
    forall key seen, MediaForwarder.forwarded_groups w !! key = Some seen ->
                     (length seen <= 100)%nat;
  keys_canonical :
    forall key, is_Some (MediaForwarder.active_forwards w !! key) -> canonical key;
  rules_persisted :
    forall key, is_Some (MediaForwarder.active_forwards w !! key) ->
                key ∈ pair_of <$> Configuration.get_active_forwards
                                    (MediaForwarder.config w)
}.

(** [c in s] for a character [c]. *)
Fixpoint has_char (c : ascii) (s : string) : bool :=
  match s with
  | EmptyString => false
  | String c' s' => Ascii.eqb c' c || has_char c s'
  end.

(** The dialogs a query lets through, in the order Telegram lists them. *)
Definition matching (found : string -> string -> bool) (query : option string)
    (all_dialogs : list MediaForwarder.Dialog) : list MediaForwarder.Dialog :=
  List.filter (fun dialog => negb (MediaForwarder.skipped_by_query found query dialog))
              all_dialogs.

(** The group a dispatch is made of: the group of its first message. *)
Definition dispatch_group (messages : list Message) : option Z :=
  head messages ≫= group_of.

(** The groups Telegram accepted among the events [evs] that follow the
    events [before], in the order of their dispatches. *)
Fixpoint delivered_groups (tg : MediaForwarder.Telegram)
    (before evs : list MediaForwarder.Event) : list Z :=
  match evs with
  | [] => []
  | e :: evs =>
      match e with
      | MediaForwarder.EvForward target messages =>
          match MediaForwarder.forward_result tg before target messages with
          | None => option_list (dispatch_group messages)
          | Some _ => []
          end
      | _ => []
      end ++ delivered_groups tg (before ++ [e]) evs
  end.

(** Every dispatch among the events goes to [target], holds a message the
    filter [mts] accepts, and is made of messages of [pool]. *)
Definition dispatches_from (mts : gset string) (target : MediaForwarder.Entity)
    (pool : list Message) (evs : list MediaForwarder.Event) : Prop :=
  forall t messages,
    MediaForwarder.EvForward t messages ∈ evs ->
    t = target
    /\ existsb (should_forward_message mts) messages = true
    /\ messages ⊆ pool.

(** From [w] to [w'] the replay added events only; the groups they
    delivered are those that joined the groups marked as forwarded; and
    their dispatches are as [dispatches_from] has it. *)
Definition regrouped (tg : MediaForwarder.Telegram) (target : MediaForwarder.Entity)
    (pool : list Message)
    (w : MediaForwarder.t) (forwarded : PySet)
    (w' : MediaForwarder.t) (forwarded' : PySet) : Prop :=
  exists evs,
    w' = with_io (MediaForwarder.io w ++ evs) w
    /\ forwarded' = forwarded ++ delivered_groups tg (MediaForwarder.io w) evs
    /\ dispatches_from (MediaForwarder.media_types w) target pool evs.

(** The messages of the pages a replay was given. *)
Definition messages_of (answers : list (MediaForwarder.Exn + list Message))
    : list Message :=
  concat (omap (fun answer => match answer with inr page => Some page | inl _ => None end)
               answers).

(** Number of dispatches in a sequence of events. *)
Definition dispatches (evs : list MediaForwarder.Event) : nat :=
  length
    (List.filter
       (fun e =>
          match e with
          | MediaForwarder.EvForward _ _ => true
          | _ => false
          end)
       evs).

(** The closures registered at the client after a sequence of events.
    [add_event_handler] appends the closure to the list of the client;
    [remove_event_handler] deletes the entries whose callback is equal to its
    argument, and the argument the engine passes is the [None] it stored, so
    no entry is deleted. *)
Definition client_handlers (evs : list MediaForwarder.Event)
    : list MediaForwarder.Callback :=
  omap (fun e =>
          match e with
          | MediaForwarder.EvAddEventHandler cb => Some cb
          | _ => None
          end)
       evs.

(** What the client does with a new message: it calls, in the order of their
    registration, every registered closure whose event filter
    [events.NewMessage(chats=source_entity)] lets the message through;
    [selects cb message] is that filter.  An exception of a closure is logged
    by the client and the next closure is called. *)
Definition on_new_message (tg : MediaForwarder.Telegram) (set_iter : PySet -> list Z)
    (selects : MediaForwarder.Callback -> Message -> bool)
    (message : Message) (w : MediaForwarder.t) : MediaForwarder.t :=
  fold_left
    (fun w cb => (MediaForwarder.handler tg set_iter cb message w).2)
    (List.filter (fun cb => selects cb message)
                 (client_handlers (MediaForwarder.io w)))
    w.

(** * Sample runs *)

(** The listing of a set of strings in the order of [elements]. *)
Definition listing (s : gset string) : list string := elements s.

(** A configuration with two rules of chat 100. *)
Definition sample_forwards : list Configuration.Forward :=
  [Configuration.mkForward (IdStr "100") (IdStr "saved_messages") ["photo"];
   Configuration.mkForward (IdStr "100") (IdStr "200") []].

Definition sample_config : Configuration.t :=
  Configuration.mk (Configuration.mkData 3 sample_forwards) [].

(** The operator's own chat has id 1. *)
Definition self_chat : MediaForwarder.Entity := MediaForwarder.mkEntity 1.
Definition chat_100 : MediaForwarder.Entity := MediaForwarder.mkEntity 100.
Definition chat_200 : MediaForwarder.Entity := MediaForwarder.mkEntity 200.

(** A video as Telethon delivers it: the media is a [MessageMediaDocument]
    whose document has a [video/] MIME type, and the attributes [document]
    and [video] both give that document. *)
Definition video_document : Document := mkDocument "video/mp4".

Definition video_message : Message :=
  mkMessage 5 100 None (Some (MessageMediaDocument (Some video_document)))
            None (Some video_document) (Some video_document).

(** A photo of chat 100, alone or part of the group [g]. *)
Definition photo_message (i : Z) (g : option Z) : Message :=
  mkMessage i 100 g (Some MessageMediaPhoto) (Some (mkPhoto i)) None None.

Definition pdf_message (i : Z) : Message :=
  mkMessage i 100 None
    (Some (MessageMediaDocument (Some (mkDocument "application/pdf"))))
    None (Some (mkDocument "application/pdf")) None.

(** Telegram resolving every chat and accepting every dispatch. *)
Definition accepting : MediaForwarder.Telegram :=
  MediaForwarder.mkTelegram
    (fun chat => Some (MediaForwarder.mkEntity chat))
    (fun _ _ _ => None)
    (fun _ _ => inr []).

(** Telegram answering every dispatch with a flood wait of 7 seconds; the
    last two messages of chat 100 are the parts of group 40. *)
Definition flooding : MediaForwarder.Telegram :=
  MediaForwarder.mkTelegram
    (fun _ => None)
    (fun _ _ _ => Some (MediaForwarder.FloodWaitError 7))
    (fun _ _ => inr [photo_message 8 (Some 40); photo_message 9 (Some 40)]).

(** Telegram refusing every dispatch; the last two messages of chat 100 are
    the parts of group 7. *)
Definition refusing : MediaForwarder.Telegram :=
  MediaForwarder.mkTelegram
    (fun _ => None)
    (fun _ _ _ => Some MediaForwarder.OtherError)
    (fun _ _ => inr [photo_message 11 (Some 7); photo_message 12 (Some 7)]).

(** The engine after a first start: chat 100 is relayed to the own chat,
    photos only. *)
Definition sample_engine : MediaForwarder.t :=
  (MediaForwarder.start_forward_monitoring listing chat_100 self_chat {["photo"]}
     (MediaForwarder.init Configuration.init self_chat)).2.

(** The engine once the operator has chosen chat 100 as source, the own chat
    as target and photos as media type. *)
Definition replay_engine : MediaForwarder.t :=
  MediaForwarder.mk Configuration.init (Some chat_100) (Some self_chat)
    {["photo"]} ∅ 0 ∅ self_chat ∅ [].

(** The group identifiers 101, 100, ..., 1, marked in that order. *)
Definition countdown : list Z := Z.of_nat <$> rev (seq 1 101).

Definition countdown_window : PySet := set_of_list countdown.

(** Two pages of history: group 7 has its first part at the end of one page
    and its second part at the start of the next. *)
Definition album_pages : list (MediaForwarder.Exn + list Message) :=
  [inr [photo_message 11 (Some 7)]; inr [photo_message 12 (Some 7)]].

(** A photo, a document, and an album of two photos. *)
Definition scenario : list Message :=
  [photo_message 1 None; pdf_message 2;
   photo_message 3 (Some 9); photo_message 4 (Some 9)].

(** The engine at the end of the loop of the replay of [scenario], and the
    start that follows. *)
Definition scenario_replayed : MediaForwarder.t :=
  (MediaForwarder.replay_history accepting true None (inr scenario)
     [inr scenario] chat_100 self_chat replay_engine).2.

Definition scenario_started : bool * MediaForwarder.t :=
  MediaForwarder.start_forward_monitoring listing chat_100 self_chat
    (MediaForwarder.media_types scenario_replayed) scenario_replayed.

(** A replay whose second request for a page fails, and the engine it leaves. *)
Definition broken_pages : list (MediaForwarder.Exn + list Message) :=
  [inr [photo_message 1 None; pdf_message 2];
   inl MediaForwarder.OtherError;
   inr [photo_message 3 None]].

Definition broken_replayed : MediaForwarder.t :=
  with_io
    [MediaForwarder.EvIterMessages chat_100 100 0;
     MediaForwarder.EvForward self_chat [photo_message 1 None];
     MediaForwarder.EvSleep 3;
     MediaForwarder.EvIterMessages chat_100 100 2]
    replay_engine.

(** The sample engine after its handler met photo 5 while Telegram answers
    with flood waits. *)
Definition flooded_engine : MediaForwarder.t :=
  MediaForwarder.process_single_message flooding (photo_message 5 None)
    self_chat ("100", "saved_messages") sample_engine.

(** The replay of [album_pages] while Telegram refuses every dispatch. *)
Definition album_run : (bool * Z) * MediaForwarder.t :=
  MediaForwarder.forward_all_media listing refusing false None (inr []) album_pages
    replay_engine.

(** The sample engine after the first part of group 7 arrived live while
    Telegram refuses every dispatch. *)
Definition album_first_part : MediaForwarder.t :=
  (MediaForwarder.process_media_group refusing small_int_iter 7
     (photo_message 11 (Some 7)) self_chat ("100", "saved_messages")
     sample_engine).2.

(** The engine after a second rule was started: chat 100 to chat 200,
    videos and documents. *)
Definition persisting_engine : MediaForwarder.t :=
  (MediaForwarder.start_forward_monitoring listing chat_100 chat_200
     {["video"; "document"]} sample_engine).2.

(** What that engine persisted, and a fresh engine restored from it. *)
Definition persisted : Configuration.t := MediaForwarder.config persisting_engine.

Definition restored_engine : MediaForwarder.t :=
  MediaForwarder.restore_active_forwards listing accepting
    (MediaForwarder.init persisted self_chat).

(** A poll: its media is neither a photo nor a document, and the three
    convenience attributes give nothing. *)
Definition poll_message : Message :=
  mkMessage 6 100 None (Some MessageMediaOther) None None None.

(** Seven dialogs, and a search that compares the query with the whole name. *)
Definition sample_dialogs : list MediaForwarder.Dialog :=
  [MediaForwarder.mkDialog 100 "news" true false;
   MediaForwarder.mkDialog 200 "family" false true;
   MediaForwarder.mkDialog 1 "me" false false;
   MediaForwarder.mkDialog 300 "work" false true;
   MediaForwarder.mkDialog 400 "music" true false;
   MediaForwarder.mkDialog 500 "films" true false;
   MediaForwarder.mkDialog 600 "books" true false].

Definition whole_name (q name : string) : bool := bool_decide (q = name).

(** * Properties of the rule store *)

Section ConfigurationFacts.

Import Configuration.

Variables source target : PyId.

Lemma absent_iff_not_present l :
  absent source target l <-> ~ present source target l.
Proof.
  unfold absent, present. rewrite <- List.Forall_Exists_neg.
  split; apply List.Forall_impl; intros fwd;
    destruct (same_pair source target fwd); congruence.
Qed.

Lemma without_length l :
  (length (without source target l) <= length l)%nat.
Proof.
  induction l as [|fwd l IH]; simpl; [lia|].
  destruct (same_pair source target fwd); simpl; lia.
Qed.

Lemma without_absent l :
  absent source target l -> without source target l = l.
Proof.
  induction 1 as [|fwd l Hfwd _ IH]; simpl; [done|].
  by rewrite Hfwd, IH.
Qed.

Lemma without_present l :
  present source target l -> (length (without source target l) < length l)%nat.
Proof.
  induction 1 as [fwd l Hfwd | fwd l _ IH]; simpl.
  - rewrite Hfwd; simpl. pose proof (without_length l). lia.
  - destruct (same_pair source target fwd); simpl; lia.
Qed.

Lemma without_clears l : absent source target (without source target l).
Proof.
  apply List.Forall_forall. intros fwd Hin.
  apply List.filter_In in Hin as [_ Hneg].
  by destruct (same_pair source target fwd).
Qed.

Lemma remove_absent c :
  absent source target (get_active_forwards c) ->
  remove_active_forward c source target = (false, c).
Proof.
  intros Habs. unfold remove_active_forward, get_active_forwards in *.
  rewrite (without_absent _ Habs), Nat.ltb_irrefl.
  by destruct c as [[d l] wr].
Qed.

Lemma remove_present c :
  present source target (get_active_forwards c) ->
  (remove_active_forward c source target).1 = true.
Proof.
  intros Hpre. unfold remove_active_forward, get_active_forwards in *.
  apply without_present, Nat.ltb_lt in Hpre. by rewrite Hpre.
Qed.

Lemma remove_clears c :
  absent source target
    (get_active_forwards (remove_active_forward c source target).2).
Proof.
  unfold remove_active_forward, get_active_forwards.
  destruct (_ <? _)%nat; simpl; apply without_clears.
Qed.

(** C10.  Removing an active forward returns [True] exactly when an entry
    with the identity pair was stored; when none is stored the call returns
    [False] and leaves the configuration as it was: the same rule list and
    nothing more written to the file. *)
Theorem remove_active_forward_frame c :
  ((remove_active_forward c source target).1 = true
     <-> present source target (get_active_forwards c))
  /\ (~ present source target (get_active_forwards c) ->
      remove_active_forward c source target = (false, c)).
Proof.
  split; [split|].
  - intros Hret.
    destruct (decide (present source target (get_active_forwards c))) as [|Hn];
      [done|].
    apply absent_iff_not_present, remove_absent in Hn. by rewrite Hn in Hret.
  - apply remove_present.
  - intros Hn. by apply remove_absent, absent_iff_not_present.
Qed.

End ConfigurationFacts.

Lemma remove_active_forward_frame_witness :
  Configuration.remove_active_forward sample_config (IdInt 100) (IdStr "300")
  = (false, sample_config).
Proof.
  apply (proj2 (remove_active_forward_frame (IdInt 100) (IdStr "300") sample_config)).
  intros Hpre. apply absent_iff_not_present in Hpre; [done|].
  repeat constructor.
Defined.

(** * Properties of the live monitor *)

Section MonitorFacts.

Import MediaForwarder.

Variable str_iter : gset string -> list string.

Implicit Types (w : t) (key : Key) (tg : Telegram).

Lemma running_absent key w :
  active_forwards w !! key = None -> running w key = false.
Proof. intros E. unfold running. by rewrite E. Qed.

(** C5.  Starting a pair whose monitor is already running returns [False]
    and changes nothing: no handler is registered (no event is added, the
    handler table is the same), the dedup window of the pair is not reset,
    and the rule table and the configuration with its file are untouched. *)
Theorem start_running_is_noop source target mts w :
  running w (key_of w source target) = true ->
  start_forward_monitoring str_iter source target mts w = (false, w).
Proof. intros Hrun. unfold start_forward_monitoring. by rewrite Hrun. Qed.

(** After a start the pair is running, whichever branch was taken. *)
Lemma start_runs source target mts w :
  running (start_forward_monitoring str_iter source target mts w).2 (key_of w source target)
  = true.
Proof.
  unfold start_forward_monitoring.
  destruct (running w (key_of w source target)) eqn:Hrun; simpl; [done|].
  unfold running; simpl. by rewrite lookup_insert_eq.
Qed.

Lemma start_saved_messages source target mts w :
  saved_messages (start_forward_monitoring str_iter source target mts w).2 = saved_messages w.
Proof.
  unfold start_forward_monitoring. by destruct (running _ _).
Qed.

(** ** Stopping *)

Lemma stop_found_active_forwards key w :
  active_forwards (stop_found key w) = delete key (active_forwards w).
Proof.
  unfold stop_found; simpl.
  destruct (handlers w !! key); simpl; apply delete_alter_eq.
Qed.

Lemma stop_found_handlers key w :
  handlers (stop_found key w) = delete key (handlers w).
Proof.
  unfold stop_found; simpl.
  destruct (handlers w !! key) eqn:E; simpl; [done|].
  symmetry. by apply delete_id.
Qed.

Lemma stop_found_forwarded_groups key w :
  forwarded_groups (stop_found key w) = delete key (forwarded_groups w).
Proof.
  unfold stop_found; simpl. by destruct (handlers w !! key).
Qed.

Lemma stop_found_config key w :
  config (stop_found key w)
  = (Configuration.remove_active_forward (config w) (IdStr key.1) (IdStr key.2)).2.
Proof.
  unfold stop_found; simpl. by destruct (handlers w !! key).
Qed.

(** Once the rule is gone the closure registered for it does nothing. *)
Lemma handler_inert tg set_iter cb message w :
  active_forwards w !! cb_key cb = None ->
  handler tg set_iter cb message w = (None, w).
Proof.
  intros E. unfold handler. by rewrite (running_absent _ _ E).
Qed.

Lemma stop_found_stopped key w : stopped key (stop_found key w).
Proof.
  assert (active_forwards (stop_found key w) !! key = None) as Hgone.
  { rewrite stop_found_active_forwards. apply lookup_delete_eq. }
  repeat split.
  - done.
  - rewrite stop_found_handlers. apply lookup_delete_eq.
  - rewrite stop_found_forwarded_groups. apply lookup_delete_eq.
  - rewrite stop_found_config. apply remove_clears.
  - intros tg set_iter cb message <-. by apply handler_inert.
Qed.

(** C8.  A rule stored under the key of the operator's own chat is stopped
    by either spelling of the destination, ["saved_messages"] or ["saved"]:
    the call returns [True], and afterwards the rule is in neither the table,
    the handler table, the windows nor the configuration, and its closure no
    longer forwards anything.  When no rule is stored for the pair (for the
    own chat: under neither spelling) the call returns [False] and changes
    nothing. *)
Theorem stop_forward_monitoring_saved source w :
  (is_Some (active_forwards w !! (py_str source, "saved_messages")) ->
   forall target,
     target = IdStr "saved_messages" \/ target = IdStr SAVED_MESSAGES_KEY ->
     exists w',
       stop_forward_monitoring source target w = (true, w')
       /\ w' = stop_found (py_str source, "saved_messages") w
       /\ stopped (py_str source, "saved_messages") w')
  /\ (forall target,
        active_forwards w !! (py_str source, canonical_target target) = None ->
        (canonical_target target = "saved_messages" ->
         active_forwards w !! (py_str source, SAVED_MESSAGES_KEY) = None) ->
        stop_forward_monitoring source target w = (false, w)).
Proof.
  split.
  - intros Hin target Htarget. eexists. split; [|split; [reflexivity|]].
    + unfold stop_forward_monitoring.
      assert (canonical_target target = "saved_messages") as ->
        by (by destruct Htarget as [-> | ->]).
      by rewrite bool_decide_eq_true_2.
    + apply stop_found_stopped.
  - intros target Hkey Halt. unfold stop_forward_monitoring.
    rewrite Hkey, bool_decide_eq_false_2 by (by intros [? ?]).
    destruct (bool_decide (canonical_target target = "saved_messages")) eqn:Hc;
      simpl; [|done].
    apply bool_decide_eq_true_1 in Hc. rewrite (Halt Hc).
    by rewrite bool_decide_eq_false_2 by (by intros [? ?]).
Qed.

End MonitorFacts.

Lemma start_running_is_noop_witness :
  MediaForwarder.start_forward_monitoring listing chat_100 self_chat {["video"]} sample_engine
  = (false, sample_engine).
Proof.
  apply (start_running_is_noop listing chat_100 self_chat {["video"]} sample_engine).
  vm_compute. reflexivity.
Defined.

Lemma stop_forward_monitoring_saved_witness :
  (exists w',
     MediaForwarder.stop_forward_monitoring (IdInt 100) (IdStr "saved") sample_engine
     = (true, w')
     /\ w' = MediaForwarder.stop_found ("100", "saved_messages") sample_engine
     /\ stopped ("100", "saved_messages") w')
  /\ MediaForwarder.stop_forward_monitoring (IdInt 100) (IdStr "200") sample_engine
     = (false, sample_engine).
Proof.
  destruct (stop_forward_monitoring_saved (IdInt 100) sample_engine) as [Hstop Hnone].
  split.
  - apply Hstop; [vm_compute; eauto | by right].
  - apply (Hnone (IdStr "200")); [vm_compute; reflexivity | vm_compute; discriminate].
Defined.

(** * Properties of the media classifier *)

Section ClassifierFacts.

Lemma should_forward_any_media m :
  should_forward_message ∅ m = has_any_media m.
Proof. unfold should_forward_message. by rewrite bool_decide_eq_true_2. Qed.

(** When the three convenience attributes are absent the classifier works
    from the media descriptor alone, and then it sorts a document with a
    [video/] MIME type under ["video"] only. *)
Lemma check_media_type_descriptor filter m :
  photo m = None -> document m = None -> video m = None ->
  (forall d, media m = Some (MessageMediaDocument (Some d)) -> mime_type d <> "") ->
  check_media_type filter m = spec_kind_in_filter filter m.
Proof.
  intros Hp Hd Hv Hmime.
  unfold check_media_type, spec_kind_in_filter, spec_media_kind,
    media_is_photo, media_mime_type.
  rewrite Hp, Hd, Hv.
  destruct (media m) as [[| [d|] |]|] eqn:Hm; cbn [truthy negb andb orb kind_name];
    rewrite ?andb_false_r; try done.
  - by destruct (bool_decide ("photo" ∈ filter)).
  - rewrite (bool_decide_eq_false_2 (mime_type d = "")) by (by apply Hmime).
    destruct (startswith (mime_type d) "video/");
      cbn [negb andb orb kind_name]; rewrite ?andb_false_r.
    + by destruct (bool_decide ("video" ∈ filter)).
    + by destruct (bool_decide ("document" ∈ filter)).
Qed.

End ClassifierFacts.

(** C3.  With the filter [{"document"}] the classifier lets a video pass: the
    probe of the [document] attribute answers before the MIME type is looked
    at, although the kind of the item is video and the filter does not hold
    it. *)
Theorem video_passes_document_filter :
  spec_media_kind video_message = KindVideo
  /\ spec_kind_in_filter {["document"]} video_message = false
  /\ should_forward_message {["document"]} video_message = true.
Proof. repeat split; vm_compute; reflexivity. Qed.

(** * Properties of the dedup window *)

Section WindowFacts.

Lemma set_add_contains x s : x ∈ set_add x s.
Proof.
  unfold set_add, set_contains. case_bool_decide; [done|].
  apply elem_of_app. right. by apply list_elem_of_singleton.
Qed.

Lemma set_add_keeps x y s : y ∈ s -> y ∈ set_add x s.
Proof.
  unfold set_add. destruct (set_contains s x); [done|].
  intros Hy. apply elem_of_app. by left.
Qed.

Lemma set_add_length x s :
  (length (set_add x s) <= S (length s))%nat.
Proof.
  unfold set_add. destruct (set_contains s x); [lia|].
  rewrite length_app; simpl; lia.
Qed.

Lemma fold_set_add_nodup l acc :
  NoDup (acc ++ l) -> fold_left (fun s x => set_add x s) l acc = acc ++ l.
Proof.
  revert acc. induction l as [|x l IH]; intros acc Hnd; simpl.
  - by rewrite app_nil_r.
  - assert (x ∉ acc) as Hx.
    { apply NoDup_app in Hnd as (_ & Hdisj & _). intros Hin.
      apply (Hdisj x Hin). by left. }
    unfold set_add at 2, set_contains. rewrite bool_decide_eq_false_2 by done.
    rewrite IH; rewrite <- app_assoc; done.
Qed.

Lemma set_of_list_nodup l : NoDup l -> set_of_list l = l.
Proof. intros Hnd. unfold set_of_list. by rewrite fold_set_add_nodup. Qed.

Lemma last_n_length {A} n (l : list A) :
  (n <= length l)%nat -> length (last_n n l) = n.
Proof. intros Hn. unfold last_n. rewrite length_drop. lia. Qed.

(** Below the cap the window is left alone. *)
Lemma trim_small set_iter w : (length w <= 100)%nat -> trim set_iter w = w.
Proof.
  intros Hlen. unfold trim.
  destruct (100 <? length w)%nat eqn:E; [|done].
  apply Nat.ltb_lt in E. lia.
Qed.

(** Whatever the iteration order, a trimmed window holds 50 of the
    identifiers it held before. *)
Lemma trim_keeps_fifty set_iter w :
  NoDup w -> set_iter w ≡ₚ w -> (100 < length w)%nat ->
  length (trim set_iter w) = 50%nat /\ trim set_iter w ⊆ w.
Proof.
  intros Hnd Hperm Hlen. unfold trim.
  apply Nat.ltb_lt in Hlen as Hlt. rewrite Hlt.
  assert (NoDup (last_n 50 (set_iter w))) as Hnd'.
  { unfold last_n. apply (sublist_NoDup _ (set_iter w)); [|apply sublist_drop].
    by rewrite Hperm. }
  rewrite set_of_list_nodup by done. split.
  - apply last_n_length. rewrite Hperm. lia.
  - intros x Hx. rewrite <- Hperm. unfold last_n in Hx.
    by apply (subseteq_drop (length (set_iter w) - 50) (set_iter w)).
Qed.

(** Were a set iterated in insertion order, the trim would keep the 50
    identifiers inserted last. *)
Lemma trim_insertion_order w :
  NoDup w -> (100 < length w)%nat -> trim insertion_iter w = last_n 50 w.
Proof.
  intros Hnd Hlen. unfold trim, insertion_iter.
  apply Nat.ltb_lt in Hlen as ->.
  apply set_of_list_nodup. unfold last_n.
  by apply (sublist_NoDup _ w); [|apply sublist_drop].
Qed.

End WindowFacts.

(** C4.  A window that received the identifiers 101 down to 1 holds 101
    entries; Python iterates over it in increasing order, so the trim keeps
    52 to 101, the fifty marked first, and none of the fifty marked last
    (50 down to 1). *)
Theorem trim_drops_newest :
  countdown_window = countdown
  /\ small_int_iter countdown_window = Z.of_nat <$> seq 1 101
  /\ trim small_int_iter countdown_window = Z.of_nat <$> seq 52 50
  /\ last_n 50 countdown_window = Z.of_nat <$> rev (seq 1 50)
  /\ forallb (fun g => negb (set_contains (trim small_int_iter countdown_window) g))
             (last_n 50 countdown_window) = true.
Proof. repeat split; vm_compute; reflexivity. Qed.

(** * Rate limits and the marking of media groups *)

Section DispatchFacts.

Import MediaForwarder.

Implicit Types (w : t) (tg : Telegram).

Lemma on_error_forwarded_groups e w :
  forwarded_groups (on_error e w) = forwarded_groups w.
Proof. by destruct e. Qed.

(** The dispatch of a group in the live path leaves the windows alone. *)
Lemma relay_group_forwarded_groups tg gid message target w :
  forwarded_groups (relay_group tg gid message target w) = forwarded_groups w.
Proof.
  unfold relay_group, client_get_messages, client_forward_messages.
  destruct (recent_messages tg (io w) (chat_id message)) as [e|recent].
  - by rewrite on_error_forwarded_groups.
  - destruct (_ && _); [|done].
    destruct (forward_result _ _ _ _); [|done].
    by rewrite on_error_forwarded_groups.
Qed.

Lemma existsb_nonempty {A} (f : A -> bool) (l : list A) :
  existsb f l = true -> bool_decide (l = []) = false.
Proof. by destruct l. Qed.

(** C2 (as the code has it).  When Telegram rejects a dispatch with a flood
    wait of [seconds], the engine sleeps exactly [seconds] and goes on: the
    item or the group is not sent again and no counter moves.  This holds for
    a single message and for a group, in the replay and in the live path. *)
Theorem flood_wait_sleeps_without_retry tg seconds target w :
  (forall message key,
     should_forward_message (media_types w) message = true ->
     forward_result tg (io w) target [message] = Some (FloodWaitError seconds) ->
     process_single_message tg message target key w
     = sleep seconds (emit (EvForward target [message]) w))
  /\ (forall callback total count message,
     should_forward_message (media_types w) message = true ->
     forward_result tg (io w) target [message] = Some (FloodWaitError seconds) ->
     replay_single tg callback total target (count, w) message
     = (count,
        sleep seconds
          (progress callback count total (WaitingFlood seconds)
             (emit (EvForward target [message]) w))))
  /\ (forall callback total count forwarded gid messages,
     set_contains forwarded gid = false ->
     existsb (should_forward_message (media_types w)) messages = true ->
     forward_result tg (io w) target messages = Some (FloodWaitError seconds) ->
     replay_group tg callback total target (count, forwarded, w) (gid, messages)
     = (count, forwarded,
        sleep seconds
          (progress callback count total (WaitingFlood seconds)
             (emit (EvForward target messages) w))))
  /\ (forall gid message recent,
     let asked := EvGetMessages (chat_id message) 50 in
     let group :=
       List.filter (fun msg => bool_decide (grouped_id msg = Some gid)) recent in
     recent_messages tg (io w) (chat_id message) = inr recent ->
     existsb (should_forward_message (media_types w)) group = true ->
     forward_result tg (io w ++ [asked]) target group
     = Some (FloodWaitError seconds) ->
     relay_group tg gid message target w
     = sleep seconds (emit (EvForward target group) (emit asked w))).
Proof.
  repeat split.
  - intros message key Hfwd Hflood.
    unfold process_single_message, client_forward_messages.
    by rewrite Hfwd, Hflood.
  - intros callback total count message Hfwd Hflood.
    unfold replay_single, client_forward_messages.
    by rewrite Hfwd, Hflood.
  - intros callback total count forwarded gid messages Hnew Hfwd Hflood.
    unfold replay_group, client_forward_messages.
    by rewrite Hnew, Hfwd, Hflood.
  - intros gid message recent asked group Hrecent Hfwd Hflood.
    unfold relay_group, client_get_messages, client_forward_messages.
    rewrite Hrecent. cbn [media_types emit io].
    fold group. rewrite Hfwd, (existsb_nonempty _ _ Hfwd). cbn [andb negb].
    fold asked. by rewrite Hflood.
Qed.

End DispatchFacts.

(** C2, as stated, fails: the dispatch of message 5 is rejected with a flood
    wait of 7 seconds; the engine sleeps 7 seconds and returns, so message 5
    was sent once where the claim has a second attempt after the wait. *)
Lemma flood_wait_single_sent_once :
  MediaForwarder.io flooded_engine
  = MediaForwarder.io sample_engine
    ++ [MediaForwarder.EvForward self_chat [photo_message 5 None];
        MediaForwarder.EvSleep 7]
  /\ forward_attempts [5] (MediaForwarder.io flooded_engine) = 1%nat
  /\ MediaForwarder.message_count flooded_engine = 0.
Proof. split; [|split]; vm_compute; reflexivity. Qed.

Lemma flood_wait_sleeps_without_retry_witness :
  MediaForwarder.process_single_message flooding (photo_message 5 None)
    self_chat ("100", "saved_messages") sample_engine
  = MediaForwarder.sleep 7
      (MediaForwarder.emit
         (MediaForwarder.EvForward self_chat [photo_message 5 None]) sample_engine)
  /\ (MediaForwarder.replay_single flooding true 10 self_chat (3, sample_engine)
        (photo_message 5 None)).1 = 3
  /\ (MediaForwarder.replay_group flooding true 10 self_chat (3, [], sample_engine)
        (40, [photo_message 8 (Some 40)])).1 = (3, [])
  /\ MediaForwarder.relay_group flooding 40 (photo_message 9 (Some 40)) self_chat
       sample_engine
     = MediaForwarder.sleep 7
         (MediaForwarder.emit
            (MediaForwarder.EvForward self_chat
               [photo_message 8 (Some 40); photo_message 9 (Some 40)])
            (MediaForwarder.emit (MediaForwarder.EvGetMessages 100 50) sample_engine)).
Proof.
  destruct (flood_wait_sleeps_without_retry flooding 7 self_chat sample_engine)
    as (Hlive & Hsingle & Hgroup & Halbum).
  split; [|split; [|split]].
  - apply Hlive; vm_compute; reflexivity.
  - rewrite Hsingle; [reflexivity | vm_compute; reflexivity | reflexivity].
  - rewrite Hgroup; [reflexivity | reflexivity | vm_compute; reflexivity | reflexivity].
  - apply (Halbum 40 (photo_message 9 (Some 40))
                  [photo_message 8 (Some 40); photo_message 9 (Some 40)]);
      vm_compute; reflexivity.
Defined.

Section GroupMarking.

Import MediaForwarder.

Implicit Types (w : t) (tg : Telegram).

(** C1 (as the code has it).  In the live path the identifier of a group is
    put into the window of the rule before the dispatch is attempted: the
    dispatch runs on the engine with the identifier marked and cannot unmark
    it, so, as long as the window stays under its cap, a later part of the
    group is dropped without a dispatch, whatever became of the first one.
    In the replay the identifier is put into the window only once the
    dispatch has returned: after a failed dispatch the window is what it
    was. *)
Theorem group_marking tg set_iter gid w :
  (forall message target key seen,
     forwarded_groups w !! key = Some seen ->
     set_contains seen gid = false ->
     let marked :=
       set_forwarded_groups (<[key := set_add gid seen]> (forwarded_groups w)) w in
     let relayed := relay_group tg gid message target marked in
     let w' :=
       set_forwarded_groups
         (<[key := trim set_iter (set_add gid seen)]> (forwarded_groups relayed))
         relayed in
     process_media_group tg set_iter gid message target key w = (None, w')
     /\ forwarded_groups relayed !! key = Some (set_add gid seen)
     /\ gid ∈ set_add gid seen
     /\ ((length seen < 100)%nat ->
         forall message',
           process_media_group tg set_iter gid message' target key w' = (None, w')))
  /\ (forall callback total target count forwarded messages,
     set_contains forwarded gid = false ->
     existsb (should_forward_message (media_types w)) messages = true ->
     match forward_result tg (io w) target messages with
     | Some _ =>
         (replay_group tg callback total target (count, forwarded, w)
                       (gid, messages)).1
         = (count, forwarded)
     | None =>
         (replay_group tg callback total target (count, forwarded, w)
                       (gid, messages)).1
         = (count + Z.of_nat (length messages), set_add gid forwarded)
     end).
Proof.
  split.
  - intros message target key seen Hseen Hnew marked relayed w'.
    assert (forwarded_groups relayed !! key = Some (set_add gid seen)) as Hrelayed.
    { unfold relayed. rewrite relay_group_forwarded_groups.
      unfold marked; simpl. apply lookup_insert_eq. }
    split; [|split; [done|split; [apply set_add_contains|]]].
    + unfold process_media_group. rewrite Hseen, Hnew.
      fold marked. fold relayed. by rewrite Hrelayed.
    + intros Hlen message'. unfold process_media_group.
      assert (forwarded_groups w' !! key = Some (set_add gid seen)) as ->.
      { unfold w'; simpl. rewrite lookup_insert_eq. f_equal. apply trim_small.
        pose proof (set_add_length gid seen). lia. }
      unfold set_contains.
      by rewrite bool_decide_eq_true_2 by apply set_add_contains.
  - intros callback total target count forwarded messages Hnew Hfwd.
    unfold replay_group, client_forward_messages. rewrite Hnew, Hfwd.
    by destruct (forward_result tg (io w) target messages) as [[]|].
Qed.

End GroupMarking.

(** C1, as stated, fails in the replay: the dispatch of group 7 fails on the
    first page, the window is still empty afterwards, and the second page
    dispatches group 7 again in the same run. *)
Lemma failed_group_dispatched_again :
  (MediaForwarder.replay_group refusing false 0 self_chat (0, [], replay_engine)
     (7, [photo_message 11 (Some 7)])).1 = (0, [])
  /\ album_run.1 = (true, 0)
  /\ MediaForwarder.io album_run.2
     = [MediaForwarder.EvIterMessages chat_100 100 0;
        MediaForwarder.EvForward self_chat [photo_message 11 (Some 7)];
        MediaForwarder.EvIterMessages chat_100 100 11;
        MediaForwarder.EvForward self_chat [photo_message 12 (Some 7)];
        MediaForwarder.EvIterMessages chat_100 100 12;
        MediaForwarder.EvAddEventHandler
          (MediaForwarder.mkCallback ("100", "saved_messages") chat_100 self_chat)].
Proof. split; [|split]; vm_compute; reflexivity. Qed.

Lemma group_marking_witness :
  MediaForwarder.process_media_group refusing small_int_iter 7
    (photo_message 12 (Some 7)) self_chat ("100", "saved_messages") album_first_part
  = (None, album_first_part)
  /\ (MediaForwarder.replay_group refusing false 0 self_chat (0, [], replay_engine)
        (7, [photo_message 11 (Some 7)])).1 = (0, []).
Proof.
  destruct (group_marking refusing small_int_iter 7 sample_engine) as [Hlive _].
  destruct (group_marking refusing small_int_iter 7 replay_engine) as [_ Hreplay].
  split.
  - destruct (Hlive (photo_message 11 (Some 7)) self_chat ("100", "saved_messages") [])
      as (Hrun & _ & _ & Hagain); [reflexivity | reflexivity |].
    unfold album_first_part. rewrite Hrun. cbn [snd].
    apply Hagain. simpl. lia.
  - apply (Hreplay false 0 self_chat 0 [] [photo_message 11 (Some 7)]);
      vm_compute; reflexivity.
Defined.

(** * Properties of the backlog replay *)

Section ReplayFacts.

Import MediaForwarder.

Variable str_iter : gset string -> list string.

Variable tg : Telegram.

Implicit Types (w : t) (evs : list Event).

Lemma delivered_app before evs1 evs2 :
  delivered tg before (evs1 ++ evs2)
  = delivered tg before evs1 + delivered tg (before ++ evs1) evs2.
Proof.
  revert before. induction evs1 as [|e evs1 IH]; intros before; simpl.
  - by rewrite app_nil_r.
  - rewrite IH, <- app_assoc. simpl. lia.
Qed.

Lemma replayed_refl w : replayed tg w 0 w.
Proof.
  exists []. rewrite app_nil_r. by destruct w.
Qed.

Lemma replayed_trans w1 w2 w3 n m :
  replayed tg w1 n w2 -> replayed tg w2 m w3 -> replayed tg w1 (n + m) w3.
Proof.
  intros (evs1 & -> & -> & H1) (evs2 & -> & -> & H2).
  exists (evs1 ++ evs2). simpl. rewrite app_assoc, delivered_app, forallb_app, H1, H2.
  done.
Qed.

Lemma replayed_eq w n m w' : replayed tg w n w' -> n = m -> replayed tg w m w'.
Proof. by intros H <-. Qed.

Lemma replayed_emit e w :
  replay_event e = true ->
  (forall target messages, e <> EvForward target messages) ->
  replayed tg w 0 (emit e w).
Proof.
  intros He Hnf. exists [e]. simpl. rewrite He. repeat split.
  destruct e; try done. by destruct (Hnf target messages).
Qed.

Lemma replayed_sleep seconds w : replayed tg w 0 (sleep seconds w).
Proof. by apply replayed_emit. Qed.

Lemma replayed_progress callback count total status w :
  replayed tg w 0 (progress callback count total status w).
Proof.
  destruct callback; [by apply replayed_emit | apply replayed_refl].
Qed.

Lemma replayed_forward target messages w :
  replayed tg w
    (match forward_result tg (io w) target messages with
     | None => Z.of_nat (length messages)
     | Some _ => 0
     end)
    (client_forward_messages tg target messages w).2.
Proof.
  exists [EvForward target messages]. simpl. repeat split. lia.
Qed.

(** The three shapes of a turn of the replay: nothing happened; a dispatch
    was rejected; a dispatch returned and was followed by the progress call
    and the pause. *)
Ltac nothing_replayed :=
  apply (replayed_eq _ 0); [apply replayed_refl | simpl; lia].

Ltac sent_only Hsent :=
  eapply replayed_eq; [exact Hsent | simpl; lia].

Ltac sent_then_paced Hsent :=
  eapply replayed_eq;
    [eapply replayed_trans;
       [exact Hsent
       |eapply replayed_trans; [apply replayed_progress | apply replayed_sleep]]
    |simpl; lia].

Lemma replay_single_replayed callback total target count w message :
  let st := replay_single tg callback total target (count, w) message in
  replayed tg w (st.1 - count) st.2.
Proof.
  unfold replay_single.
  destruct (should_forward_message (media_types w) message);
    [|nothing_replayed].
  pose proof (replayed_forward target [message] w) as Hsent.
  unfold client_forward_messages in *. cbn [snd] in Hsent.
  destruct (forward_result tg (io w) target [message]) as [[seconds| |]|]; cbn [fst snd].
  - sent_then_paced Hsent.
  - sent_only Hsent.
  - sent_only Hsent.
  - sent_then_paced Hsent.
Qed.

Lemma replay_singles_replayed callback total target messages count w :
  let st :=
    fold_left (replay_single tg callback total target) messages (count, w) in
  replayed tg w (st.1 - count) st.2.
Proof.
  revert count w. induction messages as [|message messages IH]; intros count w.
  - nothing_replayed.
  - cbn [fold_left].
    pose proof (replay_single_replayed callback total target count w message) as Hone.
    destruct (replay_single tg callback total target (count, w) message)
      as [count1 w1]. cbn [fst snd] in Hone.
    eapply replayed_eq; [eapply replayed_trans; [exact Hone | apply IH] | lia].
Qed.

Lemma replay_group_replayed callback total target count forwarded w group :
  let st := replay_group tg callback total target (count, forwarded, w) group in
  replayed tg w (st.1.1 - count) st.2.
Proof.
  unfold replay_group. destruct group as [gid messages].
  destruct (set_contains forwarded gid);
    [nothing_replayed|].
  destruct (existsb _ messages);
    [|nothing_replayed].
  pose proof (replayed_forward target messages w) as Hsent.
  unfold client_forward_messages in *. cbn [snd] in Hsent.
  destruct (forward_result tg (io w) target messages) as [[seconds| |]|]; cbn [fst snd].
  - sent_then_paced Hsent.
  - sent_only Hsent.
  - sent_only Hsent.
  - sent_then_paced Hsent.
Qed.

Lemma replay_groups_replayed callback total target groups count forwarded w :
  let st :=
    fold_left (replay_group tg callback total target) groups (count, forwarded, w) in
  replayed tg w (st.1.1 - count) st.2.
Proof.
  revert count forwarded w.
  induction groups as [|group groups IH]; intros count forwarded w.
  - nothing_replayed.
  - cbn [fold_left].
    pose proof (replay_group_replayed callback total target count forwarded w group)
      as Hone.
    destruct (replay_group tg callback total target (count, forwarded, w) group)
      as [[count1 forwarded1] w1]. cbn [fst snd] in Hone.
    eapply replayed_eq; [eapply replayed_trans; [exact Hone | apply IH] | lia].
Qed.

Lemma replay_batch_replayed callback total target batch processed r w :
  let st := replay_batch tg callback total target batch processed r w in
  replayed tg w (count st.1 - count r) st.2.
Proof.
  unfold replay_batch. destruct (split_batch batch) as [groups singles].
  pose proof (replay_singles_replayed callback total target singles (count r) w)
    as Hsingles.
  destruct (fold_left _ singles _) as [count1 w1]. cbn [fst snd] in Hsingles.
  pose proof (replay_groups_replayed callback total target groups count1
                (seen_groups r) w1) as Hgroups.
  destruct (fold_left _ groups _) as [[count2 forwarded2] w2].
  cbn [fst snd count] in *.
  eapply replayed_eq; [eapply replayed_trans; [exact Hsingles | exact Hgroups] | lia].
Qed.

Lemma replay_loop_replayed callback limit total source target answers r w :
  let st := replay_loop tg callback limit total source target answers r w in
  replayed tg w (count st.1.2 - count r) st.2.
Proof.
  revert r w. induction answers as [|answer answers IH]; intros r w.
  - cbn [replay_loop fst snd].
    apply (replayed_eq _ 0); [by apply replayed_emit | lia].
  - cbn [replay_loop].
    assert (replayed tg w 0 (emit (EvIterMessages source 100 (offset_id r)) w))
      as Hasked by (by apply replayed_emit).
    destruct answer as [e|answer]; cbn [fst snd].
    { eapply replayed_eq; [exact Hasked | lia]. }
    destruct (fill_batch limit (processed r) (take 100 answer)) as [batch processed'].
    destruct (bool_decide (batch = [])); cbn [fst snd count].
    { eapply replayed_eq; [exact Hasked | lia]. }
    pose proof (replay_batch_replayed callback total target batch processed' r
                  (emit (EvIterMessages source 100 (offset_id r)) w)) as Hbatch.
    destruct (replay_batch tg callback total target batch processed' r _)
      as [r1 w1]. cbn [fst snd] in Hbatch.
    destruct (limit_reached limit processed'); cbn [fst snd].
    + eapply replayed_eq; [eapply replayed_trans; [exact Hasked | exact Hbatch] | lia].
    + eapply replayed_eq;
        [eapply replayed_trans;
           [exact Hasked | eapply replayed_trans; [exact Hbatch | apply IH]]
        |lia].
Qed.

Lemma count_messages_replayed callback source scan w :
  replayed tg w 0 (count_messages callback source scan w).2.
Proof.
  unfold count_messages. destruct callback; [|apply replayed_refl].
  destruct scan as [e|messages]; cbn [snd].
  - by apply replayed_emit.
  - apply (replayed_trans _ (emit (EvCountMessages source) w) _ 0 0);
      [by apply replayed_emit | apply replayed_progress].
Qed.

Lemma replay_history_replayed callback limit scan answers source target w :
  let st := replay_history tg callback limit scan answers source target w in
  replayed tg w st.1.2 st.2.
Proof.
  unfold replay_history.
  pose proof (count_messages_replayed callback source scan w) as Hcount.
  destruct (count_messages callback source scan w) as [[[e|] total] w0];
    cbn [fst snd] in *; [done|].
  pose proof (replay_loop_replayed callback limit total source target answers
                (mkReplay 0 [] 0 0) w0) as Hloop.
  destruct (replay_loop _ _ _ _ _ _ _ _ _) as [[raised r] w1].
  cbn [fst snd count] in *.
  eapply replayed_eq; [eapply replayed_trans; [exact Hcount | exact Hloop] | lia].
Qed.

Lemma replayed_attributes w n w' :
  replayed tg w n w' ->
  config w' = config w /\ active_forwards w' = active_forwards w
  /\ handlers w' = handlers w /\ forwarded_groups w' = forwarded_groups w
  /\ media_types w' = media_types w /\ saved_messages w' = saved_messages w.
Proof. by intros (evs & -> & _ & _). Qed.

(** The loop is left by an exception only when a request for a page raised it. *)
Lemma replay_loop_raised callback limit total source target answers r w e :
  (replay_loop tg callback limit total source target answers r w).1.1 = Some e ->
  inl e ∈ answers.
Proof.
  revert r w. induction answers as [|answer answers IH]; intros r w; cbn [replay_loop].
  - done.
  - destruct answer as [e'|answer]; cbn [fst].
    { intros [= ->]. by left. }
    destruct (fill_batch limit (processed r) (take 100 answer)) as [batch processed'].
    destruct (bool_decide (batch = [])); [done|].
    destruct (replay_batch tg callback total target batch processed' r _) as [r1 w1].
    destruct (limit_reached limit processed'); [done|].
    intros Hraised. right. by apply (IH r1 w1).
Qed.

Lemma replay_history_raised callback limit scan answers source target w e :
  (replay_history tg callback limit scan answers source target w).1.1 = Some e ->
  (callback = true /\ scan = inl e) \/ inl e ∈ answers.
Proof.
  unfold replay_history, count_messages.
  destruct callback; [destruct scan as [e'|messages]|]; cbn [fst].
  - intros [= ->]. by left.
  - destruct (replay_loop _ _ _ _ _ _ _ _ _) as [[raised r] w1] eqn:Hloop.
    cbn [fst]. intros ->. right.
    eapply replay_loop_raised. by rewrite Hloop.
  - destruct (replay_loop _ _ _ _ _ _ _ _ _) as [[raised r] w1] eqn:Hloop.
    cbn [fst]. intros ->. right.
    eapply replay_loop_raised. by rewrite Hloop.
Qed.

(** With a transport that answers every request the replay reaches its end. *)
Lemma replay_history_completes callback limit scan answers source target w :
  (callback = true -> exists messages, scan = inr messages) ->
  (forall e, inl e ∉ answers) ->
  (replay_history tg callback limit scan answers source target w).1.1 = None.
Proof.
  intros Hscan Hanswers.
  destruct (replay_history _ _ _ _ _ _ _ _).1.1 as [e|] eqn:Hraised; [|done].
  apply replay_history_raised in Hraised as [[Hcb ->]|Hin].
  - by destruct (Hscan Hcb).
  - by destruct (Hanswers e).
Qed.

(** C6.  When the replay reaches its end without an exception (an empty page
    came back or the limit was reached), [forward_all_media] starts the
    monitor of the same source and target on the engine the loop left, with
    the media types of the replay, and only then returns [True] with the
    count.  Afterwards the pair is running; unless it was running already,
    the registration of its handler is the last thing the engine did. *)
Theorem replay_hands_over callback limit scan answers source target w n w1 :
  source_chat w = Some source -> target_chat w = Some target ->
  replay_history tg callback limit scan answers source target w = (None, n, w1) ->
  let started := start_forward_monitoring str_iter source target (media_types w1) w1 in
  forward_all_media str_iter tg callback limit scan answers w = ((true, n), started.2)
  /\ replayed tg w n w1
  /\ running started.2 (key_of w source target) = true
  /\ (running w (key_of w source target) = false ->
      started.1 = true
      /\ io started.2
         = io w1 ++ [EvAddEventHandler
                       (mkCallback (key_of w source target) source target)]
      /\ active_forwards started.2 !! key_of w source target
         = Some (mkRule (media_types w) true)).
Proof.
  intros Hsource Htarget Hhistory started.
  pose proof (replay_history_replayed callback limit scan answers source target w)
    as Hreplayed.
  rewrite Hhistory in Hreplayed. cbn [fst snd] in Hreplayed.
  destruct (replayed_attributes _ _ _ Hreplayed)
    as (_ & Hactive & _ & _ & Hmedia & Hsaved).
  assert (key_of w1 source target = key_of w source target) as Hkey
    by (unfold key_of; by rewrite Hsaved).
  split; [|split; [done|split]].
  - unfold forward_all_media. rewrite Hsource, Htarget, Hhistory.
    fold started. by destruct started.
  - rewrite <- Hkey. apply start_runs.
  - intros Hidle. unfold started, start_forward_monitoring.
    rewrite Hkey. unfold running in *. rewrite Hactive.
    destruct (active_forwards w !! key_of w source target) as [rule|] eqn:Hrule.
    + rewrite Hidle. cbn. rewrite lookup_insert_eq, Hmedia. done.
    + cbn. rewrite lookup_insert_eq, Hmedia. done.
Qed.

(** C7.  When a request to the transport raises during the replay, the run
    stops there: [forward_all_media] returns [False] with the number of
    messages delivered tg until then, the monitor is not started (no handler
    is registered) and the rule table, the handlers and the configuration
    are what they were. *)
Theorem transport_failure_aborts callback limit scan answers source target w e n w1 :
  source_chat w = Some source -> target_chat w = Some target ->
  replay_history tg callback limit scan answers source target w = (Some e, n, w1) ->
  forward_all_media str_iter tg callback limit scan answers w = ((false, n), w1)
  /\ replayed tg w n w1
  /\ active_forwards w1 = active_forwards w
  /\ handlers w1 = handlers w
  /\ config w1 = config w.
Proof.
  intros Hsource Htarget Hhistory.
  pose proof (replay_history_replayed callback limit scan answers source target w)
    as Hreplayed.
  rewrite Hhistory in Hreplayed. cbn [fst snd] in Hreplayed.
  destruct (replayed_attributes _ _ _ Hreplayed) as (Hconfig & Hactive & Hhandlers & _).
  split; [|done].
  unfold forward_all_media. by rewrite Hsource, Htarget, Hhistory.
Qed.

End ReplayFacts.

Lemma replay_hands_over_witness :
  MediaForwarder.forward_all_media listing accepting true None (inr scenario)
    [inr scenario] replay_engine = ((true, 3), scenario_started.2)
  /\ MediaForwarder.running scenario_started.2
       (MediaForwarder.key_of replay_engine chat_100 self_chat) = true.
Proof.
  assert (MediaForwarder.replay_history accepting true None (inr scenario)
            [inr scenario] chat_100 self_chat replay_engine
          = (None, 3, scenario_replayed))
    as Hhistory by (vm_compute; reflexivity).
  destruct (replay_hands_over listing accepting true None (inr scenario) [inr scenario]
              chat_100 self_chat replay_engine 3 scenario_replayed
              eq_refl eq_refl Hhistory)
    as (Hrun & _ & Hrunning & _).
  split; [exact Hrun | exact Hrunning].
Defined.

Lemma transport_failure_aborts_witness :
  MediaForwarder.forward_all_media listing accepting false None (inr []) broken_pages
    replay_engine
  = ((false, 1), broken_replayed).
Proof.
  assert (MediaForwarder.replay_history accepting false None (inr []) broken_pages
            chat_100 self_chat replay_engine
          = (Some MediaForwarder.OtherError, 1, broken_replayed))
    as Hhistory by (vm_compute; reflexivity).
  exact (proj1 (transport_failure_aborts listing accepting false None (inr []) broken_pages
                  chat_100 self_chat replay_engine MediaForwarder.OtherError 1
                  broken_replayed eq_refl eq_refl Hhistory)).
Defined.

(** The replay of [scenario] with photos as the filter: the photo goes
    alone, the document is skipped, the album goes as one dispatch; three
    messages are counted and the engine pauses once per dispatch. *)
Example scenario_trace :
  MediaForwarder.io scenario_replayed
  = [MediaForwarder.EvCountMessages chat_100;
     MediaForwarder.EvProgress 0 4 MediaForwarder.CountingDone;
     MediaForwarder.EvIterMessages chat_100 100 0;
     MediaForwarder.EvForward self_chat [photo_message 1 None];
     MediaForwarder.EvProgress 1 4 (MediaForwarder.ForwardedSoFar 1);
     MediaForwarder.EvSleep 3;
     MediaForwarder.EvForward self_chat
       [photo_message 3 (Some 9); photo_message 4 (Some 9)];
     MediaForwarder.EvProgress 3 4 (MediaForwarder.ForwardedSoFar 3);
     MediaForwarder.EvSleep 3;
     MediaForwarder.EvIterMessages chat_100 100 4].
Proof. vm_compute. reflexivity. Qed.

(** * Restoring the persisted rules *)

Section RestoreFacts.

Import MediaForwarder.

Variable str_iter : gset string -> list string.

Variable tg : Telegram.
Variable self : Entity.

Implicit Types (w : t) (fwd : Configuration.Forward) (key : Key).
Implicit Types rules : list Configuration.Forward.

Lemma py_int_str z : py_int (IdStr (str_of_int z)) = Some z.
Proof.
  unfold py_int, str_of_int. rewrite NilZero.isi.
  - simpl. f_equal. apply DecimalZ.of_to.
  - destruct z; simpl; try discriminate.
    intros [= H]. by apply DecimalPos.Unsigned.to_uint_nonnil in H.
  - destruct z; simpl; try discriminate.
    intros [= H]. by apply DecimalPos.Unsigned.to_uint_nonnil in H.
Qed.

(** The decimal form of a number is neither spelling of the own chat. *)
Lemma str_of_int_not_saved z :
  str_of_int z <> "saved_messages" /\ str_of_int z <> SAVED_MESSAGES_KEY.
Proof.
  pose proof (py_int_str z) as Hint.
  split; intros Heq; rewrite Heq in Hint; vm_compute in Hint; discriminate.
Qed.

Lemma registrations_snoc evs e :
  registrations (evs ++ [e])
  = (registrations evs
     + match e with EvAddEventHandler _ => 1 | _ => 0 end)%nat.
Proof.
  unfold registrations. rewrite List.filter_app, length_app.
  by destruct e.
Qed.

(** What a start does when the pair is not running. *)
Lemma start_fresh source target mts w :
  running w (key_of w source target) = false ->
  let key := key_of w source target in
  let w' := (start_forward_monitoring str_iter source target mts w).2 in
  saved_messages w' = saved_messages w
  /\ active_forwards w' = <[key := mkRule mts true]> (active_forwards w)
  /\ handlers w' = <[key := ReturnedNone]> (handlers w)
  /\ forwarded_groups w' = <[key := []]> (forwarded_groups w)
  /\ io w' = io w ++ [EvAddEventHandler (mkCallback key source target)]
  /\ config w'
     = Configuration.add_active_forward (config w) (IdStr key.1) (IdStr key.2)
         (str_iter mts).
Proof.
  intros Hidle. unfold start_forward_monitoring. by rewrite Hidle.
Qed.

Lemma restore_forward_step w fwd :
  saved_messages w = self ->
  restorable tg self fwd ->
  active_forwards w !! pair_of fwd = None ->
  let w' := restore_forward str_iter tg w fwd in
  saved_messages w' = self
  /\ active_forwards w' = insert_rule (active_forwards w) fwd
  /\ dom (handlers w') = {[pair_of fwd]} ∪ dom (handlers w)
  /\ registrations (io w') = S (registrations (io w))
  /\ config w'
     = Configuration.add_active_forward (config w)
         (IdStr (pair_of fwd).1) (IdStr (pair_of fwd).2)
         (Configuration.media_types (rewritten str_iter fwd))
  /\ media_types w' = list_to_set (Configuration.media_types fwd).
Proof.
  intros Hself [(source & Hsource & Hresolve) Htarget] Hidle.
  unfold restore_forward, client_get_entity, insert_rule, rule_of, rewritten,
    pair_of in *.
  cbn [Configuration.media_types fst snd].
  rewrite Hsource in *. rewrite py_int_str, Hresolve. cbn [py_str] in *.
  destruct Htarget as [Hsaved | (target & Htarget & Hresolve' & Hother)].
  - rewrite Hsaved in *. cbn [py_str orb] in *.
    rewrite bool_decide_eq_true_2 by done. cbn [orb].
    set (w1 := emit (EvGetEntity (ent_id source)) w).
    assert (key_of w1 source (saved_messages w1)
            = (str_of_int (ent_id source), "saved_messages")) as Hkey.
    { unfold key_of. by rewrite bool_decide_eq_true_2. }
    assert (media_types
              (start_forward_monitoring str_iter source (saved_messages w1)
                 (list_to_set (Configuration.media_types fwd)) w1).2
            = list_to_set (Configuration.media_types fwd)) as Hm.
    { unfold start_forward_monitoring. rewrite Hkey.
      by rewrite (running_absent _ w1 Hidle). }
    destruct (start_fresh source (saved_messages w1)
                (list_to_set (Configuration.media_types fwd)) w1)
      as (Hs & Ha & Hh & _ & Hio & Hc).
    { rewrite Hkey. by apply running_absent. }
    rewrite Hkey in *. rewrite Hs, Ha, Hh, Hio, Hc, Hm.
    split; [done|split; [done|split; [|split; [|done]]]].
    + by rewrite dom_insert_L.
    + rewrite registrations_snoc. unfold w1; simpl.
      rewrite registrations_snoc. lia.
  - rewrite Htarget in *. cbn [py_str] in *.
    destruct (str_of_int_not_saved (ent_id target)) as [Hns1 Hns2].
    rewrite !bool_decide_eq_false_2 by done. cbn [orb].
    rewrite py_int_str, Hresolve'.
    set (w2 := emit (EvGetEntity (ent_id target))
                    (emit (EvGetEntity (ent_id source)) w)).
    assert (key_of w2 source target
            = (str_of_int (ent_id source), str_of_int (ent_id target))) as Hkey.
    { unfold key_of. rewrite bool_decide_eq_false_2; [done|].
      unfold w2; simpl. by rewrite Hself. }
    assert (media_types
              (start_forward_monitoring str_iter source target
                 (list_to_set (Configuration.media_types fwd)) w2).2
            = list_to_set (Configuration.media_types fwd)) as Hm.
    { unfold start_forward_monitoring. rewrite Hkey.
      by rewrite (running_absent _ w2 Hidle). }
    destruct (start_fresh source target
                (list_to_set (Configuration.media_types fwd)) w2)
      as (Hs & Ha & Hh & _ & Hio & Hc).
    { rewrite Hkey. by apply running_absent. }
    rewrite Hkey in *. rewrite Hs, Ha, Hh, Hio, Hc, Hm.
    split; [done|split; [done|split; [|split; [|done]]]].
    + by rewrite dom_insert_L.
    + rewrite registrations_snoc. unfold w2; simpl.
      rewrite !registrations_snoc. lia.
Qed.

(** ** The store keeps one record per identity pair *)

Lemma same_pair_pair_of (a b : string) fwd :
  Configuration.same_pair (IdStr a) (IdStr b) fwd = bool_decide (pair_of fwd = (a, b)).
Proof.
  unfold Configuration.same_pair, pair_of. cbn [py_str].
  repeat case_bool_decide; simplify_eq; done.
Qed.

Lemma pair_of_rewritten fwd : pair_of (rewritten str_iter fwd) = pair_of fwd.
Proof. done. Qed.

Lemma without_fresh (a b : string) rules :
  (a, b) ∉ pair_of <$> rules ->
  Configuration.without (IdStr a) (IdStr b) rules = rules.
Proof.
  induction rules as [|fwd rules IH]; intros Hnot; [done|].
  rewrite fmap_cons, not_elem_of_cons in Hnot. destruct Hnot as [Hne Hnot].
  unfold Configuration.without in *. cbn [List.filter].
  rewrite same_pair_pair_of, bool_decide_eq_false_2 by congruence.
  cbn [negb]. by rewrite IH.
Qed.

Lemma without_pairs (a b : string) rules :
  NoDup (pair_of <$> rules) ->
  NoDup (pair_of <$> Configuration.without (IdStr a) (IdStr b) rules)
  /\ (a, b) ∉ pair_of <$> Configuration.without (IdStr a) (IdStr b) rules.
Proof.
  induction rules as [|fwd rules IH]; intros Hnd.
  - split; [constructor | apply not_elem_of_nil].
  - rewrite fmap_cons, NoDup_cons in Hnd. destruct Hnd as [Hfresh Hnd].
    destruct (IH Hnd) as [IHnd IHnot].
    unfold Configuration.without in *. cbn [List.filter].
    rewrite same_pair_pair_of. case_bool_decide as Hpair; cbn [negb]; [done|].
    rewrite fmap_cons. split.
    + apply NoDup_cons. split; [|done]. intros Hin. apply Hfresh.
      apply list_elem_of_fmap in Hin as (fwd' & -> & Hin).
      apply list_elem_of_In, List.filter_In in Hin as [Hin _].
      apply list_elem_of_fmap_2. by apply list_elem_of_In.
    + apply not_elem_of_cons. split; [congruence | done].
Qed.

(** [add_active_forward], called as the engine calls it, keeps the identity
    pairs of the store distinct. *)
Lemma add_active_forward_pairs (a b : string) mts c :
  NoDup (pair_of <$> Configuration.get_active_forwards c) ->
  NoDup (pair_of <$> Configuration.get_active_forwards
                       (Configuration.add_active_forward c (IdStr a) (IdStr b) mts)).
Proof.
  intros Hnd. destruct (without_pairs a b _ Hnd) as [Hkept Hnot].
  unfold Configuration.add_active_forward, Configuration.get_active_forwards in *.
  cbn [Configuration.save Configuration.data Configuration.active_forwards py_str].
  rewrite fmap_app. apply NoDup_app. split; [done|]. split.
  - intros pair Hin Hlast. apply list_elem_of_singleton in Hlast. by subst.
  - apply NoDup_singleton.
Qed.

Lemma start_keeps_pairs_distinct source target mts w :
  NoDup (pair_of <$> Configuration.get_active_forwards (config w)) ->
  NoDup (pair_of <$> Configuration.get_active_forwards
                       (config (start_forward_monitoring str_iter source target mts w).2)).
Proof.
  intros Hnd. unfold start_forward_monitoring.
  destruct (running w (key_of w source target)); [done|].
  cbn [snd config set_config]. by apply add_active_forward_pairs.
Qed.

(** ** The table built from a list of persisted rules *)

Lemma insert_rules_other rules (m : gmap Key Rule) key :
  key ∉ pair_of <$> rules ->
  fold_left insert_rule rules m !! key = m !! key.
Proof.
  revert m. induction rules as [|fwd rules IH]; intros m Hkey; [done|].
  rewrite fmap_cons, not_elem_of_cons in Hkey. destruct Hkey as [Hne Hkey].
  cbn [fold_left]. rewrite IH by done.
  unfold insert_rule. by rewrite lookup_insert_ne.
Qed.

Lemma insert_rules_lookup rules (m : gmap Key Rule) fwd :
  NoDup (pair_of <$> rules) -> fwd ∈ rules ->
  fold_left insert_rule rules m !! pair_of fwd = Some (rule_of fwd).
Proof.
  revert m. induction rules as [|fwd' rules IH]; intros m Hnd Hin.
  - by apply elem_of_nil in Hin.
  - rewrite fmap_cons, NoDup_cons in Hnd. destruct Hnd as [Hfresh Hnd].
    cbn [fold_left]. apply elem_of_cons in Hin as [-> | Hin].
    + rewrite insert_rules_other by done.
      unfold insert_rule. apply lookup_insert_eq.
    + by apply IH.
Qed.

Lemma insert_rules_size rules (m : gmap Key Rule) :
  NoDup (pair_of <$> rules) ->
  (forall fwd, fwd ∈ rules -> m !! pair_of fwd = None) ->
  size (fold_left insert_rule rules m) = (size m + length rules)%nat.
Proof.
  revert m. induction rules as [|fwd rules IH]; intros m Hnd Hfree.
  - simpl. lia.
  - rewrite fmap_cons, NoDup_cons in Hnd. destruct Hnd as [Hfresh Hnd].
    cbn [fold_left length]. rewrite IH; [|done|].
    + unfold insert_rule. rewrite map_size_insert_None; [lia|].
      apply Hfree. by left.
    + intros fwd' Hin. unfold insert_rule. rewrite lookup_insert_ne.
      * apply Hfree. by right.
      * intros Heq. apply Hfresh. rewrite Heq. by apply list_elem_of_fmap_2.
Qed.

Lemma restore_fold rules w :
  saved_messages w = self ->
  Forall (restorable tg self) rules ->
  NoDup (pair_of <$> rules) ->
  (forall fwd, fwd ∈ rules -> active_forwards w !! pair_of fwd = None) ->
  let w' := fold_left (restore_forward str_iter tg) rules w in
  saved_messages w' = self
  /\ active_forwards w' = fold_left insert_rule rules (active_forwards w)
  /\ dom (handlers w') = list_to_set (pair_of <$> rules) ∪ dom (handlers w)
  /\ registrations (io w') = (registrations (io w) + length rules)%nat
  /\ media_types w'
     = default (media_types w)
         ((fun fwd => list_to_set (Configuration.media_types fwd)) <$> last rules).
Proof.
  revert w. induction rules as [|fwd rules IH]; intros w Hself Hok Hnd Hfree.
  - cbn [fold_left fmap list_fmap length]. cbn zeta.
    split; [done|split; [done|split; [|split; [lia|done]]]].
    by rewrite list_to_set_nil, (left_id_L ∅ (∪)).
  - apply Forall_cons in Hok as [Hfwd Hok].
    rewrite fmap_cons, NoDup_cons in Hnd. destruct Hnd as [Hfresh Hnd].
    destruct (restore_forward_step w fwd Hself Hfwd) as (Hs & Ha & Hh & Hr & _ & Hm).
    { apply Hfree. by left. }
    cbn [fold_left]. cbn zeta.
    destruct (IH (restore_forward str_iter tg w fwd) Hs Hok Hnd)
      as (Hs' & Ha' & Hh' & Hr' & Hm').
    { intros fwd' Hin. rewrite Ha. unfold insert_rule. rewrite lookup_insert_ne.
      - apply Hfree. by right.
      - intros Heq. apply Hfresh. rewrite Heq. by apply list_elem_of_fmap_2. }
    split; [done|split; [by rewrite Ha', Ha|split; [|split]]].
    + rewrite Hh', Hh, fmap_cons, list_to_set_cons.
      rewrite (assoc_L (∪)). f_equal. apply (comm_L (∪)).
    + rewrite Hr', Hr. simpl. lia.
    + rewrite Hm'. destruct rules as [|fwd' rules']; [exact Hm|].
      rewrite last_cons_cons.
      destruct (last (fwd' :: rules')) eqn:Elast; [done|].
      by apply last_None in Elast.
Qed.

(** The store after the restore: every record was taken out and written
    again at the end, in turn. *)
Lemma restore_fold_store rules w tail :
  saved_messages w = self ->
  Forall (restorable tg self) rules ->
  NoDup (pair_of <$> (rules ++ tail)) ->
  (forall fwd, fwd ∈ rules -> active_forwards w !! pair_of fwd = None) ->
  Configuration.get_active_forwards (config w) = rules ++ tail ->
  Configuration.get_active_forwards
    (config (fold_left (restore_forward str_iter tg) rules w))
  = tail ++ (rewritten str_iter <$> rules).
Proof.
  revert w tail.
  induction rules as [|fwd rules IH]; intros w tail Hself Hok Hnd Hfree Hstore.
  - cbn. by rewrite app_nil_r.
  - apply Forall_cons in Hok as [Hfwd Hok].
    cbn [app] in Hnd. rewrite fmap_cons, NoDup_cons in Hnd.
    destruct Hnd as [Hfresh Hnd].
    destruct (restore_forward_step w fwd Hself Hfwd) as (Hs & Ha & _ & _ & Hc & _).
    { apply Hfree. by left. }
    cbn [fold_left]. rewrite fmap_cons.
    rewrite (IH (restore_forward str_iter tg w fwd) (tail ++ [rewritten str_iter fwd])).
    + by rewrite <- app_assoc.
    + done.
    + done.
    + rewrite app_assoc, fmap_app. apply NoDup_app. split; [done|]. split.
      * intros pair Hin Hlast. apply list_elem_of_singleton in Hlast. by subst.
      * apply NoDup_singleton.
    + intros fwd' Hin. rewrite Ha. unfold insert_rule. rewrite lookup_insert_ne.
      * apply Hfree. by right.
      * intros Heq. apply Hfresh. rewrite Heq, fmap_app.
        apply elem_of_app. left. by apply list_elem_of_fmap_2.
    + rewrite Hc. unfold Configuration.add_active_forward,
        Configuration.get_active_forwards in *.
      cbn [Configuration.save Configuration.data Configuration.active_forwards].
      rewrite Hstore. unfold Configuration.without. cbn [List.filter app].
      rewrite same_pair_pair_of, bool_decide_eq_true_2 by (by destruct (pair_of fwd)).
      cbn [negb]. fold (Configuration.without (IdStr (pair_of fwd).1)
                          (IdStr (pair_of fwd).2) (rules ++ tail)).
      rewrite without_fresh by (by destruct (pair_of fwd)).
      by rewrite <- app_assoc.
Qed.

(** The rule table, the handlers and the store after a restore. *)
Lemma restore_table (c : Configuration.t) :
  let rules := Configuration.get_active_forwards c in
  let w' := restore_active_forwards str_iter tg (init c self) in
  Forall (restorable tg self) rules ->
  NoDup (pair_of <$> rules) ->
  size (active_forwards w') = length rules
  /\ (forall fwd, fwd ∈ rules ->
      active_forwards w' !! pair_of fwd
      = Some (mkRule (list_to_set (Configuration.media_types fwd)) true)
      /\ is_Some (handlers w' !! pair_of fwd))
  /\ registrations (io w') = length rules
  /\ Configuration.get_active_forwards (config w') = rewritten str_iter <$> rules
  /\ media_types w'
     = default ∅
         ((fun fwd => list_to_set (Configuration.media_types fwd)) <$> last rules).
Proof.
  intros rules w' Hok Hnd.
  assert (Configuration.get_active_forwards (config w') = rewritten str_iter <$> rules)
    as Hstore.
  { apply (restore_fold_store rules (init c self) []); try done.
    - by rewrite app_nil_r.
    - by rewrite app_nil_r. }
  destruct (restore_fold rules (init c self) eq_refl Hok Hnd)
    as (_ & Ha & Hh & Hr & Hm); [done|].
  change (fold_left (restore_forward str_iter tg) rules (init c self))
    with w' in Ha, Hh, Hr, Hm.
  cbn [init active_forwards handlers io media_types] in Ha, Hh, Hr, Hm.
  split; [|split; [|split; [|split; [done|done]]]].
  - rewrite Ha, insert_rules_size; [by rewrite map_size_empty|done|done].
  - intros fwd Hin. split.
    + rewrite Ha. by apply insert_rules_lookup.
    + apply elem_of_dom. rewrite Hh. apply elem_of_union_l, elem_of_list_to_set.
      by apply list_elem_of_fmap_2.
  - by rewrite Hr.
Qed.

(** C9.  A fresh engine whose configuration holds [N] rules of distinct
    identity pairs, written as the engine writes them and with endpoints that
    resolve, has after [restore_active_forwards] exactly [N] entries in its
    rule table, one per persisted rule, under the persisted identity pair,
    running, with the persisted media types stored in the entry; [N]
    handlers were registered, and the store holds the same pairs with the
    same sets of media types.  The monitors do not run with those filters:
    the engine has one attribute [media_types], each start assigns it, and
    after the restore it is the filter of the rule restored last.  The
    handler of every restored rule drops the single messages that filter
    rejects and dispatches those it accepts, whatever the media types
    persisted for its own rule. *)
Theorem restored_monitors_share_filter (c : Configuration.t) latest :
  let rules := Configuration.get_active_forwards c in
  let w' := restore_active_forwards str_iter tg (init c self) in
  (forall s, list_to_set (str_iter s) = s) ->
  Forall (restorable tg self) rules ->
  NoDup (pair_of <$> rules) ->
  last rules = Some latest ->
  (size (active_forwards w') = length rules
   /\ (forall fwd, fwd ∈ rules ->
        active_forwards w' !! pair_of fwd
        = Some (mkRule (list_to_set (Configuration.media_types fwd)) true)
        /\ is_Some (handlers w' !! pair_of fwd))
   /\ registrations (io w') = length rules
   /\ Forall2
        (fun written fwd =>
           pair_of written = pair_of fwd
           /\ list_to_set (Configuration.media_types written)
              =@{gset string} list_to_set (Configuration.media_types fwd))
        (Configuration.get_active_forwards (config w')) rules)
  /\ media_types w' = list_to_set (Configuration.media_types latest)
  /\ forall tg' set_iter cb message fwd,
       fwd ∈ rules -> cb_key cb = pair_of fwd ->
       truthy_id (grouped_id message) = None ->
       if should_forward_message
            (list_to_set (Configuration.media_types latest)) message
       then exists rest,
              io (handler tg' set_iter cb message w').2
              = io w' ++ EvForward (cb_target cb) [message] :: rest
       else handler tg' set_iter cb message w' = (None, w').
Proof.
  intros rules w' Hlists Hok Hnd Hlatest.
  destruct (restore_table c Hok Hnd) as (Hsize & Htable & Hreg & Hstore & Hm).
  fold rules w' in Hsize, Htable, Hreg, Hstore, Hm.
  rewrite Hlatest in Hm. cbn [fmap option_fmap option_map default] in Hm.
  split; [split; [done|]; split; [done|]; split; [done|]|split; [done|]].
  - rewrite Hstore. apply Forall2_fmap_l, Forall_Forall2_diag, Forall_forall.
    intros fwd _. split; [done|]. cbn [rewritten Configuration.media_types].
    apply Hlists.
  - intros tg' set_iter cb message fwd Hin Hkey Hsingle.
    destruct (Htable fwd Hin) as [Hrule _].
    unfold handler, running. rewrite Hkey, Hrule, Hsingle.
    cbn [is_running negb snd]. unfold process_single_message. rewrite Hm.
    destruct (should_forward_message _ message); [|done].
    unfold client_forward_messages.
    destruct (forward_result tg' (io w') (cb_target cb) [message]) as [[seconds| |]|];
      cbn [on_error sleep emit io set_message_count current_delay];
      rewrite <- ?app_assoc; eexists; reflexivity.
Qed.

(** The record a start persists has the form [restorable] asks for. *)
Lemma start_writes_restorable source target mts w :
  saved_messages w = self ->
  get_entity tg (ent_id source) = Some source ->
  get_entity tg (ent_id target) = Some target ->
  running w (key_of w source target) = false ->
  exists kept fwd,
    Configuration.get_active_forwards
      (config (start_forward_monitoring str_iter source target mts w).2)
    = kept ++ [fwd]
    /\ pair_of fwd = key_of w source target
    /\ Configuration.media_types fwd = str_iter mts
    /\ restorable tg self fwd.
Proof.
  intros Hself Hsource Htarget Hidle.
  destruct (start_fresh source target mts w Hidle) as (_ & _ & _ & _ & _ & Hconfig).
  rewrite Hconfig. unfold Configuration.add_active_forward, Configuration.get_active_forwards.
  cbn [Configuration.data Configuration.save Configuration.active_forwards].
  eexists _, _. split; [reflexivity|]. split; [done|]. split; [done|].
  split; cbn [Configuration.source_id Configuration.target_id key_of fst snd py_str].
  - by exists source.
  - rewrite Hself. case_bool_decide as Hown; [by left|].
    right. by exists target.
Qed.

End RestoreFacts.

Lemma restored_monitors_share_filter_witness :
  MediaForwarder.rule_media_types
    <$> MediaForwarder.active_forwards restored_engine !! ("100", "saved_messages")
  = Some {["photo"]}
  /\ MediaForwarder.handler accepting small_int_iter
       (MediaForwarder.mkCallback ("100", "saved_messages") chat_100 self_chat)
       (photo_message 5 None) restored_engine
     = (None, restored_engine)
  /\ exists rest,
       MediaForwarder.io
         (MediaForwarder.handler accepting small_int_iter
            (MediaForwarder.mkCallback ("100", "saved_messages") chat_100 self_chat)
            video_message restored_engine).2
       = MediaForwarder.io restored_engine
         ++ MediaForwarder.EvForward self_chat [video_message] :: rest.
Proof.
  assert (Configuration.get_active_forwards persisted
          = [Configuration.mkForward (IdStr "100") (IdStr "saved_messages")
               (listing {["photo"]});
             Configuration.mkForward (IdStr "100") (IdStr "200")
               (listing {["video"; "document"]})])
    as Hrules by (vm_compute; reflexivity).
  assert (Forall (restorable accepting self_chat)
            (Configuration.get_active_forwards persisted)) as Hok.
  { rewrite Hrules. constructor; [|constructor; [|constructor]].
    - split; [exists chat_100; split; vm_compute; reflexivity | left; reflexivity].
    - split; [exists chat_100; split; vm_compute; reflexivity|].
      right. exists chat_200. repeat split; vm_compute; [reflexivity..|discriminate]. }
  assert (NoDup (pair_of <$> Configuration.get_active_forwards persisted)) as Hnd.
  { rewrite Hrules. apply (bool_decide_unpack _). vm_compute. exact I. }
  assert (last (Configuration.get_active_forwards persisted)
          = Some (Configuration.mkForward (IdStr "100") (IdStr "200")
                    (listing {["video"; "document"]}))) as Hlatest
    by (rewrite Hrules; reflexivity).
  assert (Configuration.mkForward (IdStr "100") (IdStr "saved_messages")
            (listing {["photo"]})
          ∈ Configuration.get_active_forwards persisted) as Hin
    by (rewrite Hrules; left).
  destruct (restored_monitors_share_filter listing accepting self_chat persisted _
              (fun s => list_to_set_elements_L s) Hok Hnd Hlatest)
    as (_ & _ & Hlive).
  split; [|split].
  - vm_compute. reflexivity.
  - exact (Hlive accepting small_int_iter
             (MediaForwarder.mkCallback ("100", "saved_messages") chat_100 self_chat)
             (photo_message 5 None) _ Hin eq_refl eq_refl).
  - exact (Hlive accepting small_int_iter
             (MediaForwarder.mkCallback ("100", "saved_messages") chat_100 self_chat)
             video_message _ Hin eq_refl eq_refl).
Defined.

(** * Further properties of the rule store *)

Section StoreUpdates.

Import Configuration.

Variables source target : PyId.

Lemma filter_same_pair_without l :
  List.filter (same_pair source target) (without source target l) = [].
Proof.
  unfold without. induction l as [|fwd l IH]; simpl; [reflexivity|].
  destruct (same_pair source target fwd) eqn:E; simpl; [exact IH|].
  rewrite E. exact IH.
Qed.

Lemma same_pair_refl mts :
  same_pair source target
    (mkForward (IdStr (py_str source)) (IdStr (py_str target)) mts) = true.
Proof.
  unfold same_pair. simpl. rewrite !bool_decide_eq_true_2; reflexivity.
Qed.

Lemma same_pair_other source' target' fwd :
  (py_str source', py_str target') <> (py_str source, py_str target) ->
  same_pair source' target' fwd = true -> same_pair source target fwd = false.
Proof.
  unfold same_pair. intros Hne H.
  apply andb_true_iff in H as [H1 H2].
  apply bool_decide_eq_true_1 in H1. apply bool_decide_eq_true_1 in H2.
  apply andb_false_iff.
  destruct (decide (py_str (source_id fwd) = py_str source)) as [E1|E1].
  - right. apply bool_decide_eq_false_2. intros E2. apply Hne. congruence.
  - left. apply bool_decide_eq_false_2. exact E1.
Qed.

Lemma filter_other_pair_without source' target' l :
  (py_str source', py_str target') <> (py_str source, py_str target) ->
  List.filter (same_pair source' target') (without source target l)
  = List.filter (same_pair source' target') l.
Proof.
  intros Hne. unfold without. induction l as [|fwd l IH]; simpl; [reflexivity|].
  destruct (same_pair source' target' fwd) eqn:E'.
  - rewrite (same_pair_other _ _ _ Hne E'). simpl. rewrite E'. f_equal. exact IH.
  - destruct (same_pair source target fwd); simpl; [exact IH|].
    rewrite E'. exact IH.
Qed.

(** X1.  [add_active_forward] replaces: afterwards exactly one record is
    stored for the pair, the new one, at the end of the list; the records of
    every other pair are the ones stored before, in their order; the delay is
    kept and the store is written once. *)
Theorem add_active_forward_replaces c mts :
  let entry := mkForward (IdStr (py_str source)) (IdStr (py_str target)) mts in
  let c' := add_active_forward c source target mts in
  List.filter (same_pair source target) (get_active_forwards c') = [entry]
  /\ last (get_active_forwards c') = Some entry
  /\ (forall source' target',
        (py_str source', py_str target') <> (py_str source, py_str target) ->
        List.filter (same_pair source' target') (get_active_forwards c')
        = List.filter (same_pair source' target') (get_active_forwards c))
  /\ delay (data c') = delay (data c)
  /\ written c' = data c' :: written c.
Proof.
  intros entry c'. unfold c', add_active_forward, get_active_forwards, save. simpl.
  split; [|split; [|split; [|split]]].
  - rewrite List.filter_app, filter_same_pair_without. simpl.
    fold entry. unfold entry. rewrite same_pair_refl. reflexivity.
  - apply last_snoc.
  - intros source' target' Hne.
    rewrite List.filter_app, (filter_other_pair_without _ _ _ Hne). simpl.
    destruct (same_pair source' target' _) eqn:E.
    + exfalso. apply (same_pair_other _ _ _ Hne) in E.
      rewrite same_pair_refl in E. discriminate.
    + apply app_nil_r.
  - reflexivity.
  - reflexivity.
Qed.

(** X2.  Adding a rule for a pair that had no record and removing it again
    gives back the list of records that was stored; the removal reports
    success, and the store was written twice. *)
Theorem add_then_remove c mts :
  absent source target (get_active_forwards c) ->
  let added := add_active_forward c source target mts in
  let back := remove_active_forward added source target in
  back.1 = true
  /\ get_active_forwards back.2 = get_active_forwards c
  /\ delay (data back.2) = delay (data c)
  /\ written back.2 = data back.2 :: data added :: written c.
Proof.
  intros Habs added back. unfold get_active_forwards in *.
  assert (active_forwards (data added)
          = active_forwards (data c)
            ++ [mkForward (IdStr (py_str source)) (IdStr (py_str target)) mts])
    as Hadded.
  { unfold added, add_active_forward, save. simpl.
    rewrite (without_absent _ _ _ Habs). reflexivity. }
  assert (without source target (active_forwards (data added))
          = active_forwards (data c)) as Hback.
  { rewrite Hadded. unfold without. rewrite List.filter_app. simpl.
    rewrite same_pair_refl. simpl. rewrite app_nil_r.
    apply without_absent. exact Habs. }
  assert ((length (without source target (active_forwards (data added)))
           <? length (active_forwards (data added)))%nat = true) as Hlt.
  { rewrite Hback, Hadded, length_app. simpl. apply Nat.ltb_lt. lia. }
  assert (delay (data added) = delay (data c)) as Hdelay by reflexivity.
  assert (written added = data added :: written c) as Hwritten by reflexivity.
  clearbody added. unfold back, remove_active_forward. rewrite Hlt, Hback. simpl.
  rewrite Hdelay, Hwritten.
  split; [reflexivity|]. split; [reflexivity|]. split; reflexivity.
Qed.

End StoreUpdates.

Lemma add_then_remove_witness :
  (Configuration.remove_active_forward
     (Configuration.add_active_forward sample_config (IdInt 100) (IdInt 300) ["video"])
     (IdStr "100") (IdStr "300")).1 = true
  /\ Configuration.get_active_forwards
       (Configuration.remove_active_forward
          (Configuration.add_active_forward sample_config (IdInt 100) (IdInt 300) ["video"])
          (IdStr "100") (IdStr "300")).2
     = sample_forwards.
Proof.
  assert (absent (IdInt 100) (IdInt 300)
            (Configuration.get_active_forwards sample_config)) as Habs.
  { repeat constructor. }
  destruct (add_then_remove (IdInt 100) (IdInt 300) sample_config ["video"] Habs)
    as (H1 & H2 & _).
  split; [exact H1 | exact H2].
Defined.

(** * Further properties of the classifier *)

Section FilterFacts.

Implicit Types (m : Message) (mts : gset string).

Lemma check_media_type_any_media mts m :
  check_media_type mts m = true -> has_any_media m = true.
Proof.
  unfold check_media_type, has_any_media.
  destruct (truthy (media m)), (truthy (photo m)), (truthy (document m)),
    (truthy (video m)); simpl; try reflexivity.
  discriminate.
Qed.

(** X3.  Whatever the filter, only messages with some media are forwarded:
    a message the engine accepts carries a media descriptor, a photo, a
    document or a video. *)
Theorem forwarded_has_media mts m :
  should_forward_message mts m = true -> has_any_media m = true.
Proof.
  unfold should_forward_message. case_bool_decide; [tauto|].
  apply check_media_type_any_media.
Qed.

(** X4.  A message whose media is of another kind than photo or document (a
    poll, a location, a contact) and that has no photo, document or video
    attribute is forwarded when no media type is selected, and by no other
    filter, not even the one that selects all three types. *)
Theorem other_media_only_without_filter m :
  media m = Some MessageMediaOther ->
  photo m = None -> document m = None -> video m = None ->
  should_forward_message ∅ m = true
  /\ forall mts, mts <> ∅ -> should_forward_message mts m = false.
Proof.
  intros Hm Hp Hd Hv. split.
  - rewrite should_forward_any_media. unfold has_any_media. rewrite Hm. reflexivity.
  - intros mts Hne. unfold should_forward_message.
    rewrite bool_decide_eq_false_2 by exact Hne.
    unfold check_media_type, media_is_photo, media_mime_type.
    rewrite Hm, Hp, Hd, Hv. cbn [truthy negb andb orb].
    rewrite !andb_false_r. reflexivity.
Qed.

(** X5.  Selecting more media types never forwards less: a message accepted
    by a filter that selects something is accepted by every larger filter. *)
Theorem larger_filter_forwards_more mts mts' m :
  mts <> ∅ -> mts ⊆ mts' ->
  should_forward_message mts m = true -> should_forward_message mts' m = true.
Proof.
  intros Hne Hsub. unfold should_forward_message.
  rewrite (bool_decide_eq_false_2 (mts = ∅)) by exact Hne.
  rewrite (bool_decide_eq_false_2 (mts' = ∅)).
  2:{ intros E. apply Hne. apply elem_of_equiv_empty_L. intros x Hx.
      apply Hsub in Hx. rewrite E in Hx. set_solver. }
  unfold check_media_type.
  destruct (negb (truthy (media m)) && negb (truthy (photo m))
            && negb (truthy (document m)) && negb (truthy (video m)));
    [discriminate|].
  assert (forall name, bool_decide (name ∈ mts) = true -> bool_decide (name ∈ mts') = true)
    as Hin.
  { intros name H. apply bool_decide_eq_true_1 in H.
    apply bool_decide_eq_true_2. apply Hsub. exact H. }
  destruct (bool_decide ("photo" ∈ mts)) eqn:Ep.
  { rewrite (Hin _ Ep).
    destruct (truthy (photo m) || media_is_photo m); [reflexivity|]. simpl.
    destruct (bool_decide ("video" ∈ mts)) eqn:Ev.
    { rewrite (Hin _ Ev).
      destruct (truthy (video m) || _); [reflexivity|]. simpl.
      destruct (bool_decide ("document" ∈ mts)) eqn:Ed; [|discriminate].
      rewrite (Hin _ Ed). tauto. }
    simpl.
    destruct (bool_decide ("document" ∈ mts)) eqn:Ed; [|discriminate].
    rewrite (Hin _ Ed). simpl.
    destruct (truthy (document m) || _); [|discriminate].
    intros _. destruct (bool_decide ("video" ∈ mts') && _); reflexivity. }
  simpl.
  destruct (bool_decide ("video" ∈ mts)) eqn:Ev.
  { rewrite (Hin _ Ev).
    destruct (truthy (video m) || _).
    { intros _. destruct (bool_decide ("photo" ∈ mts') && _); reflexivity. }
    simpl.
    destruct (bool_decide ("document" ∈ mts)) eqn:Ed; [|discriminate].
    rewrite (Hin _ Ed). simpl.
    destruct (truthy (document m) || _); [|discriminate].
    intros _. destruct (bool_decide ("photo" ∈ mts') && _); reflexivity. }
  simpl.
  destruct (bool_decide ("document" ∈ mts)) eqn:Ed; [|discriminate].
  rewrite (Hin _ Ed). simpl.
  destruct (truthy (document m) || _); [|discriminate].
  intros _.
  destruct (bool_decide ("photo" ∈ mts') && _); [reflexivity|].
  destruct (bool_decide ("video" ∈ mts') && _); reflexivity.
Qed.

End FilterFacts.

Lemma forwarded_has_media_witness :
  has_any_media (photo_message 1 None) = true.
Proof.
  apply (forwarded_has_media {["photo"]}). vm_compute. reflexivity.
Defined.

Lemma other_media_only_without_filter_witness :
  should_forward_message ∅ poll_message = true
  /\ should_forward_message {["photo"; "video"; "document"]} poll_message = false.
Proof.
  destruct (other_media_only_without_filter poll_message eq_refl eq_refl eq_refl eq_refl)
    as [H1 H2].
  split; [exact H1|]. apply H2.
  intros E. assert ("photo" ∈ (∅ : gset string)) as Hin; [|set_solver].
  rewrite <- E. set_solver.
Defined.

Lemma larger_filter_forwards_more_witness :
  should_forward_message {["photo"; "video"]} (photo_message 1 None) = true.
Proof.
  apply (larger_filter_forwards_more {["photo"]}).
  - intros E. assert ("photo" ∈ (∅ : gset string)) as Hin; [|set_solver].
    rewrite <- E. set_solver.
  - set_solver.
  - vm_compute. reflexivity.
Defined.

(** * Further properties of the live monitor *)

Section LiveFacts.

Import MediaForwarder.

Variable tg : Telegram.

Implicit Types (w : t) (evs : list Event) (key : Key).

Lemma delivered_snoc before evs e :
  delivered tg before (evs ++ [e])
  = delivered tg before evs + delivered tg (before ++ evs) [e].
Proof.
  revert before. induction evs as [|e' evs IH]; intros before; simpl.
  - rewrite app_nil_r. lia.
  - rewrite IH, <- app_assoc. simpl. lia.
Qed.

Lemma relayed_refl w : relayed tg w w.
Proof.
  exists []. split; [|reflexivity]. destruct w.
  unfold with_count, with_io, set_message_count. simpl.
  rewrite app_nil_r. f_equal. lia.
Qed.

Lemma relayed_trans w1 w2 w3 :
  relayed tg w1 w2 -> relayed tg w2 w3 -> relayed tg w1 w3.
Proof.
  intros (evs1 & -> & H1) (evs2 & -> & H2). exists (evs1 ++ evs2). split.
  - destruct w1. unfold with_count, with_io, set_message_count. simpl.
    rewrite delivered_app. simpl. rewrite app_assoc. f_equal. lia.
  - rewrite forallb_app, H1, H2. reflexivity.
Qed.

Lemma relayed_emit e w :
  replay_event e = true ->
  (forall target messages, e <> EvForward target messages) ->
  relayed tg w (emit e w).
Proof.
  intros He Hnf. exists [e]. split.
  - destruct w. unfold with_count, with_io, set_message_count, emit. simpl.
    f_equal. destruct e; try lia. exfalso. eapply Hnf. reflexivity.
  - simpl. rewrite He. reflexivity.
Qed.

Lemma relayed_sleep seconds w : relayed tg w (sleep seconds w).
Proof. apply relayed_emit; [reflexivity | discriminate]. Qed.

Lemma relayed_on_error e w : relayed tg w (on_error e w).
Proof. destruct e; simpl; try apply relayed_refl. apply relayed_sleep. Qed.

(** A dispatch followed by what the live paths do with its outcome. *)
Lemma relayed_dispatch target messages w :
  relayed tg w
    (match client_forward_messages tg target messages w with
     | (Some e, w) => on_error e w
     | (None, w) =>
         let w := set_message_count
                    (message_count w + Z.of_nat (length messages)) w in
         sleep (current_delay w) w
     end).
Proof.
  unfold client_forward_messages.
  destruct (forward_result tg (io w) target messages) as [e|] eqn:E.
  - exists (EvForward target messages
            :: match e with FloodWaitError s => [EvSleep s] | _ => [] end).
    split; [|destruct e; reflexivity].
    destruct w. unfold with_count, with_io, set_message_count, emit in *. simpl in *.
    rewrite E. destruct e; simpl; unfold sleep, emit; simpl;
      rewrite <- ?app_assoc; simpl; f_equal; lia.
  - exists [EvForward target messages;
            EvSleep (Configuration.delay (Configuration.data (config w)))].
    split; [|reflexivity].
    destruct w. unfold with_count, with_io, set_message_count, emit, sleep, emit,
      current_delay in *. simpl in *.
    rewrite E. rewrite <- app_assoc. simpl. f_equal. lia.
Qed.

Lemma relayed_single message target key w :
  relayed tg w (process_single_message tg message target key w).
Proof.
  unfold process_single_message.
  destruct (should_forward_message (media_types w) message); [|apply relayed_refl].
  pose proof (relayed_dispatch target [message] w) as H.
  destruct (client_forward_messages tg target [message] w) as [[e|] w1]; exact H.
Qed.

Lemma relayed_group gid message target w :
  relayed tg w (relay_group tg gid message target w).
Proof.
  unfold relay_group, client_get_messages.
  assert (relayed tg w (emit (EvGetMessages (chat_id message) 50) w)) as Hasked
    by (apply relayed_emit; [reflexivity | discriminate]).
  destruct (recent_messages tg (io w) (chat_id message)) as [e|recent].
  - eapply relayed_trans; [exact Hasked | apply relayed_on_error].
  - set (asked := emit (EvGetMessages (chat_id message) 50) w) in *.
    set (group := List.filter _ recent).
    destruct (existsb _ group && negb (bool_decide (group = []))); [|exact Hasked].
    eapply relayed_trans; [exact Hasked|].
    pose proof (relayed_dispatch target group asked) as H.
    destruct (client_forward_messages tg target group asked) as [[e|] w1]; exact H.
Qed.

Lemma relayed_attributes w w' :
  relayed tg w w' ->
  config w' = config w /\ source_chat w' = source_chat w
  /\ target_chat w' = target_chat w /\ media_types w' = media_types w
  /\ active_forwards w' = active_forwards w /\ handlers w' = handlers w
  /\ saved_messages w' = saved_messages w
  /\ forwarded_groups w' = forwarded_groups w.
Proof. intros (evs & -> & _). destruct w. simpl. tauto. Qed.

Lemma relayed_set_forwarded_groups g w w' :
  relayed tg w w' ->
  relayed tg (set_forwarded_groups g w) (set_forwarded_groups g w').
Proof.
  intros (evs & -> & H). exists evs. split; [|exact H]. destruct w. reflexivity.
Qed.

(** The handler as a whole: but for the window of its rule it is a live
    path. *)
Lemma handler_relayed set_iter cb message w :
  let w' := (handler tg set_iter cb message w).2 in
  exists g,
    relayed tg (set_forwarded_groups g w) w'
    /\ forall key, key <> cb_key cb ->
         forwarded_groups w' !! key = forwarded_groups w !! key.
Proof.
  intros w'.
  unfold w', handler.
  destruct (negb (running w (cb_key cb))).
  { exists (forwarded_groups w). split; [|reflexivity].
    destruct w. apply relayed_refl. }
  destruct (truthy_id (grouped_id message)) as [gid|].
  2:{ exists (forwarded_groups w). simpl. split.
      - replace (set_forwarded_groups (forwarded_groups w) w) with w
          by (destruct w; reflexivity).
        apply relayed_single.
      - intros key _.
        destruct (relayed_attributes _ _
                    (relayed_single message (cb_target cb) (cb_key cb) w))
          as (_ & _ & _ & _ & _ & _ & _ & ->). reflexivity. }
  unfold process_media_group.
  destruct (forwarded_groups w !! cb_key cb) as [seen|] eqn:Eseen.
  2:{ exists (forwarded_groups w). split; [|reflexivity].
      destruct w. apply relayed_refl. }
  destruct (set_contains seen gid).
  { exists (forwarded_groups w). split; [|reflexivity].
    destruct w. apply relayed_refl. }
  set (marked := set_forwarded_groups _ w).
  pose proof (relayed_group gid message (cb_target cb) marked) as Hrel.
  pose proof (relay_group_forwarded_groups tg gid message (cb_target cb) marked)
    as Hgroups.
  set (relayed' := relay_group tg gid message (cb_target cb) marked) in *.
  destruct (forwarded_groups relayed' !! cb_key cb) as [seen'|] eqn:Eseen'.
  - exists (<[cb_key cb := trim set_iter seen']> (forwarded_groups relayed')).
    simpl. split.
    + replace (set_forwarded_groups
                 (<[cb_key cb := trim set_iter seen']> (forwarded_groups relayed')) w)
        with (set_forwarded_groups
                (<[cb_key cb := trim set_iter seen']> (forwarded_groups relayed'))
                marked)
        by (destruct w; reflexivity).
      apply relayed_set_forwarded_groups. exact Hrel.
    + intros key Hne. rewrite lookup_insert_ne by congruence.
      rewrite Hgroups. unfold marked. simpl.
      rewrite lookup_insert_ne by congruence. reflexivity.
  - exists (forwarded_groups marked). simpl. split.
    + replace (set_forwarded_groups (forwarded_groups marked) w) with marked
        by (destruct w; reflexivity).
      exact Hrel.
    + intros key Hne. rewrite Hgroups. unfold marked. simpl.
      rewrite lookup_insert_ne by congruence. reflexivity.
Qed.

(** X6.  What the handler of a rule does when a message arrives: it adds
    events of the relay (it never registers or removes a handler), raises
    the message counter by exactly the number of messages Telegram accepted,
    and changes no other attribute of the engine except the window of its
    own rule. *)
Theorem handler_accounts_and_frames set_iter cb message w :
  let w' := (handler tg set_iter cb message w).2 in
  exists evs,
    io w' = io w ++ evs
    /\ forallb replay_event evs = true
    /\ message_count w' = message_count w + delivered tg (io w) evs
    /\ config w' = config w
    /\ source_chat w' = source_chat w /\ target_chat w' = target_chat w
    /\ media_types w' = media_types w
    /\ active_forwards w' = active_forwards w
    /\ handlers w' = handlers w
    /\ saved_messages w' = saved_messages w
    /\ forall key, key <> cb_key cb ->
         forwarded_groups w' !! key = forwarded_groups w !! key.
Proof.
  intros w'.
  destruct (handler_relayed set_iter cb message w)
    as (g & (evs & Hw' & Hevs) & Hother).
  fold w' in Hw', Hother.
  exists evs. clearbody w'. subst w'. destruct w.
  unfold with_count, with_io, set_message_count in *. simpl in *.
  split; [reflexivity|]. split; [exact Hevs|].
  repeat (split; [reflexivity|]). exact Hother.
Qed.

(** X7.  The handler never reads the media types stored with its rule: run
    on a table in which the media types of the rules are replaced, it gives
    the same result and the same engine but for that table.  The filter it
    applies is the attribute [media_types] of the engine. *)
Theorem handler_ignores_rule_media_types set_iter cb message mts w :
  handler tg set_iter cb message
    (set_active_forwards (retyped mts (active_forwards w)) w)
  = ((handler tg set_iter cb message w).1,
     set_active_forwards (retyped mts (active_forwards w))
       (handler tg set_iter cb message w).2).
Proof.
  assert (forall w', active_forwards w' = active_forwards w ->
                     set_active_forwards (active_forwards w) w' = w') as Hsame.
  { intros w' <-. destruct w'. reflexivity. }
  unfold handler.
  assert (running (set_active_forwards (retyped mts (active_forwards w)) w)
                  (cb_key cb)
          = running w (cb_key cb)) as ->.
  { unfold running, retyped. simpl. rewrite lookup_fmap.
    destruct (active_forwards w !! cb_key cb); reflexivity. }
  destruct (negb (running w (cb_key cb))); [reflexivity|].
  set (table := retyped mts (active_forwards w)).
  clearbody table.
  destruct (truthy_id (grouped_id message)) as [gid|].
  - unfold process_media_group. simpl.
    destruct (forwarded_groups w !! cb_key cb) as [seen|]; [|reflexivity].
    destruct (set_contains seen gid); [reflexivity|].
    assert (forall w0,
              relay_group tg gid message (cb_target cb) (set_active_forwards table w0)
              = set_active_forwards table
                  (relay_group tg gid message (cb_target cb) w0)) as Hrelay.
    { intros w0. unfold relay_group, client_get_messages. simpl.
      destruct (recent_messages tg (io w0) (chat_id message)) as [e|recent].
      - destruct e; reflexivity.
      - destruct (existsb _ _ && _); [|reflexivity].
        unfold client_forward_messages. simpl.
        destruct (forward_result tg _ (cb_target cb) _) as [e|];
          [destruct e|]; reflexivity. }
    replace (set_forwarded_groups
               (<[cb_key cb := set_add gid seen]>
                  (forwarded_groups (set_active_forwards table w)))
               (set_active_forwards table w))
      with (set_active_forwards table
              (set_forwarded_groups
                 (<[cb_key cb := set_add gid seen]> (forwarded_groups w)) w))
      by reflexivity.
    rewrite Hrelay. simpl.
    destruct (forwarded_groups (relay_group tg gid message (cb_target cb) _)
                !! cb_key cb); reflexivity.
  - simpl. f_equal. unfold process_single_message. simpl.
    destruct (should_forward_message (media_types w) message); [|reflexivity].
    unfold client_forward_messages. simpl.
    destruct (forward_result tg (io w) (cb_target cb) [message]) as [e|];
      [destruct e|]; reflexivity.
Qed.

End LiveFacts.

(** * Further properties of the backlog replay *)

Section BatchFacts.

Import MediaForwarder.

Implicit Types (batch : list Message) (m : Message).

Lemma set_of_list_snoc l x : set_of_list (l ++ [x]) = set_add x (set_of_list l).
Proof. unfold set_of_list. rewrite fold_left_app. reflexivity. Qed.

Lemma set_add_nodup x s : NoDup s -> NoDup (set_add x s).
Proof.
  intros Hs. unfold set_add, set_contains. case_bool_decide; [exact Hs|].
  apply NoDup_app. split; [exact Hs|]. split; [|apply NoDup_singleton].
  intros y Hy Hy'. apply list_elem_of_singleton in Hy'. subst y. contradiction.
Qed.

Lemma set_of_list_is_nodup l : NoDup (set_of_list l).
Proof.
  induction l as [|x l IH] using rev_ind; [constructor|].
  rewrite set_of_list_snoc. apply set_add_nodup. exact IH.
Qed.

Lemma split_batch_snoc batch m :
  split_batch (batch ++ [m])
  = match truthy_id (grouped_id m) with
    | Some gid => (add_to_group gid m (split_batch batch).1, (split_batch batch).2)
    | None => ((split_batch batch).1, (split_batch batch).2 ++ [m])
    end.
Proof.
  unfold split_batch. rewrite fold_left_app. simpl.
  destruct (fold_left _ batch ([], [])) as [groups singles]. reflexivity.
Qed.

(** [add_to_group] on a dictionary whose values are given by a function of
    the key. *)
Lemma add_to_group_fmap gid m (f : Z -> list Message) keys :
  NoDup keys ->
  (gid ∉ keys -> f gid = []) ->
  add_to_group gid m ((fun g => (g, f g)) <$> keys)
  = (fun g => (g, if bool_decide (g = gid) then f g ++ [m] else f g))
      <$> set_add gid keys.
Proof.
  intros Hnd Hnew. unfold set_add, set_contains.
  induction keys as [|k keys IH].
  - simpl. rewrite bool_decide_eq_true_2 by reflexivity.
    rewrite Hnew by apply not_elem_of_nil. reflexivity.
  - apply NoDup_cons in Hnd as [Hk Hnd].
    rewrite fmap_cons. cbn [add_to_group].
    destruct (decide (k = gid)) as [->|Hne].
    + rewrite !bool_decide_eq_true_2 by (reflexivity || left).
      rewrite fmap_cons. rewrite bool_decide_eq_true_2 by reflexivity. f_equal.
      apply list_fmap_ext. intros i g Hg.
      rewrite bool_decide_eq_false_2; [reflexivity|].
      intros ->. apply Hk. eapply list_elem_of_lookup_2. exact Hg.
    + rewrite (bool_decide_eq_false_2 (k = gid)) by exact Hne.
      rewrite IH; [|exact Hnd|].
      2:{ intros Hnin. apply Hnew. intros Hin.
          apply elem_of_cons in Hin as [?|?]; [congruence|tauto]. }
      case_bool_decide as Hin.
      * rewrite bool_decide_eq_true_2 by (right; exact Hin).
        rewrite fmap_cons.
        rewrite (bool_decide_eq_false_2 (k = gid)) by exact Hne. reflexivity.
      * rewrite bool_decide_eq_false_2.
        2:{ intros Hin'. apply elem_of_cons in Hin' as [?|Hin']; [congruence|tauto]. }
        rewrite <- app_comm_cons, fmap_cons.
        rewrite (bool_decide_eq_false_2 (k = gid)) by exact Hne. reflexivity.
Qed.

Lemma set_of_list_elem_of l x : x ∈ set_of_list l <-> x ∈ l.
Proof.
  induction l as [|y l IH] using rev_ind; [reflexivity|].
  rewrite set_of_list_snoc, elem_of_app, list_elem_of_singleton, <- IH.
  unfold set_add, set_contains. case_bool_decide as Hin.
  - split; [tauto|]. intros [? | ->]; assumption.
  - rewrite elem_of_app, list_elem_of_singleton. reflexivity.
Qed.

(** X8.  How a page is split: the single messages are the messages without
    a group, in the order of the page; there is one group for every group
    identifier of the page, in the order of their first message, and it
    holds all the messages of the page with that identifier, in the order
    of the page. *)
Theorem split_batch_partition batch :
  (split_batch batch).2
  = List.filter (fun m => bool_decide (group_of m = None)) batch
  /\ (split_batch batch).1
     = (fun g => (g, List.filter (fun m => bool_decide (group_of m = Some g)) batch))
         <$> set_of_list (omap group_of batch).
Proof.
  unfold group_of.
  induction batch as [|m batch [IHs IHg]] using rev_ind; [split; reflexivity|].
  rewrite split_batch_snoc, omap_app, List.filter_app. simpl.
  destruct (truthy_id (grouped_id m)) as [gid|] eqn:E; simpl.
  - split; [rewrite app_nil_r; exact IHs|].
    rewrite IHg, set_of_list_snoc.
    rewrite add_to_group_fmap; [|apply set_of_list_is_nodup|].
    2:{ intros Hnin. rewrite set_of_list_elem_of, list_elem_of_omap in Hnin.
        clear IHs IHg. induction batch as [|m' batch' IH']; [reflexivity|]. simpl.
        rewrite bool_decide_eq_false_2.
        - apply IH'. intros (m0 & Hm0 & Hg). apply Hnin. exists m0.
          split; [right; exact Hm0 | exact Hg].
        - intros Hg. apply Hnin. exists m'. split; [left | exact Hg]. }
    apply list_fmap_ext. intros i g _. f_equal.
    rewrite List.filter_app. simpl. rewrite E.
    destruct (decide (g = gid)) as [->|Hne].
    + rewrite !bool_decide_eq_true_2 by reflexivity. reflexivity.
    + rewrite !bool_decide_eq_false_2 by congruence. rewrite app_nil_r. reflexivity.
  - rewrite app_nil_r. split; [rewrite IHs; reflexivity|].
    rewrite IHg. apply list_fmap_ext. intros i g _. f_equal.
    rewrite List.filter_app. simpl. rewrite E. simpl.
    rewrite app_nil_r. reflexivity.
Qed.

End BatchFacts.

Section ReplayBounds.

Import MediaForwarder.

Variable str_iter : gset string -> list string.

Variable tg : Telegram.

Implicit Types (w : t) (batch : list Message).

Lemma fill_batch_processed limit processed answer :
  (fill_batch limit processed answer).2
  = processed + Z.of_nat (length (fill_batch limit processed answer).1).
Proof.
  revert processed.
  induction answer as [|m answer IH]; intros processed; cbn [fill_batch].
  - cbn [fst snd length]. lia.
  - destruct (limit_reached limit (processed + 1)); [cbn [fst snd length]; lia|].
    specialize (IH (processed + 1)).
    destruct (fill_batch limit (processed + 1) answer) as [batch p].
    cbn [fst snd length] in *. lia.
Qed.

Lemma fill_batch_within l processed answer :
  0 < l -> processed < l -> (fill_batch (Some l) processed answer).2 <= l.
Proof.
  intros Hl. revert processed.
  induction answer as [|m answer IH]; intros processed Hlt; cbn [fill_batch].
  - simpl. lia.
  - destruct (limit_reached (Some l) (processed + 1)) eqn:E; [simpl; lia|].
    assert (processed + 1 < l) as Hlt'.
    { unfold limit_reached in E. apply andb_false_iff in E as [E|E].
      - apply negb_false_iff, Z.eqb_eq in E. lia.
      - apply Z.leb_gt in E. exact E. }
    specialize (IH _ Hlt').
    destruct (fill_batch (Some l) (processed + 1) answer) as [batch p]. exact IH.
Qed.

Lemma list_sum_cons x l : list_sum (x :: l) = (x + list_sum l)%nat.
Proof. reflexivity. Qed.

(** Number of messages held by the groups of a page. *)
Lemma add_to_group_size gid m d :
  list_sum ((fun g : Z * list Message => length g.2) <$> add_to_group gid m d)
  = S (list_sum ((fun g : Z * list Message => length g.2) <$> d)).
Proof.
  induction d as [|[g ms] d IH]; [reflexivity|].
  cbn [add_to_group]. case_bool_decide; rewrite !fmap_cons, !list_sum_cons; cbn [snd].
  - rewrite length_app. simpl. lia.
  - rewrite IH. lia.
Qed.

Lemma split_batch_size batch :
  (length (split_batch batch).2
   + list_sum ((fun g : Z * list Message => length g.2) <$> (split_batch batch).1))%nat
  = length batch.
Proof.
  induction batch as [|m batch IH] using rev_ind; [reflexivity|].
  rewrite split_batch_snoc, length_app. simpl.
  destruct (truthy_id (grouped_id m)); simpl.
  - rewrite add_to_group_size. lia.
  - rewrite length_app. simpl. lia.
Qed.

Lemma replay_single_count callback total target count w m :
  count <= (replay_single tg callback total target (count, w) m).1 <= count + 1.
Proof.
  unfold replay_single, client_forward_messages.
  destruct (should_forward_message (media_types w) m); [|simpl; lia].
  destruct (forward_result tg (io w) target [m]) as [[]|]; simpl; lia.
Qed.

Lemma replay_singles_count callback total target singles count w :
  count
  <= (fold_left (replay_single tg callback total target) singles (count, w)).1
  <= count + Z.of_nat (length singles).
Proof.
  revert count w.
  induction singles as [|m singles IH]; intros count w; [simpl; lia|].
  cbn [fold_left length]. rewrite Nat2Z.inj_succ.
  pose proof (replay_single_count callback total target count w m) as H1.
  destruct (replay_single tg callback total target (count, w) m) as [count1 w1].
  cbn [fst] in H1. specialize (IH count1 w1). lia.
Qed.

Lemma replay_group_count callback total target count forwarded w group :
  count
  <= (replay_group tg callback total target (count, forwarded, w) group).1.1
  <= count + Z.of_nat (length group.2).
Proof.
  unfold replay_group, client_forward_messages. destruct group as [gid messages].
  cbn [snd].
  destruct (set_contains forwarded gid); [simpl; lia|].
  destruct (existsb _ messages); [|simpl; lia].
  destruct (forward_result tg (io w) target messages) as [[]|]; simpl; lia.
Qed.

Lemma replay_groups_count callback total target groups count forwarded w :
  count
  <= (fold_left (replay_group tg callback total target) groups
        (count, forwarded, w)).1.1
  <= count
     + Z.of_nat (list_sum ((fun g : Z * list Message => length g.2) <$> groups)).
Proof.
  revert count forwarded w.
  induction groups as [|group groups IH]; intros count forwarded w;
    [simpl; lia|].
  rewrite fmap_cons, list_sum_cons. cbn [fold_left].
  pose proof (replay_group_count callback total target count forwarded w group) as H1.
  destruct (replay_group tg callback total target (count, forwarded, w) group)
    as [[count1 forwarded1] w1].
  cbn [fst] in H1. specialize (IH count1 forwarded1 w1). rewrite Nat2Z.inj_add. lia.
Qed.

Lemma replay_batch_count callback total target batch processed r w :
  let st := replay_batch tg callback total target batch processed r w in
  count r <= MediaForwarder.count st.1 <= count r + Z.of_nat (length batch)
  /\ MediaForwarder.processed st.1 = processed.
Proof.
  unfold replay_batch.
  pose proof (split_batch_size batch) as Hsize.
  destruct (split_batch batch) as [groups singles]. simpl in Hsize.
  pose proof (replay_singles_count callback total target singles (count r) w) as H1.
  destruct (fold_left (replay_single tg callback total target) singles (count r, w))
    as [count1 w1].
  pose proof (replay_groups_count callback total target groups count1 (seen_groups r) w1)
    as H2.
  destruct (fold_left (replay_group tg callback total target) groups _)
    as [[count2 forwarded2] w2].
  simpl in *. split; [lia | reflexivity].
Qed.

Lemma replay_loop_count callback l total source target answers r w :
  0 < l -> count r <= processed r -> processed r < l ->
  let st := replay_loop tg callback (Some l) total source target answers r w in
  count r <= count st.1.2 <= l.
Proof.
  intros Hl. revert r w.
  induction answers as [|[e|answer] answers IH]; intros r w Hcount Hlt;
    cbn [replay_loop]; [simpl; lia | simpl; lia |].
  pose proof (fill_batch_processed (Some l) (processed r) (take 100 answer)) as Hp.
  pose proof (fill_batch_within l (processed r) (take 100 answer) Hl Hlt) as Hw.
  destruct (fill_batch (Some l) (processed r) (take 100 answer)) as [batch p].
  simpl in Hp, Hw.
  case_bool_decide; [simpl; lia|].
  pose proof (replay_batch_count callback total target batch p r
                (emit (EvIterMessages source 100 (offset_id r)) w)) as [Hc Hpr].
  destruct (replay_batch tg callback total target batch p r _) as [r1 w1].
  simpl in Hc, Hpr.
  destruct (limit_reached (Some l) p) eqn:E; [simpl; lia|].
  assert (p < l) as Hlt1.
  { unfold limit_reached in E. apply andb_false_iff in E as [E|E].
    - apply negb_false_iff, Z.eqb_eq in E. lia.
    - apply Z.leb_gt in E. exact E. }
  specialize (IH r1 w1). simpl in IH. lia.
Qed.

(** X9.  A replay with a limit never forwards more than the limit: the
    count [forward_all_media] returns, which is the number of messages
    Telegram accepted, lies between 0 and the limit, whether the run
    completes or is aborted. *)
Theorem replay_within_limit callback l scan answers w :
  0 < l ->
  0 <= (forward_all_media str_iter tg callback (Some l) scan answers w).1.2 <= l.
Proof.
  intros Hl. unfold forward_all_media.
  destruct (source_chat w) as [source|]; [|simpl; lia].
  destruct (target_chat w) as [target|]; [|simpl; lia].
  assert (0 <= (replay_history tg callback (Some l) scan answers source target w).1.2
          <= l) as H.
  { unfold replay_history.
    destruct (count_messages callback source scan w) as [[[e|] total] w0];
      [simpl; lia|].
    pose proof (replay_loop_count callback l total source target answers
                  (mkReplay 0 [] 0 0) w0 Hl) as H.
    simpl in H.
    destruct (replay_loop tg callback (Some l) total source target answers _ w0)
      as [[raised r] w1].
    simpl in *. lia. }
  destruct (replay_history tg callback (Some l) scan answers source target w)
    as [[[e|] n] w1]; simpl in *.
  - exact H.
  - destruct (start_forward_monitoring str_iter source target (media_types w1) w1). exact H.
Qed.

End ReplayBounds.

Lemma replay_within_limit_witness :
  0 <= (MediaForwarder.forward_all_media listing accepting false (Some 2) (inr [])
          [inr scenario] replay_engine).1.2 <= 2.
Proof.
  apply (replay_within_limit listing accepting false 2). lia.
Defined.

(** * Further properties of the restoration *)

Section StoredPairs.

Import MediaForwarder.

Variable str_iter : gset string -> list string.

Implicit Types (w : t) (key : Key) (c : Configuration.t).

Lemma add_keeps_pairs c (a b : string) mts key :
  key ∈ pair_of <$> Configuration.get_active_forwards c ->
  key ∈ pair_of <$> Configuration.get_active_forwards
                      (Configuration.add_active_forward c (IdStr a) (IdStr b) mts).
Proof.
  unfold Configuration.add_active_forward, Configuration.get_active_forwards.
  simpl. intros Hin. rewrite fmap_app, elem_of_app.
  apply list_elem_of_fmap in Hin as (fwd & -> & Hfwd).
  destruct (Configuration.same_pair (IdStr a) (IdStr b) fwd) eqn:E.
  - right. rewrite same_pair_pair_of in E. apply bool_decide_eq_true_1 in E.
    rewrite E. simpl. left.
  - left. apply list_elem_of_fmap_2. unfold Configuration.without.
    apply list_elem_of_In, filter_In. split; [apply list_elem_of_In; exact Hfwd|].
    rewrite E. reflexivity.
Qed.

Lemma add_has_pair c (a b : string) mts :
  (a, b) ∈ pair_of <$> Configuration.get_active_forwards
                         (Configuration.add_active_forward c (IdStr a) (IdStr b) mts).
Proof.
  unfold Configuration.add_active_forward, Configuration.get_active_forwards.
  simpl. rewrite fmap_app, elem_of_app. right. simpl. left.
Qed.

Lemma remove_keeps_other_pairs c (a b : string) key :
  key <> (a, b) ->
  key ∈ pair_of <$> Configuration.get_active_forwards c ->
  key ∈ pair_of <$> Configuration.get_active_forwards
                      (Configuration.remove_active_forward c (IdStr a) (IdStr b)).2.
Proof.
  intros Hne Hin.
  assert (key ∈ pair_of <$> Configuration.without (IdStr a) (IdStr b)
                              (Configuration.get_active_forwards c)) as H.
  { apply list_elem_of_fmap in Hin as (fwd & -> & Hfwd).
    apply list_elem_of_fmap_2. unfold Configuration.without.
    apply list_elem_of_In, filter_In. split; [apply list_elem_of_In; exact Hfwd|].
    rewrite same_pair_pair_of, bool_decide_eq_false_2 by exact Hne. reflexivity. }
  unfold Configuration.remove_active_forward, Configuration.get_active_forwards in *.
  destruct (_ <? _)%nat; exact H.
Qed.

Lemma start_keeps_pairs source target mts w key :
  key ∈ pair_of <$> Configuration.get_active_forwards (config w) ->
  key ∈ pair_of <$> Configuration.get_active_forwards
                      (config (start_forward_monitoring str_iter source target mts w).2).
Proof.
  intros Hin. unfold start_forward_monitoring.
  destruct (running w (key_of w source target)); [exact Hin|].
  simpl. apply add_keeps_pairs. exact Hin.
Qed.

Lemma restore_forward_keeps_pairs tg w fwd key :
  key ∈ pair_of <$> Configuration.get_active_forwards (config w) ->
  key ∈ pair_of <$> Configuration.get_active_forwards
                      (config (restore_forward str_iter tg w fwd)).
Proof.
  intros Hin. unfold restore_forward, client_get_entity.
  destruct (py_int (Configuration.source_id fwd)) as [source|]; [|exact Hin].
  destruct (get_entity tg source) as [source_entity|]; [|exact Hin].
  destruct (_ || _).
  { apply start_keeps_pairs. exact Hin. }
  destruct (py_int (Configuration.target_id fwd)) as [target|]; [|exact Hin].
  destruct (get_entity tg target) as [target_entity|]; [|exact Hin].
  apply start_keeps_pairs. exact Hin.
Qed.

(** X10.  Restoring never drops a persisted rule: whatever Telegram
    resolves, every identity pair that had a record in the store before
    [restore_active_forwards] still has one afterwards, also the pairs whose
    endpoints could not be resolved. *)
Theorem restore_keeps_every_pair tg w :
  pair_of <$> Configuration.get_active_forwards (config w)
  ⊆ pair_of <$> Configuration.get_active_forwards
                  (config (restore_active_forwards str_iter tg w)).
Proof.
  unfold restore_active_forwards.
  generalize (Configuration.get_active_forwards (config w)) at 2 as rules.
  intros rules. revert w.
  induction rules as [|fwd rules IH]; intros w key Hin; [exact Hin|].
  simpl. apply IH. apply restore_forward_keeps_pairs. exact Hin.
Qed.

End StoredPairs.

(** * What holds in every reachable engine *)

Section Reachability.

Import MediaForwarder.

Variable str_iter : gset string -> list string.

Variable set_iter : PySet -> list Z.

Implicit Types (w : t) (key : Key) (tg : Telegram).

Lemma trim_bounded seen : (length (trim set_iter seen) <= 100)%nat.
Proof.
  unfold trim. destruct (100 <? length seen)%nat eqn:E.
  - assert (forall l acc,
              (length (fold_left (fun s x => set_add x s) l acc)
               <= length acc + length l)%nat) as Hfold.
    { induction l as [|x l IH]; intros acc; simpl; [lia|].
      specialize (IH (set_add x acc)).
      pose proof (set_add_length x acc). lia. }
    specialize (Hfold (last_n 50 (set_iter seen)) []).
    unfold set_of_list. simpl in Hfold.
    assert (length (last_n 50 (set_iter seen)) <= 50)%nat as Hlast.
    { unfold last_n. rewrite length_drop. lia. }
    lia.
  - apply Nat.ltb_ge in E. exact E.
Qed.

(** The invariant looks at the dictionaries and the store only. *)
Lemma consistent_same w w' :
  active_forwards w' = active_forwards w -> handlers w' = handlers w ->
  forwarded_groups w' = forwarded_groups w -> config w' = config w ->
  consistent w -> consistent w'.
Proof.
  intros Ha Hh Hg Hc [H1 H2 H3 H4 H5 H6].
  constructor; rewrite ?Ha, ?Hh, ?Hg, ?Hc; assumption.
Qed.

Lemma consistent_init c self : consistent (init c self).
Proof.
  constructor; simpl.
  - intros key r H. rewrite lookup_empty in H. discriminate.
  - reflexivity.
  - reflexivity.
  - intros key seen H. rewrite lookup_empty in H. discriminate.
  - intros key [r H]. rewrite lookup_empty in H. discriminate.
  - intros key [r H]. rewrite lookup_empty in H. discriminate.
Qed.

Lemma key_of_canonical w source target : canonical (key_of w source target).
Proof.
  unfold canonical, key_of. simpl. split; [eexists; reflexivity|].
  case_bool_decide; [left; reflexivity | right; eexists; reflexivity].
Qed.

Lemma consistent_start source target mts w :
  consistent w -> consistent (start_forward_monitoring str_iter source target mts w).2.
Proof.
  intros Hw.
  destruct (running w (key_of w source target)) eqn:Erun.
  { unfold start_forward_monitoring. rewrite Erun. exact Hw. }
  destruct (start_fresh str_iter source target mts w Erun) as (_ & Ha & Hh & Hg & _ & Hc).
  destruct Hw as [H1 H2 H3 H4 H5 H6].
  constructor; rewrite ?Ha, ?Hh, ?Hg, ?Hc.
  - intros key r. destruct (decide (key = key_of w source target)) as [->|Hne].
    + rewrite lookup_insert_eq. intros [= <-]. reflexivity.
    + rewrite lookup_insert_ne by congruence. apply H1.
  - rewrite !dom_insert_L, H2. reflexivity.
  - rewrite !dom_insert_L, H3. reflexivity.
  - intros key seen. destruct (decide (key = key_of w source target)) as [->|Hne].
    + rewrite lookup_insert_eq. intros [= <-]. simpl. lia.
    + rewrite lookup_insert_ne by congruence. apply H4.
  - intros key. destruct (decide (key = key_of w source target)) as [->|Hne].
    + intros _. apply key_of_canonical.
    + rewrite lookup_insert_ne by congruence. apply H5.
  - intros key. destruct (decide (key = key_of w source target)) as [->|Hne].
    + intros _. destruct (key_of w source target) as [a b]. apply add_has_pair.
    + rewrite lookup_insert_ne by congruence. intros Hin.
      apply add_keeps_pairs, H6, Hin.
Qed.

Lemma consistent_emit e w : consistent w -> consistent (emit e w).
Proof. apply consistent_same; reflexivity. Qed.

Lemma consistent_restore_forward tg w fwd :
  consistent w -> consistent (restore_forward str_iter tg w fwd).
Proof.
  intros Hw. unfold restore_forward, client_get_entity.
  destruct (py_int (Configuration.source_id fwd)) as [source|]; [|exact Hw].
  destruct (get_entity tg source) as [source_entity|];
    [|apply consistent_emit; exact Hw].
  destruct (_ || _).
  { apply consistent_start, consistent_emit, Hw. }
  destruct (py_int (Configuration.target_id fwd)) as [target|];
    [|apply consistent_emit; exact Hw].
  destruct (get_entity tg target) as [target_entity|].
  - apply consistent_start, consistent_emit, consistent_emit, Hw.
  - apply consistent_emit, consistent_emit, Hw.
Qed.

Lemma consistent_restore tg w :
  consistent w -> consistent (restore_active_forwards str_iter tg w).
Proof.
  unfold restore_active_forwards.
  generalize (Configuration.get_active_forwards (config w)) as rules.
  intros rules. revert w.
  induction rules as [|fwd rules IH]; intros w Hw; [exact Hw|].
  simpl. apply IH, consistent_restore_forward, Hw.
Qed.

Lemma consistent_set_source tg chat_id w :
  consistent w -> consistent (set_source tg chat_id w).2.
Proof.
  intros Hw. unfold set_source, client_get_entity.
  destruct (py_int chat_id) as [chat|]; [|exact Hw].
  destruct (get_entity tg chat); simpl;
    revert Hw; apply consistent_same; reflexivity.
Qed.

Lemma consistent_set_target tg chat_id w :
  consistent w -> consistent (set_target tg chat_id w).2.
Proof.
  intros Hw. unfold set_target, client_get_entity.
  destruct (_ || _); [revert Hw; apply consistent_same; reflexivity|].
  destruct (py_int chat_id) as [chat|]; [|exact Hw].
  destruct (get_entity tg chat); simpl;
    revert Hw; apply consistent_same; reflexivity.
Qed.

Lemma consistent_stop_found key w :
  consistent w -> consistent (stop_found key w).
Proof.
  intros [H1 H2 H3 H4 H5 H6].
  constructor; rewrite ?stop_found_active_forwards, ?stop_found_handlers,
    ?stop_found_forwarded_groups, ?stop_found_config.
  - intros key' r. destruct (decide (key' = key)) as [->|Hne].
    + rewrite lookup_delete_eq. discriminate.
    + rewrite lookup_delete_ne by congruence. apply H1.
  - rewrite !dom_delete_L, H2. reflexivity.
  - rewrite !dom_delete_L, H3. reflexivity.
  - intros key' seen. destruct (decide (key' = key)) as [->|Hne].
    + rewrite lookup_delete_eq. discriminate.
    + rewrite lookup_delete_ne by congruence. apply H4.
  - intros key'. destruct (decide (key' = key)) as [->|Hne].
    + rewrite lookup_delete_eq. intros [r H]. discriminate.
    + rewrite lookup_delete_ne by congruence. apply H5.
  - intros key'. destruct (decide (key' = key)) as [->|Hne].
    + rewrite lookup_delete_eq. intros [r H]. discriminate.
    + rewrite lookup_delete_ne by congruence. intros Hin.
      destruct key as [a b]. apply remove_keeps_other_pairs; [exact Hne|].
      apply H6, Hin.
Qed.

Lemma consistent_stop source_id target_id w :
  consistent w -> consistent (stop_forward_monitoring source_id target_id w).2.
Proof.
  intros Hw. unfold stop_forward_monitoring.
  case_bool_decide; [apply consistent_stop_found, Hw|].
  destruct (_ && _); [apply consistent_stop_found, Hw | exact Hw].
Qed.

Lemma consistent_handler tg cb message w :
  consistent w -> consistent (handler tg set_iter cb message w).2.
Proof.
  intros Hw.
  assert (forall w', relayed tg w w' -> consistent w') as Hrel.
  { intros w' H. apply relayed_attributes in H as (Hc & _ & _ & _ & Ha & Hh & _ & Hg).
    revert Hw. apply consistent_same; assumption. }
  unfold handler.
  destruct (negb (running w (cb_key cb))); [exact Hw|].
  destruct (truthy_id (grouped_id message)) as [gid|];
    [|apply Hrel, relayed_single].
  unfold process_media_group.
  destruct (forwarded_groups w !! cb_key cb) as [seen|] eqn:Eseen; [|exact Hw].
  destruct (set_contains seen gid); [exact Hw|].
  set (marked := set_forwarded_groups _ w).
  pose proof (relayed_group tg gid message (cb_target cb) marked) as Hrelay.
  apply relayed_attributes in Hrelay as (Hc & _ & _ & _ & Ha & Hh & _ & Hg).
  set (relayed' := relay_group tg gid message (cb_target cb) marked) in *.
  assert (forwarded_groups relayed' !! cb_key cb = Some (set_add gid seen)) as ->.
  { rewrite Hg. unfold marked. simpl. apply lookup_insert_eq. }
  simpl. destruct Hw as [H1 H2 H3 H4 H5 H6].
  constructor; simpl; rewrite ?Ha, ?Hh, ?Hg, ?Hc; unfold marked; simpl;
    try assumption.
  - rewrite !dom_insert_L, H3.
    assert (cb_key cb ∈ dom (active_forwards w)) as Hin.
    { rewrite <- H3. apply elem_of_dom. eexists. exact Eseen. }
    assert ({[cb_key cb]} ∪ dom (active_forwards w) = dom (active_forwards w)) as E
      by (apply subseteq_union_1_L, singleton_subseteq_l; exact Hin).
    rewrite !E. reflexivity.
  - intros key seen'. destruct (decide (key = cb_key cb)) as [->|Hne].
    + rewrite lookup_insert_eq. intros [= <-]. apply trim_bounded.
    + rewrite !lookup_insert_ne by congruence. apply H4.
Qed.

Lemma consistent_replay tg callback limit scan answers w :
  consistent w -> consistent (forward_all_media str_iter tg callback limit scan answers w).2.
Proof.
  intros Hw. unfold forward_all_media.
  destruct (source_chat w) as [source|]; [|exact Hw].
  destruct (target_chat w) as [target|]; [|exact Hw].
  pose proof (replay_history_replayed tg callback limit scan answers source target w)
    as Hrep.
  destruct (replay_history tg callback limit scan answers source target w)
    as [[raised n] w1].
  simpl in Hrep.
  apply replayed_attributes in Hrep as (Hc & Ha & Hh & Hg & _ & _).
  assert (consistent w1) as Hw1
    by (revert Hw; apply consistent_same; assumption).
  destruct raised; [exact Hw1|].
  pose proof (consistent_start source target (media_types w1) w1 Hw1) as Hs.
  destruct (start_forward_monitoring str_iter source target (media_types w1) w1). exact Hs.
Qed.

Lemma consistent_step w w' : step str_iter set_iter w w' -> consistent w -> consistent w'.
Proof.
  intros [tg w0|tg chat_id w0|tg chat_id w0|source target mts w0|tg cb message w0
         |source_id target_id w0|tg callback limit scan answers w0|d w0
         |mts table w0 Htable] Hw.
  - apply consistent_restore, Hw.
  - apply consistent_set_source, Hw.
  - apply consistent_set_target, Hw.
  - apply consistent_start, Hw.
  - apply consistent_handler, Hw.
  - apply consistent_stop, Hw.
  - apply consistent_replay, Hw.
  - destruct Hw as [H1 H2 H3 H4 H5 H6]. constructor; assumption.
  - assert (forall key, is_Some (table !! key) <-> is_Some (active_forwards w0 !! key))
      as Hsome.
    { intros key. specialize (Htable key).
      destruct (table !! key) as [r|], (active_forwards w0 !! key) as [r0|];
        simpl in Htable; try discriminate; [|tauto].
      split; intros _; [exists r0 | exists r]; reflexivity. }
    assert (dom table = dom (active_forwards w0)) as Hdom.
    { apply set_eq. intros key. rewrite !elem_of_dom. apply Hsome. }
    destruct Hw as [H1 H2 H3 H4 H5 H6]. constructor; simpl.
    + intros key r Hr. specialize (Htable key). rewrite Hr in Htable. simpl in Htable.
      destruct (active_forwards w0 !! key) as [r0|] eqn:E0; [|discriminate].
      injection Htable as ->. eapply H1. exact E0.
    + rewrite Hdom. exact H2.
    + rewrite Hdom. exact H3.
    + exact H4.
    + intros key Hkey. apply H5, Hsome, Hkey.
    + intros key Hkey. apply H6, Hsome, Hkey.
Qed.

Lemma reachable_consistent c self w :
  reachable str_iter set_iter c self w -> consistent w.
Proof.
  induction 1 as [|w w' _ IH Hstep]; [apply consistent_init|].
  eapply consistent_step; eassumption.
Qed.

End Reachability.

Section ReachableFacts.

Import MediaForwarder.

Variable str_iter : gset string -> list string.

Variable set_iter : PySet -> list Z.
Variable c : Configuration.t.
Variable self : Entity.

Implicit Types (w : t) (key : Key) (tg : Telegram).

(** X11.  In every reachable engine the three dictionaries describe the
    same rules: every rule of the table is running, and the keys with a
    handler, the keys with a window and the keys of the table are the same.
    Nothing of a stopped rule is left, and no rule lacks its handler or its
    window. *)
Theorem reachable_tables_agree w :
  reachable str_iter set_iter c self w ->
  (forall key r, active_forwards w !! key = Some r -> is_running r = true)
  /\ dom (handlers w) = dom (active_forwards w)
  /\ dom (forwarded_groups w) = dom (active_forwards w).
Proof.
  intros Hw. apply reachable_consistent in Hw as [H1 H2 H3 _ _ _]. tauto.
Qed.

(** X12.  In every reachable engine the handler of any rule, on any
    message, returns without raising: the window it looks up is there
    whenever the rule is running. *)
Theorem reachable_handler_never_raises w tg cb message :
  reachable str_iter set_iter c self w ->
  (handler tg set_iter cb message w).1 = None.
Proof.
  intros Hw. apply reachable_consistent in Hw as [_ _ H3 _ _ _].
  unfold handler, running.
  destruct (active_forwards w !! cb_key cb) as [r|] eqn:Er; [|reflexivity].
  destruct (negb (is_running r)); [reflexivity|].
  destruct (truthy_id (grouped_id message)) as [gid|]; [|reflexivity].
  unfold process_media_group.
  assert (is_Some (forwarded_groups w !! cb_key cb)) as [seen ->].
  { apply elem_of_dom. rewrite H3. apply elem_of_dom. eexists. exact Er. }
  destruct (set_contains seen gid); [reflexivity|].
  rewrite relay_group_forwarded_groups. simpl.
  rewrite lookup_insert_eq. reflexivity.
Qed.

(** X13.  In every reachable engine every dedup window holds at most 100
    group identifiers, whatever the order in which Python iterates over a
    set. *)
Theorem reachable_windows_bounded w key seen :
  reachable str_iter set_iter c self w ->
  forwarded_groups w !! key = Some seen ->
  (length seen <= 100)%nat.
Proof.
  intros Hw. apply reachable_consistent in Hw as [_ _ _ H4 _ _]. apply H4.
Qed.

(** X14.  In every reachable engine every rule of the table has a record
    in the store with its identity pair, so a restart will try to restore
    it. *)
Theorem reachable_rules_persisted w key :
  reachable str_iter set_iter c self w ->
  is_Some (active_forwards w !! key) ->
  exists fwd,
    fwd ∈ Configuration.get_active_forwards (config w) /\ pair_of fwd = key.
Proof.
  intros Hw Hkey. apply reachable_consistent in Hw as [_ _ _ _ _ H6].
  apply H6, list_elem_of_fmap in Hkey as (fwd & -> & Hfwd).
  exists fwd. split; [exact Hfwd | reflexivity].
Qed.

Lemma canonical_not_shorthand key : canonical key -> key.2 <> SAVED_MESSAGES_KEY.
Proof.
  intros [_ [->|[b ->]]]; [discriminate|].
  apply str_of_int_not_saved.
Qed.

(** X15.  In every reachable engine [stop_forward_monitoring] finds a rule
    exactly when the table has the key made of the source and the target
    with the shorthand expanded; the second lookup, under the shorthand
    itself, never finds anything, since no key of the table ends in it. *)
Theorem reachable_stop_exact w source_id target_id :
  reachable str_iter set_iter c self w ->
  let key := (py_str source_id, canonical_target target_id) in
  stop_forward_monitoring source_id target_id w
  = if bool_decide (is_Some (active_forwards w !! key))
    then (true, stop_found key w) else (false, w).
Proof.
  intros Hw key. apply reachable_consistent in Hw as [_ _ _ _ H5 _].
  unfold stop_forward_monitoring. fold key.
  case_bool_decide; [reflexivity|].
  rewrite (bool_decide_eq_false_2
             (is_Some (active_forwards w !! (py_str source_id, SAVED_MESSAGES_KEY)))).
  - rewrite andb_false_r. reflexivity.
  - intros Halt. apply H5, canonical_not_shorthand in Halt. apply Halt. reflexivity.
Qed.

End ReachableFacts.

Lemma sample_engine_reachable :
  reachable listing small_int_iter Configuration.init self_chat sample_engine.
Proof.
  eapply reachable_step; [apply reachable_init|].
  apply (step_start listing small_int_iter chat_100 self_chat {["photo"]}).
Qed.

Lemma reachable_tables_agree_witness :
  dom (MediaForwarder.handlers sample_engine)
  = dom (MediaForwarder.active_forwards sample_engine).
Proof.
  exact (proj1 (proj2 (reachable_tables_agree listing small_int_iter Configuration.init
                         self_chat sample_engine sample_engine_reachable))).
Defined.

Lemma reachable_handler_never_raises_witness :
  (MediaForwarder.handler refusing small_int_iter
     (MediaForwarder.mkCallback ("100", "saved_messages") chat_100 self_chat)
     (photo_message 11 (Some 7)) sample_engine).1 = None.
Proof.
  exact (reachable_handler_never_raises listing small_int_iter Configuration.init self_chat
           sample_engine refusing _ _ sample_engine_reachable).
Defined.

Lemma reachable_windows_bounded_witness : (length (@nil Z) <= 100)%nat.
Proof.
  apply (reachable_windows_bounded listing small_int_iter Configuration.init self_chat
           sample_engine ("100", "saved_messages") [] sample_engine_reachable).
  vm_compute. reflexivity.
Defined.

Lemma reachable_rules_persisted_witness :
  exists fwd,
    fwd ∈ Configuration.get_active_forwards (MediaForwarder.config sample_engine)
    /\ pair_of fwd = ("100", "saved_messages").
Proof.
  apply (reachable_rules_persisted listing small_int_iter Configuration.init self_chat
           sample_engine ("100", "saved_messages") sample_engine_reachable).
  apply (bool_decide_unpack _). vm_compute. exact I.
Defined.

Lemma reachable_stop_exact_witness :
  MediaForwarder.stop_forward_monitoring (IdStr "100") (IdStr "200") sample_engine
  = (false, sample_engine).
Proof.
  assert (bool_decide
            (is_Some (MediaForwarder.active_forwards sample_engine
                        !! (py_str (IdStr "100"),
                            MediaForwarder.canonical_target (IdStr "200"))))
          = false) as E by (vm_compute; reflexivity).
  pose proof (reachable_stop_exact listing small_int_iter Configuration.init self_chat
                sample_engine (IdStr "100") (IdStr "200") sample_engine_reachable)
    as H.
  cbv zeta in H. rewrite E in H. exact H.
Defined.

(** * The stop button *)

Section StopButton.

Import MediaForwarder.

Variable str_iter : gset string -> list string.

Implicit Types (w : t) (key : Key) (s : string).

Lemma split_on_free sep s : has_char sep s = false -> split_on sep s = [s].
Proof.
  induction s as [|ch s IH]; simpl; [reflexivity|].
  intros H. apply orb_false_iff in H as [Hc Hs].
  rewrite Hc, (IH Hs). reflexivity.
Qed.

Lemma split_on_app sep s rest :
  has_char sep s = false ->
  split_on sep (String.append s (String sep rest)) = s :: split_on sep rest.
Proof.
  induction s as [|ch s IH]; simpl.
  - intros _. rewrite Ascii.eqb_refl. reflexivity.
  - intros H. apply orb_false_iff in H as [Hc Hs].
    rewrite Hc, (IH Hs). reflexivity.
Qed.

Lemma uint_has_no_underscore d :
  has_char "_" (NilEmpty.string_of_uint d) = false.
Proof. induction d; simpl; assumption || reflexivity. Qed.

Lemma str_of_int_has_no_underscore z : has_char "_" (str_of_int z) = false.
Proof.
  unfold str_of_int, NilZero.string_of_int, NilZero.string_of_uint.
  destruct (Z.to_int z) as [d|d]; destruct d; simpl;
    reflexivity || apply uint_has_no_underscore.
Qed.

(** The callback data [forward_stop_<source>_<target>] read back by
    [stop_forward], when neither part holds an underscore. *)
Lemma parse_stop_data_build source_id target_id :
  has_char "_" source_id = false -> has_char "_" target_id = false ->
  parse_stop_data
    (String.append "forward_stop_"
       (String.append source_id (String.append "_" target_id)))
  = Some (source_id, target_id).
Proof.
  intros Hs Ht. unfold parse_stop_data.
  change (String.append "forward_stop_"
            (String.append source_id (String.append "_" target_id)))
    with (String.append "forward"
            (String "_" (String.append "stop"
               (String "_" (String.append source_id (String "_" target_id)))))).
  rewrite (split_on_app "_" "forward") by reflexivity.
  rewrite (split_on_app "_" "stop") by reflexivity.
  rewrite (split_on_app "_" source_id) by exact Hs.
  rewrite (split_on_free "_" target_id) by exact Ht.
  reflexivity.
Qed.

Lemma stop_button_of_canonical key :
  canonical key ->
  parse_stop_data (stop_button_data key) = Some (key.1, target_for_callback key.2)
  /\ canonical_target (IdStr (target_for_callback key.2)) = key.2.
Proof.
  intros [[a Ha] Hb]. unfold stop_button_data. split.
  - apply parse_stop_data_build.
    + rewrite Ha. apply str_of_int_has_no_underscore.
    + unfold target_for_callback. case_bool_decide; [reflexivity|].
      destruct Hb as [?|[b ->]]; [contradiction|].
      apply str_of_int_has_no_underscore.
  - unfold target_for_callback, canonical_target, py_eq_str.
    destruct Hb as [->|[b ->]].
    + reflexivity.
    + rewrite (bool_decide_eq_false_2 (str_of_int b = "saved_messages"))
        by apply str_of_int_not_saved.
      rewrite bool_decide_eq_false_2 by apply str_of_int_not_saved.
      reflexivity.
Qed.

Lemma stop_button_of_key w key :
  canonical key -> is_Some (active_forwards w !! key) ->
  stop_forward (stop_button_data key) w = Some (true, stop_found key w).
Proof.
  intros Hcan Hkey.
  destruct (stop_button_of_canonical key Hcan) as [Hparse Htarget].
  unfold stop_forward. rewrite Hparse.
  unfold stop_forward_monitoring. rewrite Htarget. simpl py_str.
  destruct key as [a b]. simpl fst. simpl snd.
  rewrite bool_decide_eq_true_2 by exact Hkey. reflexivity.
Qed.

(** X16.  The stop button of the list of active rules works for every rule
    of a reachable engine: the callback data [create_forwarding_keyboard]
    builds from the key of the rule is read back by [stop_forward] as that
    key, with the own chat in its shorthand, and
    [stop_forward_monitoring] finds the rule and stops it. *)
Theorem stop_button_stops_rule set_iter c self w key :
  reachable str_iter set_iter c self w ->
  is_Some (active_forwards w !! key) ->
  stop_forward (stop_button_data key) w = Some (true, stop_found key w).
Proof.
  intros Hw Hkey. apply stop_button_of_key; [|exact Hkey].
  exact (keys_canonical w (reachable_consistent str_iter set_iter c self w Hw) key Hkey).
Qed.

(** X17.  After a replay that succeeded, the stop button
    [start_forwarding_process] shows stops the rule the replay has just
    handed over: its callback data is the one the list of active rules has
    for the key of the source and the target of the replay, and
    [stop_forward] finds the rule under that key and stops it. *)
Theorem stop_button_after_replay_stops tg callback limit scan answers w n w' :
  forward_all_media str_iter tg callback limit scan answers w = ((true, n), w') ->
  exists source target,
    source_chat w = Some source /\ target_chat w = Some target
    /\ stop_button_after_replay w'
       = Some (stop_button_data (key_of w source target))
    /\ stop_forward (stop_button_data (key_of w source target)) w'
       = Some (true, stop_found (key_of w source target) w').
Proof.
  unfold forward_all_media.
  destruct (source_chat w) as [source|] eqn:Es; [|discriminate].
  destruct (target_chat w) as [target|] eqn:Et; [|discriminate].
  pose proof (replay_history_replayed tg callback limit scan answers source target w)
    as Hrep.
  destruct (replay_history tg callback limit scan answers source target w)
    as [[[e|] n1] w1]; [discriminate|].
  cbn [fst snd] in Hrep. destruct Hrep as (evs & Hw1 & _ & _).
  pose proof (start_runs str_iter source target (media_types w1) w1) as Hrun.
  pose proof (start_saved_messages str_iter source target (media_types w1) w1) as Hsaved.
  assert (source_chat (start_forward_monitoring str_iter source target (media_types w1) w1).2
          = Some source
          /\ target_chat (start_forward_monitoring str_iter source target (media_types w1) w1).2
             = Some target) as [Hs Ht].
  { unfold start_forward_monitoring.
    destruct (running w1 (key_of w1 source target)); simpl; subst w1;
      split; assumption. }
  assert (key_of w1 source target = key_of w source target) as Hkey
    by (subst w1; reflexivity).
  assert (saved_messages w1 = saved_messages w) as Hsm by (subst w1; reflexivity).
  rewrite Hkey in Hrun. rewrite Hsm in Hsaved. clear Hkey Hsm Hw1.
  destruct (start_forward_monitoring str_iter source target (media_types w1) w1)
    as [started w2].
  cbn [fst snd] in *. intros [= <- <-].
  exists source, target.
  split; [reflexivity|]. split; [reflexivity|]. split.
  - unfold stop_button_after_replay, stop_button_data. rewrite Hs, Ht, Hsaved.
    unfold key_of, target_for_callback. cbn [fst snd].
    case_bool_decide.
    + reflexivity.
    + rewrite bool_decide_eq_false_2 by apply str_of_int_not_saved. reflexivity.
  - apply stop_button_of_key; [apply key_of_canonical|].
    unfold running in Hrun.
    destruct (active_forwards w2 !! key_of w source target);
      [eexists; reflexivity | discriminate].
Qed.

End StopButton.

Lemma stop_button_stops_rule_witness :
  stop_forward "forward_stop_100_saved" sample_engine
  = Some (true, MediaForwarder.stop_found ("100", "saved_messages") sample_engine).
Proof.
  apply (stop_button_stops_rule listing small_int_iter Configuration.init self_chat
           sample_engine ("100", "saved_messages") sample_engine_reachable).
  apply (bool_decide_unpack _). vm_compute. exact I.
Defined.

Lemma stop_button_after_replay_stops_witness :
  exists source target,
    MediaForwarder.source_chat replay_engine = Some source
    /\ MediaForwarder.target_chat replay_engine = Some target
    /\ stop_button_after_replay scenario_started.2
       = Some (stop_button_data (MediaForwarder.key_of replay_engine source target))
    /\ stop_forward
         (stop_button_data (MediaForwarder.key_of replay_engine source target))
         scenario_started.2
       = Some (true,
               MediaForwarder.stop_found
                 (MediaForwarder.key_of replay_engine source target)
                 scenario_started.2).
Proof.
  assert (MediaForwarder.forward_all_media listing accepting true None (inr scenario)
            [inr scenario] replay_engine = ((true, 3), scenario_started.2)) as Hrun
    by (vm_compute; reflexivity).
  exact (stop_button_after_replay_stops listing accepting true None (inr scenario)
           [inr scenario] replay_engine 3 scenario_started.2 Hrun).
Defined.

(** * The list of dialogs *)

Section DialogFacts.

Import MediaForwarder.

Variable found : string -> string -> bool.
Variable query : option string.

Implicit Types (rest : list Dialog) (dialogs : list DialogEntry).

(** The loop of [get_dialogs] from any of its turns: [k] dialogs were let
    through so far, the last [k - o] of them were collected. *)
Lemma get_dialogs_from_spec (o lim k : nat) rest dialogs :
  length dialogs = (k - o)%nat -> (length dialogs < lim)%nat ->
  get_dialogs_from found (Z.of_nat o) (Z.of_nat lim) query rest dialogs (Z.of_nat k)
  = (dialogs
       ++ (dialog_entry
             <$> take (lim - length dialogs)
                      (drop (o - k) (matching found query rest))),
     Z.of_nat (Nat.min (o + lim) (k + length (matching found query rest)))).
Proof.
  revert dialogs k.
  induction rest as [|dialog rest IH]; intros dialogs k Hlen Hlt.
  - simpl. rewrite drop_nil, take_nil, app_nil_r. f_equal. f_equal. lia.
  - cbn [get_dialogs_from]. unfold matching. cbn [List.filter].
    fold (matching found query rest).
    destruct (skipped_by_query found query dialog); cbn [negb].
    { apply IH; assumption. }
    destruct (Z.leb_spec (Z.of_nat o) (Z.of_nat k)) as [Hok|Hok].
    + assert ((o - k)%nat = 0%nat) as -> by lia.
      assert ((lim - length dialogs)%nat = S (lim - S (length dialogs))) as -> by lia.
      rewrite drop_0. cbn [take fmap list_fmap].
      rewrite length_app. cbn [length].
      destruct (Z.leb_spec (Z.of_nat lim) (Z.of_nat (length dialogs + 1)))
        as [Hfull|Hmore].
      * assert ((lim - S (length dialogs))%nat = 0%nat) as -> by lia.
        rewrite take_0. f_equal. cbn [length]. lia.
      * replace (Z.of_nat k + 1) with (Z.of_nat (S k)) by lia.
        rewrite IH; [|rewrite length_app; simpl; lia|rewrite length_app; simpl; lia].
        rewrite length_app. cbn [length].
        assert ((o - S k)%nat = 0%nat) as -> by lia.
        rewrite drop_0, <- app_assoc.
        replace (lim - (length dialogs + 1))%nat with (lim - S (length dialogs))%nat
          by lia.
        f_equal. f_equal. cbn [length]. lia.
    + assert ((o - k)%nat = S (o - S k)) as -> by lia.
      cbn [drop].
      destruct (Z.leb_spec (Z.of_nat lim) (Z.of_nat (length dialogs)))
        as [Hfull|Hmore]; [lia|].
      replace (Z.of_nat k + 1) with (Z.of_nat (S k)) by lia.
      rewrite IH; [|lia|lia].
      f_equal. f_equal. cbn [length]. lia.
Qed.

(** X18.  A page of the list of dialogs: for an offset that is not negative
    and a limit of at least one, [get_dialogs] returns, of the dialogs the
    query lets through, those from position [offset] on, at most [limit] of
    them, in the order of Telegram.  The number it returns with them is not
    the number of dialogs: it is the number counted when the loop stopped,
    [offset + limit] whenever that many dialogs exist. *)
Theorem get_dialogs_page all_dialogs (offset limit : Z) :
  0 <= offset -> 0 < limit ->
  get_dialogs found all_dialogs offset limit query
  = (dialog_entry
       <$> take (Z.to_nat limit)
                (drop (Z.to_nat offset) (matching found query all_dialogs)),
     Z.min (offset + limit)
           (Z.of_nat (length (matching found query all_dialogs)))).
Proof.
  intros Ho Hl. unfold get_dialogs.
  pose proof (get_dialogs_from_spec (Z.to_nat offset) (Z.to_nat limit) 0
                all_dialogs []) as H.
  rewrite !Z2Nat.id in H by lia. simpl in H.
  change (Z.of_nat 0) with 0 in H.
  rewrite H; [|lia|lia].
  rewrite !Nat.sub_0_r. f_equal. lia.
Qed.

(** X19.  The list of dialogs never offers a next page: [show_dialog_list]
    asks for 5 dialogs and shows the button when [offset + 5] is below the
    number [get_dialogs] returned, and that number is at most [offset + 5],
    however many dialogs there are. *)
Theorem next_page_never_offered all_dialogs (offset : Z) :
  0 <= offset ->
  shows_next offset (get_dialogs found all_dialogs offset 5 query).2 = false.
Proof.
  intros Ho. unfold get_dialogs, shows_next.
  pose proof (get_dialogs_from_spec (Z.to_nat offset) 5 0 all_dialogs []) as H.
  rewrite Z2Nat.id in H by lia. change (Z.of_nat 0) with 0 in H.
  change (Z.of_nat 5) with 5 in H.
  rewrite H by (simpl; lia). cbn [snd].
  apply Z.ltb_ge. lia.
Qed.

End DialogFacts.

Lemma get_dialogs_page_witness :
  MediaForwarder.get_dialogs whole_name sample_dialogs 1 2 None
  = ([MediaForwarder.mkDialogEntry 200 "family" MediaForwarder.TypeGroup;
      MediaForwarder.mkDialogEntry 1 "me" MediaForwarder.TypeUser], 3).
Proof.
  rewrite (get_dialogs_page whole_name None sample_dialogs 1 2) by lia.
  reflexivity.
Defined.

Lemma next_page_never_offered_witness :
  length sample_dialogs = 7%nat
  /\ shows_next 0 (MediaForwarder.get_dialogs whole_name sample_dialogs 0 5 None).2
     = false.
Proof.
  split; [reflexivity|].
  apply (next_page_never_offered whole_name None sample_dialogs 0). lia.
Defined.

(** * Rules side by side *)

Section RuleFrames.

Import MediaForwarder.

Variable str_iter : gset string -> list string.

Implicit Types (w : t) (key : Key) (tg : Telegram).

Lemma str_of_int_inj a b : str_of_int a = str_of_int b -> a = b.
Proof.
  intros H. assert (py_int (IdStr (str_of_int a)) = py_int (IdStr (str_of_int b))) as E
    by (rewrite H; reflexivity).
  rewrite !py_int_str in E. congruence.
Qed.

(** X20.  The key of a rule identifies the pair of chats: two pairs get the
    same key exactly when their sources have the same id and their targets
    have the same id. *)
Theorem key_of_identifies_pair w source1 target1 source2 target2 :
  key_of w source1 target1 = key_of w source2 target2
  <-> ent_id source1 = ent_id source2 /\ ent_id target1 = ent_id target2.
Proof.
  unfold key_of. split.
  - intros [= Hs Ht]. split; [apply str_of_int_inj, Hs|].
    repeat case_bool_decide; try congruence.
    + symmetry in Ht. apply str_of_int_not_saved in Ht. contradiction.
    + apply str_of_int_not_saved in Ht. contradiction.
    + apply str_of_int_inj, Ht.
  - intros [-> ->]. reflexivity.
Qed.

Lemma remove_list c source target :
  Configuration.get_active_forwards
    (Configuration.remove_active_forward c source target).2
  = Configuration.without source target (Configuration.get_active_forwards c).
Proof.
  unfold Configuration.remove_active_forward, Configuration.get_active_forwards.
  destruct (_ <? _)%nat; reflexivity.
Qed.

Lemma other_key_other_pair key key' :
  key' <> key ->
  (py_str (IdStr key'.1), py_str (IdStr key'.2))
  <> (py_str (IdStr key.1), py_str (IdStr key.2)).
Proof. destruct key, key'. simpl. congruence. Qed.

(** X21.  Starting a rule leaves the other rules as they are: for every
    other key the entry of the table, the handler, the window and the
    records of the store are what they were. *)
Theorem start_leaves_other_rules source target mts w key :
  key <> key_of w source target ->
  let w' := (start_forward_monitoring str_iter source target mts w).2 in
  active_forwards w' !! key = active_forwards w !! key
  /\ handlers w' !! key = handlers w !! key
  /\ forwarded_groups w' !! key = forwarded_groups w !! key
  /\ List.filter (Configuration.same_pair (IdStr key.1) (IdStr key.2))
       (Configuration.get_active_forwards (config w'))
     = List.filter (Configuration.same_pair (IdStr key.1) (IdStr key.2))
         (Configuration.get_active_forwards (config w)).
Proof.
  intros Hne w'. unfold w'.
  destruct (running w (key_of w source target)) eqn:Erun.
  { unfold start_forward_monitoring. rewrite Erun. tauto. }
  destruct (start_fresh str_iter source target mts w Erun) as (_ & -> & -> & -> & _ & ->).
  set (started := key_of w source target) in *. clearbody started.
  rewrite !lookup_insert_ne by congruence.
  split; [reflexivity|]. split; [reflexivity|]. split; [reflexivity|].
  unfold Configuration.add_active_forward, Configuration.get_active_forwards.
  simpl. rewrite List.filter_app.
  rewrite filter_other_pair_without by (apply other_key_other_pair; exact Hne).
  simpl.
  rewrite same_pair_pair_of, bool_decide_eq_false_2; [apply app_nil_r|].
  unfold pair_of. simpl. intros E. apply Hne.
  destruct started, key. simpl in E. congruence.
Qed.

(** X22.  Stopping a rule leaves the other rules as they are: for every
    other key the entry of the table, the handler, the window and the
    records of the store are what they were. *)
Theorem stop_leaves_other_rules key key' w :
  key' <> key ->
  let w' := stop_found key w in
  active_forwards w' !! key' = active_forwards w !! key'
  /\ handlers w' !! key' = handlers w !! key'
  /\ forwarded_groups w' !! key' = forwarded_groups w !! key'
  /\ List.filter (Configuration.same_pair (IdStr key'.1) (IdStr key'.2))
       (Configuration.get_active_forwards (config w'))
     = List.filter (Configuration.same_pair (IdStr key'.1) (IdStr key'.2))
         (Configuration.get_active_forwards (config w)).
Proof.
  intros Hne w'. unfold w'.
  rewrite stop_found_active_forwards, stop_found_handlers,
    stop_found_forwarded_groups, stop_found_config.
  rewrite !lookup_delete_ne by congruence.
  split; [reflexivity|]. split; [reflexivity|]. split; [reflexivity|].
  rewrite remove_list.
  apply filter_other_pair_without, other_key_other_pair, Hne.
Qed.

(** X23.  The media types of the rule started last are the filter of every
    running rule: once another rule was started with the media types
    [mts], the handler of a rule that was already running drops every single
    message [mts] rejects, and dispatches every single message [mts]
    accepts, whatever the media types of its own rule are. *)
Theorem start_replaces_live_filter tg set_iter source target mts cb message w :
  running w (cb_key cb) = true ->
  running w (key_of w source target) = false ->
  truthy_id (grouped_id message) = None ->
  let w' := (start_forward_monitoring str_iter source target mts w).2 in
  if should_forward_message mts message
  then exists rest,
         io (handler tg set_iter cb message w').2
         = io w' ++ EvForward (cb_target cb) [message] :: rest
  else handler tg set_iter cb message w' = (None, w').
Proof.
  intros Hold Hnew Hsingle w'.
  assert (cb_key cb <> key_of w source target) as Hne by congruence.
  destruct (start_fresh str_iter source target mts w Hnew) as (_ & Ha & _ & _ & _ & _).
  assert (media_types w' = mts) as Hmts.
  { unfold w', start_forward_monitoring. rewrite Hnew. reflexivity. }
  assert (running w' (cb_key cb) = true) as Hrun.
  { unfold running. fold w' in Ha. rewrite Ha, lookup_insert_ne by congruence.
    exact Hold. }
  unfold handler. rewrite Hrun, Hsingle. simpl negb. cbv iota.
  unfold process_single_message. rewrite Hmts.
  destruct (should_forward_message mts message); [|reflexivity].
  unfold client_forward_messages.
  destruct (forward_result tg (io w') (cb_target cb) [message]) as [[seconds| |]|];
    simpl; rewrite <- ?app_assoc; eexists; reflexivity.
Qed.

(** X24.  The delay chosen in the settings is written to the store with
    the rules unchanged, and from then on it is the pause after every
    dispatch Telegram accepts, on all four paths: a single message and a
    group in the live monitor, a single message and a group in the replay. *)
Theorem set_delay_takes_effect tg d target w :
  let w' := set_delay d w in
  (Configuration.written (config w')
   = Configuration.data (config w') :: Configuration.written (config w)
   /\ Configuration.delay (Configuration.data (config w')) = d
   /\ Configuration.get_active_forwards (config w')
      = Configuration.get_active_forwards (config w))
  /\ (forall message key,
        should_forward_message (media_types w) message = true ->
        forward_result tg (io w) target [message] = None ->
        io (process_single_message tg message target key w')
        = io w ++ [EvForward target [message]; EvSleep d])
  /\ (forall gid message recent,
        let asked := EvGetMessages (chat_id message) 50 in
        let group :=
          List.filter (fun msg => bool_decide (grouped_id msg = Some gid)) recent in
        recent_messages tg (io w) (chat_id message) = inr recent ->
        existsb (should_forward_message (media_types w)) group = true ->
        forward_result tg (io w ++ [asked]) target group = None ->
        io (relay_group tg gid message target w')
        = io w ++ [asked; EvForward target group; EvSleep d])
  /\ (forall callback total count message,
        should_forward_message (media_types w) message = true ->
        forward_result tg (io w) target [message] = None ->
        io (replay_single tg callback total target (count, w') message).2
        = io (progress callback (count + 1) total (ForwardedSoFar (count + 1))
                (emit (EvForward target [message]) w))
          ++ [EvSleep d])
  /\ (forall callback total count forwarded gid messages,
        set_contains forwarded gid = false ->
        existsb (should_forward_message (media_types w)) messages = true ->
        forward_result tg (io w) target messages = None ->
        let count' := count + Z.of_nat (length messages) in
        io (replay_group tg callback total target (count, forwarded, w')
              (gid, messages)).2
        = io (progress callback count' total (ForwardedSoFar count')
                (emit (EvForward target messages) w))
          ++ [EvSleep d]).
Proof.
  intros w'. split; [split; [reflexivity|]; split; reflexivity|].
  split; [|split; [|split]].
  - intros message key Hm Hsent.
    unfold process_single_message, client_forward_messages.
    simpl. rewrite Hm, Hsent. simpl. rewrite <- app_assoc. reflexivity.
  - intros gid message recent asked group Hrecent Hm Hsent.
    unfold relay_group, client_get_messages, client_forward_messages.
    simpl. rewrite Hrecent. fold group. simpl. rewrite Hm.
    rewrite (existsb_nonempty _ _ Hm). simpl. fold asked. rewrite Hsent.
    simpl. rewrite <- !app_assoc. reflexivity.
  - intros callback total count message Hm Hsent.
    unfold replay_single, client_forward_messages.
    simpl. rewrite Hm, Hsent. destruct callback; reflexivity.
  - intros callback total count forwarded gid messages Hnew Hm Hsent count'.
    unfold replay_group, client_forward_messages.
    simpl. rewrite Hnew, Hm, Hsent. destruct callback; reflexivity.
Qed.

End RuleFrames.

Lemma start_leaves_other_rules_witness :
  MediaForwarder.active_forwards persisting_engine !! ("100", "saved_messages")
  = MediaForwarder.active_forwards sample_engine !! ("100", "saved_messages").
Proof.
  assert (("100", "saved_messages")
          <> MediaForwarder.key_of sample_engine chat_100 chat_200) as Hne
    by (vm_compute; discriminate).
  exact (proj1 (start_leaves_other_rules listing chat_100 chat_200 {["video"; "document"]}
                  sample_engine ("100", "saved_messages") Hne)).
Defined.

Lemma stop_leaves_other_rules_witness :
  MediaForwarder.active_forwards
    (MediaForwarder.stop_found ("100", "200") persisting_engine)
    !! ("100", "saved_messages")
  = MediaForwarder.active_forwards persisting_engine !! ("100", "saved_messages").
Proof.
  assert (("100", "saved_messages") <> ("100", "200") :> MediaForwarder.Key) as Hne
    by discriminate.
  exact (proj1 (stop_leaves_other_rules ("100", "200") ("100", "saved_messages")
                  persisting_engine Hne)).
Defined.

Lemma start_replaces_live_filter_witness :
  MediaForwarder.handler accepting small_int_iter
    (MediaForwarder.mkCallback ("100", "saved_messages") chat_100 self_chat)
    (photo_message 5 None) persisting_engine
  = (None, persisting_engine).
Proof.
  assert (MediaForwarder.running sample_engine ("100", "saved_messages") = true)
    as Hold by (vm_compute; reflexivity).
  assert (MediaForwarder.running sample_engine
            (MediaForwarder.key_of sample_engine chat_100 chat_200) = false)
    as Hnew by (vm_compute; reflexivity).
  pose proof (start_replaces_live_filter listing accepting small_int_iter chat_100 chat_200
                {["video"; "document"]}
                (MediaForwarder.mkCallback ("100", "saved_messages") chat_100 self_chat)
                (photo_message 5 None) sample_engine Hold Hnew eq_refl) as H.
  cbv zeta in H.
  assert (should_forward_message {["video"; "document"]} (photo_message 5 None)
          = false) as E by (vm_compute; reflexivity).
  rewrite E in H. exact H.
Defined.

Lemma set_delay_takes_effect_witness :
  MediaForwarder.io
    (MediaForwarder.process_single_message accepting (photo_message 5 None)
       self_chat ("100", "saved_messages") (set_delay 10 sample_engine))
  = MediaForwarder.io sample_engine
    ++ [MediaForwarder.EvForward self_chat [photo_message 5 None];
        MediaForwarder.EvSleep 10].
Proof.
  assert (should_forward_message (MediaForwarder.media_types sample_engine)
            (photo_message 5 None) = true) as Hm by (vm_compute; reflexivity).
  exact (proj1 (proj2 (set_delay_takes_effect accepting 10 self_chat sample_engine))
           (photo_message 5 None) ("100", "saved_messages") Hm eq_refl).
Defined.

(** * What a replay dispatches *)

Section ReplayTrace.

Import MediaForwarder.

Variable str_iter : gset string -> list string.

Variable tg : Telegram.

Implicit Types (w : t) (evs : list Event) (pool batch : list Message).

Lemma delivered_groups_app before evs1 evs2 :
  delivered_groups tg before (evs1 ++ evs2)
  = delivered_groups tg before evs1 ++ delivered_groups tg (before ++ evs1) evs2.
Proof.
  revert before. induction evs1 as [|e evs1 IH]; intros before; simpl.
  - rewrite app_nil_r. reflexivity.
  - rewrite IH, <- !app_assoc. reflexivity.
Qed.

Lemma regrouped_refl target pool w forwarded :
  regrouped tg target pool w forwarded w forwarded.
Proof.
  exists []. split; [|split].
  - destruct w. unfold with_io. simpl. rewrite app_nil_r. reflexivity.
  - simpl. rewrite app_nil_r. reflexivity.
  - intros t messages H. apply elem_of_nil in H. contradiction.
Qed.

Lemma regrouped_trans target pool w1 f1 w2 f2 w3 f3 :
  regrouped tg target pool w1 f1 w2 f2 ->
  regrouped tg target pool w2 f2 w3 f3 ->
  regrouped tg target pool w1 f1 w3 f3.
Proof.
  intros (evs1 & -> & -> & H1) (evs2 & -> & -> & H2).
  exists (evs1 ++ evs2). split; [|split].
  - destruct w1. unfold with_io. simpl. rewrite app_assoc. reflexivity.
  - rewrite delivered_groups_app, <- app_assoc. destruct w1. reflexivity.
  - intros t messages H. apply elem_of_app in H as [H|H].
    + apply H1, H.
    + destruct w1. apply H2, H.
Qed.

Lemma regrouped_pool target pool pool' w f w' f' :
  pool ⊆ pool' ->
  regrouped tg target pool w f w' f' -> regrouped tg target pool' w f w' f'.
Proof.
  intros Hsub (evs & Hw & Hf & H). exists evs. split; [exact Hw|]. split; [exact Hf|].
  intros t messages Hin. destruct (H t messages Hin) as (Ht & Hm & Hp).
  split; [exact Ht|]. split; [exact Hm|]. intros m Hm'. apply Hsub, Hp, Hm'.
Qed.

(** Events that are no dispatch. *)
Lemma regrouped_emit target pool e w forwarded :
  (forall t messages, e <> EvForward t messages) ->
  regrouped tg target pool w forwarded (emit e w) forwarded.
Proof.
  intros Hnf. exists [e]. split; [|split].
  - destruct w. reflexivity.
  - simpl. destruct e; try (rewrite app_nil_r; reflexivity).
    exfalso. eapply Hnf. reflexivity.
  - intros t messages H. apply list_elem_of_singleton in H.
    exfalso. eapply Hnf. symmetry. exact H.
Qed.

Lemma regrouped_sleep target pool seconds w forwarded :
  regrouped tg target pool w forwarded (sleep seconds w) forwarded.
Proof. apply regrouped_emit. discriminate. Qed.

Lemma regrouped_progress target pool callback count total status w forwarded :
  regrouped tg target pool w forwarded (progress callback count total status w)
    forwarded.
Proof.
  unfold progress. destruct callback; [|apply regrouped_refl].
  apply regrouped_emit. discriminate.
Qed.

(** A dispatch of messages of the pool with a part the filter accepts. *)
Lemma regrouped_forward target pool messages w forwarded :
  existsb (should_forward_message (media_types w)) messages = true ->
  messages ⊆ pool ->
  regrouped tg target pool w forwarded
    (client_forward_messages tg target messages w).2
    (forwarded
       ++ match forward_result tg (io w) target messages with
          | None => option_list (dispatch_group messages)
          | Some _ => []
          end).
Proof.
  intros Hm Hp. exists [EvForward target messages]. split; [|split].
  - destruct w. reflexivity.
  - simpl. rewrite app_nil_r. reflexivity.
  - intros t ms H. apply list_elem_of_singleton in H. injection H as -> ->.
    split; [reflexivity|]. split; assumption.
Qed.

Lemma replay_single_regrouped callback total target pool count w forwarded m :
  group_of m = None -> m ∈ pool ->
  regrouped tg target pool w forwarded
    (replay_single tg callback total target (count, w) m).2 forwarded.
Proof.
  intros Hg Hin. unfold replay_single.
  destruct (should_forward_message (media_types w) m) eqn:Em;
    [|apply regrouped_refl].
  assert (existsb (should_forward_message (media_types w)) [m] = true) as Hex
    by (simpl; rewrite Em; reflexivity).
  assert ([m] ⊆ pool) as Hsub.
  { intros x Hx. apply list_elem_of_singleton in Hx. subst x. exact Hin. }
  pose proof (regrouped_forward target pool [m] w forwarded Hex Hsub) as Hsent.
  unfold client_forward_messages in *. cbn [snd] in Hsent.
  assert (forwarded
            ++ match forward_result tg (io w) target [m] with
               | None => option_list (dispatch_group [m])
               | Some _ => []
               end = forwarded) as E.
  { unfold dispatch_group. simpl. rewrite Hg.
    destruct (forward_result tg (io w) target [m]); apply app_nil_r. }
  rewrite E in Hsent.
  destruct (forward_result tg (io w) target [m]) as [[seconds| |]|]; cbn [snd].
  - eapply regrouped_trans; [exact Hsent|].
    eapply regrouped_trans; [apply regrouped_progress | apply regrouped_sleep].
  - exact Hsent.
  - exact Hsent.
  - eapply regrouped_trans; [exact Hsent|].
    eapply regrouped_trans; [apply regrouped_progress | apply regrouped_sleep].
Qed.

Lemma replay_singles_regrouped callback total target pool singles count w forwarded :
  Forall (fun m => group_of m = None /\ m ∈ pool) singles ->
  regrouped tg target pool w forwarded
    (fold_left (replay_single tg callback total target) singles (count, w)).2
    forwarded.
Proof.
  intros Hs. revert count w.
  induction Hs as [|m singles [Hg Hin] _ IH]; intros count w; [apply regrouped_refl|].
  cbn [fold_left].
  pose proof (replay_single_regrouped callback total target pool count w forwarded m
                Hg Hin) as H1.
  destruct (replay_single tg callback total target (count, w) m) as [count1 w1].
  eapply regrouped_trans; [exact H1 | apply IH].
Qed.

Lemma replay_group_regrouped callback total target pool count forwarded w group :
  dispatch_group group.2 = Some group.1 -> group.2 ⊆ pool ->
  let st := replay_group tg callback total target (count, forwarded, w) group in
  regrouped tg target pool w forwarded st.2 st.1.2
  /\ (NoDup forwarded -> NoDup st.1.2).
Proof.
  destruct group as [gid messages]. cbn [fst snd]. intros Hg Hsub.
  unfold replay_group.
  destruct (set_contains forwarded gid) eqn:Eseen;
    [split; [apply regrouped_refl | tauto]|].
  destruct (existsb (should_forward_message (media_types w)) messages) eqn:Hex;
    [|split; [apply regrouped_refl | tauto]].
  pose proof (regrouped_forward target pool messages w forwarded Hex Hsub) as Hsent.
  unfold client_forward_messages in *. cbn [snd] in Hsent. rewrite Hg in Hsent.
  assert (set_add gid forwarded = forwarded ++ [gid]) as Hadd
    by (unfold set_add; rewrite Eseen; reflexivity).
  destruct (forward_result tg (io w) target messages) as [[seconds| |]|];
    cbn [fst snd]; rewrite ?app_nil_r in Hsent.
  - split; [|tauto]. eapply regrouped_trans; [exact Hsent|].
    eapply regrouped_trans; [apply regrouped_progress | apply regrouped_sleep].
  - split; [exact Hsent | tauto].
  - split; [exact Hsent | tauto].
  - split; [|intros Hnd; apply set_add_nodup, Hnd].
    rewrite Hadd. eapply regrouped_trans; [exact Hsent|].
    eapply regrouped_trans; [apply regrouped_progress | apply regrouped_sleep].
Qed.

Lemma replay_groups_regrouped callback total target pool groups count forwarded w :
  Forall (fun g : Z * list Message => dispatch_group g.2 = Some g.1 /\ g.2 ⊆ pool)
         groups ->
  let st :=
    fold_left (replay_group tg callback total target) groups (count, forwarded, w) in
  regrouped tg target pool w forwarded st.2 st.1.2
  /\ (NoDup forwarded -> NoDup st.1.2).
Proof.
  intros Hs. revert count forwarded w.
  induction Hs as [|group groups [Hg Hsub] _ IH]; intros count forwarded w;
    [split; [apply regrouped_refl | tauto]|].
  cbn [fold_left].
  pose proof (replay_group_regrouped callback total target pool count forwarded w
                group Hg Hsub) as [H1 Hnd1].
  destruct (replay_group tg callback total target (count, forwarded, w) group)
    as [[count1 forwarded1] w1].
  cbn [fst snd] in *. destruct (IH count1 forwarded1 w1) as [H2 Hnd2].
  split; [eapply regrouped_trans; eassumption | tauto].
Qed.

Lemma split_batch_singles batch :
  Forall (fun m => group_of m = None /\ m ∈ batch) (split_batch batch).2.
Proof.
  induction batch as [|m batch IH] using rev_ind; [constructor|].
  assert (Forall (fun m0 => group_of m0 = None /\ m0 ∈ batch ++ [m])
                 (split_batch batch).2) as IH'.
  { eapply Forall_impl; [exact IH|]. intros m0 [Hg Hin].
    split; [exact Hg | apply elem_of_app; left; exact Hin]. }
  rewrite split_batch_snoc.
  destruct (truthy_id (grouped_id m)) as [gid|] eqn:E; cbn [snd]; [exact IH'|].
  apply Forall_app. split; [exact IH'|].
  constructor; [|constructor].
  split; [exact E | apply elem_of_app; right; left].
Qed.

Lemma add_to_group_forall (P : Z * list Message -> Prop) gid m d :
  Forall P d ->
  (forall ms, P (gid, ms) -> P (gid, ms ++ [m])) ->
  P (gid, [m]) ->
  Forall P (add_to_group gid m d).
Proof.
  intros Hd Hadd Hnew. induction Hd as [|[g ms] d Hg Hd IH]; cbn [add_to_group].
  - constructor; [exact Hnew | constructor].
  - case_bool_decide as E.
    + subst g. constructor; [apply Hadd, Hg | exact Hd].
    + constructor; [exact Hg | exact IH].
Qed.

Lemma split_batch_groups batch :
  Forall (fun g : Z * list Message => dispatch_group g.2 = Some g.1 /\ g.2 ⊆ batch)
         (split_batch batch).1.
Proof.
  induction batch as [|m batch IH] using rev_ind; [constructor|].
  assert (Forall (fun g : Z * list Message =>
                    dispatch_group g.2 = Some g.1 /\ g.2 ⊆ batch ++ [m])
                 (split_batch batch).1) as IH'.
  { eapply Forall_impl; [exact IH|]. intros g [Hg Hsub].
    split; [exact Hg|]. intros x Hx. apply elem_of_app. left. apply Hsub, Hx. }
  rewrite split_batch_snoc.
  destruct (truthy_id (grouped_id m)) as [gid|] eqn:E; cbn [fst]; [|exact IH'].
  apply add_to_group_forall; [exact IH'| |].
  - cbn [fst snd]. intros ms [Hg Hsub]. split.
    + destruct ms as [|m0 ms]; [discriminate | exact Hg].
    + intros x Hx. apply elem_of_app in Hx as [Hx|Hx]; [apply Hsub, Hx|].
      apply elem_of_app. right. exact Hx.
  - cbn [fst snd]. split; [exact E|].
    intros x Hx. apply elem_of_app. right. exact Hx.
Qed.

Lemma replay_batch_regrouped callback total target batch processed r w :
  let st := replay_batch tg callback total target batch processed r w in
  regrouped tg target batch w (seen_groups r) st.2 (seen_groups st.1)
  /\ (NoDup (seen_groups r) -> NoDup (seen_groups st.1)).
Proof.
  unfold replay_batch.
  pose proof (split_batch_singles batch) as Hsingles.
  pose proof (split_batch_groups batch) as Hgroups.
  destruct (split_batch batch) as [groups singles]. cbn [fst snd] in *.
  pose proof (replay_singles_regrouped callback total target batch singles (count r) w
                (seen_groups r) Hsingles) as H1.
  destruct (fold_left (replay_single tg callback total target) singles (count r, w))
    as [count1 w1].
  pose proof (replay_groups_regrouped callback total target batch groups count1
                (seen_groups r) w1 Hgroups) as [H2 Hnd].
  destruct (fold_left (replay_group tg callback total target) groups _)
    as [[count2 forwarded2] w2].
  cbn [fst snd seen_groups] in *.
  split; [eapply regrouped_trans; eassumption | exact Hnd].
Qed.

Lemma fill_batch_subseteq limit processed answer :
  (fill_batch limit processed answer).1 ⊆ answer.
Proof.
  revert processed. induction answer as [|m answer IH]; intros processed;
    cbn [fill_batch]; [reflexivity|].
  destruct (limit_reached limit (processed + 1)).
  - intros x Hx. apply list_elem_of_singleton in Hx. subst x. left.
  - specialize (IH (processed + 1)).
    destruct (fill_batch limit (processed + 1) answer) as [batch p]. cbn [fst] in *.
    intros x Hx. apply elem_of_cons in Hx as [->|Hx]; [left | right; apply IH, Hx].
Qed.

Lemma replay_loop_regrouped callback limit total source target answers r w :
  let st := replay_loop tg callback limit total source target answers r w in
  regrouped tg target (messages_of answers) w (seen_groups r) st.2 (seen_groups st.1.2)
  /\ (NoDup (seen_groups r) -> NoDup (seen_groups st.1.2)).
Proof.
  revert r w. induction answers as [|[e|answer] answers IH]; intros r w;
    cbn [replay_loop].
  - split; [apply regrouped_emit; discriminate | tauto].
  - split; [apply regrouped_emit; discriminate | tauto].
  - set (asked := emit (EvIterMessages source 100 (offset_id r)) w).
    assert (regrouped tg target (messages_of (inr answer :: answers)) w (seen_groups r)
              asked (seen_groups r)) as Hasked
      by (apply regrouped_emit; discriminate).
    pose proof (fill_batch_subseteq limit (processed r) (take 100 answer)) as Hfill.
    destruct (fill_batch limit (processed r) (take 100 answer)) as [batch p].
    cbn [fst] in Hfill.
    case_bool_decide; [split; [exact Hasked | tauto]|].
    pose proof (replay_batch_regrouped callback total target batch p r asked)
      as [Hb Hnd].
    destruct (replay_batch tg callback total target batch p r asked) as [r1 w1].
    cbn [fst snd] in *.
    assert (batch ⊆ messages_of (inr answer :: answers)) as Hpool.
    { intros m Hm. unfold messages_of. simpl. apply elem_of_app. left.
      eapply subseteq_take, Hfill, Hm. }
    apply (regrouped_pool _ _ _ _ _ _ _ Hpool) in Hb.
    destruct (limit_reached limit p).
    + split; [eapply regrouped_trans; eassumption | exact Hnd].
    + destruct (IH r1 w1) as [Hl Hnd'].
      split; [|tauto].
      eapply regrouped_trans; [exact Hasked|].
      eapply regrouped_trans; [exact Hb|].
      eapply regrouped_pool; [|exact Hl].
      intros m Hm. unfold messages_of. simpl. apply elem_of_app. right. exact Hm.
Qed.

Lemma replay_history_regrouped callback limit scan answers source target w :
  exists groups,
    regrouped tg target (messages_of answers) w []
      (replay_history tg callback limit scan answers source target w).2 groups
    /\ NoDup groups.
Proof.
  unfold replay_history, count_messages.
  destruct callback.
  - destruct scan as [e|messages].
    + exists []. split; [apply regrouped_emit; discriminate | constructor].
    + set (w0 := progress true 0 _ CountingDone _).
      pose proof (replay_loop_regrouped true limit
                    (Z.min (Z.of_nat (length messages)) 1000) source target answers
                    (mkReplay 0 [] 0 0) w0) as [Hl Hnd].
      destruct (replay_loop tg true limit _ source target answers _ w0)
        as [[raised r] w1].
      cbn [fst snd seen_groups] in *. exists (seen_groups r).
      split; [|apply Hnd; constructor].
      eapply regrouped_trans; [|exact Hl].
      eapply regrouped_trans;
        [apply (regrouped_emit _ _ (EvCountMessages source)); discriminate|].
      apply regrouped_progress.
  - pose proof (replay_loop_regrouped false limit 0 source target answers
                  (mkReplay 0 [] 0 0) w) as [Hl Hnd].
    destruct (replay_loop tg false limit 0 source target answers _ w)
      as [[raised r] w1].
    cbn [fst snd seen_groups] in *. exists (seen_groups r).
    split; [exact Hl | apply Hnd; constructor].
Qed.

(** The events one call of [forward_all_media] adds. *)
Lemma forward_all_media_regrouped callback limit scan answers w :
  exists evs groups,
    io (forward_all_media str_iter tg callback limit scan answers w).2 = io w ++ evs
    /\ delivered_groups tg (io w) evs = groups
    /\ NoDup groups
    /\ forall t messages,
         EvForward t messages ∈ evs ->
         target_chat w = Some t
         /\ existsb (should_forward_message (media_types w)) messages = true
         /\ messages ⊆ messages_of answers.
Proof.
  unfold forward_all_media.
  destruct (source_chat w) as [source|].
  2:{ exists [], []. rewrite app_nil_r. split; [reflexivity|]. split; [reflexivity|].
      split; [constructor|]. intros t messages H. apply elem_of_nil in H.
      contradiction. }
  destruct (target_chat w) as [target|].
  2:{ exists [], []. rewrite app_nil_r. split; [reflexivity|]. split; [reflexivity|].
      split; [constructor|]. intros t messages H. apply elem_of_nil in H.
      contradiction. }
  destruct (replay_history_regrouped callback limit scan answers source target w)
    as (groups & (evs & Hw1 & Hgroups & Hdisp) & Hnd).
  simpl in Hgroups. subst groups.
  destruct (replay_history tg callback limit scan answers source target w)
    as [[[e|] n] w1]; cbn [fst snd] in *.
  - exists evs, (delivered_groups tg (io w) evs). subst w1.
    split; [destruct w; reflexivity|]. split; [reflexivity|]. split; [exact Hnd|].
    intros t messages H. destruct (Hdisp t messages H) as (-> & H2 & H3). tauto.
  - assert (exists tail,
              io (start_forward_monitoring str_iter source target (media_types w1) w1).2
              = io w1 ++ tail
              /\ forall t messages, EvForward t messages ∉ tail) as (tail & Hio & Htail).
    { unfold start_forward_monitoring.
      destruct (running w1 (key_of w1 source target)).
      - exists []. rewrite app_nil_r. split; [reflexivity|].
        intros t messages. apply not_elem_of_nil.
      - exists [EvAddEventHandler (mkCallback (key_of w1 source target) source target)].
        split; [reflexivity|]. intros t messages H.
        apply list_elem_of_singleton in H. discriminate. }
    destruct (start_forward_monitoring str_iter source target (media_types w1) w1)
      as [started w2].
    cbn [fst snd] in *. subst w1.
    exists (evs ++ tail), (delivered_groups tg (io w) evs).
    split; [rewrite Hio; destruct w; simpl; rewrite app_assoc; reflexivity|].
    split.
    { rewrite delivered_groups_app.
      assert (forall before, delivered_groups tg before tail = []) as ->.
      { clear Hio. induction tail as [|e tail IH]; intros before; [reflexivity|].
        simpl. rewrite IH.
        - destruct e; try reflexivity. exfalso. eapply Htail. left.
        - intros t messages H. eapply Htail. right. exact H. }
      apply app_nil_r. }
    split; [exact Hnd|].
    intros t messages H. apply elem_of_app in H as [H|H].
    + destruct (Hdisp t messages H) as (-> & H2 & H3). tauto.
    + exfalso. eapply Htail. exact H.
Qed.

(** X25.  A replay delivers no group twice: among the dispatches of one
    call of [forward_all_media] that Telegram accepted, no two are made of
    the same group. *)
Theorem replay_delivers_group_once callback limit scan answers w :
  exists evs,
    io (forward_all_media str_iter tg callback limit scan answers w).2 = io w ++ evs
    /\ NoDup (delivered_groups tg (io w) evs).
Proof.
  destruct (forward_all_media_regrouped callback limit scan answers w)
    as (evs & groups & Hio & <- & Hnd & _).
  exists evs. split; assumption.
Qed.

(** X26.  A replay dispatches only what it was asked for: every dispatch of
    one call of [forward_all_media] goes to the target chat, is made of
    messages of the pages Telegram returned, and holds at least one message
    the media types of the engine accept. *)
Theorem replay_dispatches_only_matching callback limit scan answers w :
  exists evs,
    io (forward_all_media str_iter tg callback limit scan answers w).2 = io w ++ evs
    /\ forall t messages,
         EvForward t messages ∈ evs ->
         target_chat w = Some t
         /\ existsb (should_forward_message (media_types w)) messages = true
         /\ messages ⊆ messages_of answers.
Proof.
  destruct (forward_all_media_regrouped callback limit scan answers w)
    as (evs & groups & Hio & _ & _ & Hdisp).
  exists evs. split; assumption.
Qed.

End ReplayTrace.

(** * What the handler dispatches *)

Section HandlerTrace.

Import MediaForwarder.

Variable tg : Telegram.

Implicit Types (w : t) (evs : list Event).

Lemma dispatch_events target messages w :
  existsb (should_forward_message (media_types w)) messages = true ->
  let w' :=
    match client_forward_messages tg target messages w with
    | (Some e, w) => on_error e w
    | (None, w) =>
        let w := set_message_count
                   (message_count w + Z.of_nat (length messages)) w in
        sleep (current_delay w) w
    end in
  exists evs, io w' = io w ++ EvForward target messages :: evs
              /\ forall t ms, EvForward t ms ∉ evs.
Proof.
  intros Hex. unfold client_forward_messages.
  destruct (forward_result tg (io w) target messages) as [[seconds| |]|]; simpl.
  - exists [EvSleep seconds]. rewrite <- app_assoc. split; [reflexivity|].
    intros t ms H. apply list_elem_of_singleton in H. discriminate.
  - exists []. split; [reflexivity|]. intros t ms. apply not_elem_of_nil.
  - exists []. split; [reflexivity|]. intros t ms. apply not_elem_of_nil.
  - eexists [EvSleep _]. rewrite <- app_assoc. split; [reflexivity|].
    intros t ms H. apply list_elem_of_singleton in H. discriminate.
Qed.

Lemma dispatches_quiet evs :
  (forall t ms, EvForward t ms ∉ evs) -> dispatches evs = 0%nat.
Proof.
  unfold dispatches. induction evs as [|e evs IH]; intros H; [reflexivity|].
  simpl. destruct e; try (apply IH; intros t ms Hin; eapply H; right; exact Hin).
  exfalso. eapply H. left.
Qed.

(** X27.  One message makes the handler dispatch at most once, and only
    for a running rule: the dispatch goes to the target of the rule and
    holds a message the media types of the engine accept. *)
Theorem handler_dispatches_only_matching set_iter cb message w :
  exists evs,
    io (handler tg set_iter cb message w).2 = io w ++ evs
    /\ (dispatches evs <= 1)%nat
    /\ forall t messages,
         EvForward t messages ∈ evs ->
         t = cb_target cb
         /\ running w (cb_key cb) = true
         /\ existsb (should_forward_message (media_types w)) messages = true.
Proof.
  set (P := fun evs =>
              (dispatches evs <= 1)%nat
              /\ forall t messages,
                   EvForward t messages ∈ evs ->
                   t = cb_target cb
                   /\ running w (cb_key cb) = true
                   /\ existsb (should_forward_message (media_types w)) messages
                      = true).
  change (exists evs, io (handler tg set_iter cb message w).2 = io w ++ evs /\ P evs).
  assert (forall evs, (forall t ms, EvForward t ms ∉ evs) -> P evs) as Hquiet.
  { intros evs Hnone. unfold P. rewrite dispatches_quiet by exact Hnone.
    split; [lia|]. intros t ms H. exfalso. eapply Hnone. exact H. }
  assert (forall w0 messages evs,
            running w (cb_key cb) = true ->
            media_types w0 = media_types w ->
            existsb (should_forward_message (media_types w0)) messages = true ->
            (forall t ms, EvForward t ms ∉ evs) ->
            forall before,
              (forall t ms, EvForward t ms ∉ before) ->
              P (before ++ EvForward (cb_target cb) messages :: evs))
    as Hone.
  { intros w0 messages evs Hrun Hmts Hex Hnone before Hbefore. split.
    - unfold dispatches. rewrite List.filter_app, length_app. simpl.
      pose proof (dispatches_quiet _ Hnone). pose proof (dispatches_quiet _ Hbefore).
      unfold dispatches in *. lia.
    - intros t ms H. apply elem_of_app in H as [H|H];
        [exfalso; eapply Hbefore; exact H|].
      apply elem_of_cons in H as [H|H]; [|exfalso; eapply Hnone; exact H].
      injection H as -> ->. rewrite <- Hmts. tauto. }
  clearbody P.
  assert (P []) as Hnil by (apply Hquiet; intros t ms; apply not_elem_of_nil).
  unfold handler.
  destruct (running w (cb_key cb)) eqn:Erun; simpl negb; cbv iota.
  2:{ exists []. rewrite app_nil_r. split; [reflexivity | exact Hnil]. }
  specialize (fun w0 messages evs => Hone w0 messages evs eq_refl).
  destruct (truthy_id (grouped_id message)) as [gid|].
  - unfold process_media_group.
    destruct (forwarded_groups w !! cb_key cb) as [seen|].
    2:{ exists []. rewrite app_nil_r. split; [reflexivity | exact Hnil]. }
    destruct (set_contains seen gid).
    { exists []. rewrite app_nil_r. split; [reflexivity | exact Hnil]. }
    set (marked := set_forwarded_groups _ w).
    assert (exists evs,
              io (relay_group tg gid message (cb_target cb) marked) = io w ++ evs
              /\ P evs) as (evs & Hio & Hevs).
    { unfold relay_group, client_get_messages.
      set (asked := EvGetMessages (chat_id message) 50).
      destruct (recent_messages tg (io marked) (chat_id message)) as [e|recent].
      - exists (asked :: match e with FloodWaitError s => [EvSleep s] | _ => [] end).
        split; [destruct e; simpl; rewrite <- ?app_assoc; reflexivity|].
        apply Hquiet. intros t ms H.
        apply elem_of_cons in H as [H|H]; [discriminate|].
        destruct e; [apply list_elem_of_singleton in H; discriminate
                    |apply elem_of_nil in H; exact H
                    |apply elem_of_nil in H; exact H].
      - set (group := List.filter _ recent).
        destruct (existsb (should_forward_message (media_types (emit asked marked)))
                    group) eqn:Hex; simpl andb.
        2:{ exists [asked]. split; [reflexivity|]. apply Hquiet.
            intros t ms H. apply list_elem_of_singleton in H. discriminate. }
        destruct (negb (bool_decide (group = []))).
        2:{ exists [asked]. split; [reflexivity|]. apply Hquiet.
            intros t ms H. apply list_elem_of_singleton in H. discriminate. }
        destruct (dispatch_events (cb_target cb) group (emit asked marked) Hex)
          as (evs & Hio & Hnone).
        cbv zeta in Hio.
        exists (asked :: EvForward (cb_target cb) group :: evs).
        split; [rewrite Hio; simpl; rewrite <- app_assoc; reflexivity|].
        apply (Hone (emit asked marked) group evs eq_refl Hex Hnone [asked]).
        intros t ms H. apply list_elem_of_singleton in H. discriminate. }
    rewrite relay_group_forwarded_groups.
    destruct (forwarded_groups marked !! cb_key cb);
      exists evs; (split; [exact Hio | exact Hevs]).
  - cbn [snd]. unfold process_single_message.
    destruct (should_forward_message (media_types w) message) eqn:Em.
    2:{ exists []. rewrite app_nil_r. split; [reflexivity | exact Hnil]. }
    assert (existsb (should_forward_message (media_types w)) [message] = true) as Hex
      by (simpl; rewrite Em; reflexivity).
    destruct (dispatch_events (cb_target cb) [message] w Hex) as (evs & Hio & Hnone).
    cbv zeta in Hio.
    exists (EvForward (cb_target cb) [message] :: evs).
    split.
    + rewrite <- Hio.
      destruct (client_forward_messages tg (cb_target cb) [message] w) as [[e|] w1];
        reflexivity.
    + apply (Hone w [message] evs eq_refl Hex Hnone []).
      intros t ms. apply not_elem_of_nil.
Qed.

End HandlerTrace.

(** * Handlers registered at the client *)

Section Registrations.

Import MediaForwarder.

Variable str_iter : gset string -> list string.
Variable tg : Telegram.
Variable set_iter : PySet -> list Z.

Implicit Types (w : t) (key : Key) (evs : list Event).

Lemma client_handlers_app evs1 evs2 :
  client_handlers (evs1 ++ evs2) = client_handlers evs1 ++ client_handlers evs2.
Proof. apply omap_app. Qed.

Lemma client_handlers_replay_events evs :
  forallb replay_event evs = true -> client_handlers evs = [].
Proof.
  induction evs as [|e evs IH]; [reflexivity|].
  simpl. intros H. apply andb_true_iff in H as [He Hevs].
  destruct e; try discriminate; apply IH, Hevs.
Qed.

Lemma forward_attempts_app ids evs1 evs2 :
  forward_attempts ids (evs1 ++ evs2)
  = (forward_attempts ids evs1 + forward_attempts ids evs2)%nat.
Proof. unfold forward_attempts. rewrite List.filter_app, length_app. reflexivity. Qed.

(** One run of a closure leaves the table, the filter of the engine and the
    closures of the client as they are, and takes no dispatch back. *)
Lemma handler_run_keeps cb message w :
  let w' := (handler tg set_iter cb message w).2 in
  active_forwards w' = active_forwards w
  /\ media_types w' = media_types w
  /\ client_handlers (io w') = client_handlers (io w)
  /\ (forall ids, forward_attempts ids (io w) <= forward_attempts ids (io w'))%nat.
Proof.
  intros w'.
  destruct (handler_relayed tg set_iter cb message w) as (g & (evs & Hw' & Hevs) & _).
  fold w' in Hw'. rewrite Hw'. destruct w. simpl.
  split; [reflexivity|]. split; [reflexivity|]. split.
  - rewrite client_handlers_app, (client_handlers_replay_events evs Hevs).
    apply app_nil_r.
  - intros ids. rewrite forward_attempts_app. lia.
Qed.

(** One run of the closure of a running rule on a single message the filter
    of the engine accepts: one more dispatch of that message. *)
Lemma handler_run_dispatches cb message w :
  running w (cb_key cb) = true ->
  truthy_id (grouped_id message) = None ->
  should_forward_message (media_types w) message = true ->
  (forward_attempts [msg_id message] (io w) + 1
   <= forward_attempts [msg_id message] (io (handler tg set_iter cb message w).2))%nat.
Proof.
  intros Hrun Hsingle Hm.
  assert (exists rest,
            io (handler tg set_iter cb message w).2
            = io w ++ EvForward (cb_target cb) [message] :: rest) as (rest & ->).
  { unfold handler. rewrite Hrun, Hsingle. cbn [negb snd].
    unfold process_single_message, client_forward_messages. rewrite Hm.
    destruct (forward_result tg (io w) (cb_target cb) [message]) as [[seconds| |]|];
      simpl; rewrite <- ?app_assoc; eexists; reflexivity. }
  rewrite forward_attempts_app. unfold forward_attempts at 3. simpl.
  rewrite bool_decide_eq_true_2 by reflexivity. simpl. lia.
Qed.

(** The runs of a list of closures on one message. *)
Lemma handler_runs_keep cbs message w :
  let w' := fold_left (fun w cb => (handler tg set_iter cb message w).2) cbs w in
  active_forwards w' = active_forwards w
  /\ media_types w' = media_types w
  /\ (forall ids, forward_attempts ids (io w) <= forward_attempts ids (io w'))%nat.
Proof.
  revert w. induction cbs as [|cb cbs IH]; intros w; simpl.
  - split; [reflexivity|]. split; [reflexivity|]. intros ids. lia.
  - destruct (handler_run_keeps cb message w) as (Ha & Hm & _ & Hf).
    destruct (IH (handler tg set_iter cb message w).2) as (Ha' & Hm' & Hf').
    split; [congruence|]. split; [congruence|].
    intros ids. specialize (Hf ids). specialize (Hf' ids). lia.
Qed.

(** X28.  Stopping a rule leaves its closure registered at the client:
    [add_event_handler] returned [None], that is what the engine stored, and
    [remove_event_handler(None)] removes nothing.  The closure of a stopped
    rule does nothing, but when the same pair is started again the client
    holds two closures for its key, both find the rule running, and one new
    message the filter accepts is dispatched twice. *)
Theorem restart_doubles_dispatch selects source target mts mts' message w :
  let key := key_of w source target in
  let cb := mkCallback key source target in
  let w1 := (start_forward_monitoring str_iter source target mts w).2 in
  let stop := stop_forward_monitoring (IdStr key.1) (IdStr key.2) w1 in
  let w3 := (start_forward_monitoring str_iter source target mts' stop.2).2 in
  running w key = false ->
  truthy_id (grouped_id message) = None ->
  should_forward_message mts' message = true ->
  selects cb message = true ->
  stop.1 = true
  /\ stopped key stop.2
  /\ client_handlers (io stop.2) = client_handlers (io w) ++ [cb]
  /\ client_handlers (io w3) = client_handlers (io w) ++ [cb; cb]
  /\ (forward_attempts [msg_id message] (io w3) + 2
      <= forward_attempts [msg_id message]
           (io (on_new_message tg set_iter selects message w3)))%nat.
Proof.
  intros key cb w1 stop w3 Hidle Hsingle Hm Hselects.
  destruct (start_fresh str_iter source target mts w Hidle)
    as (Hs1 & Ha1 & Hh1 & _ & Hio1 & _).
  fold key w1 cb in Hs1, Ha1, Hh1, Hio1.
  assert (canonical_target (IdStr key.2) = key.2) as Htarget.
  { unfold canonical_target, py_eq_str. rewrite bool_decide_eq_false_2; [reflexivity|].
    destruct (key_of_canonical w source target) as [_ [E|[b E]]]; fold key in E;
      rewrite E; [discriminate | apply str_of_int_not_saved]. }
  assert (stop = (true, stop_found key w1)) as Hstop.
  { unfold stop, stop_forward_monitoring. rewrite Htarget. cbn [py_str].
    rewrite <- surjective_pairing.
    rewrite bool_decide_eq_true_2; [reflexivity|].
    rewrite Ha1, lookup_insert_eq. eexists. reflexivity. }
  assert (io (stop_found key w1) = io w1 ++ [EvRemoveEventHandler ReturnedNone])
    as Hio2.
  { unfold stop_found. simpl. rewrite Hh1, lookup_insert_eq. reflexivity. }
  assert (saved_messages (stop_found key w1) = saved_messages w) as Hs2.
  { rewrite <- Hs1. unfold stop_found. simpl.
    destruct (handlers w1 !! key); reflexivity. }
  assert (key_of (stop_found key w1) source target = key) as Hkey2.
  { unfold key_of at 1. rewrite Hs2. reflexivity. }
  assert (running (stop_found key w1) (key_of (stop_found key w1) source target)
          = false) as Hidle2.
  { rewrite Hkey2. apply running_absent.
    rewrite stop_found_active_forwards. apply lookup_delete_eq. }
  destruct (start_fresh str_iter source target mts' (stop_found key w1) Hidle2)
    as (_ & Ha3 & _ & _ & Hio3 & _).
  assert (media_types
            (start_forward_monitoring str_iter source target mts'
               (stop_found key w1)).2 = mts') as Hm3.
  { unfold start_forward_monitoring. rewrite Hidle2. reflexivity. }
  rewrite Hkey2 in Ha3, Hio3. fold cb in Hio3.
  unfold w3. rewrite Hstop. cbn [fst snd].
  set (w3' := (start_forward_monitoring str_iter source target mts'
                 (stop_found key w1)).2) in *.
  assert (client_handlers (io w3') = client_handlers (io w) ++ [cb; cb]) as Hclient.
  { rewrite Hio3, Hio2, Hio1, !client_handlers_app, <- !app_assoc. reflexivity. }
  split; [reflexivity|]. split; [apply stop_found_stopped|]. split; [|split].
  - rewrite Hio2, Hio1, !client_handlers_app, <- !app_assoc. reflexivity.
  - exact Hclient.
  - unfold on_new_message. rewrite Hclient, List.filter_app.
    cbn [List.filter]. rewrite Hselects. rewrite fold_left_app. cbn [fold_left].
    set (earlier := fold_left _ (List.filter _ (client_handlers (io w))) w3').
    destruct (handler_runs_keep
                (List.filter (fun cb0 => selects cb0 message) (client_handlers (io w)))
                message w3') as (Ha & Hmts & Hf).
    fold earlier in Ha, Hmts, Hf.
    assert (running earlier key = true) as Hrun.
    { unfold running. rewrite Ha, Ha3, lookup_insert_eq. reflexivity. }
    assert (should_forward_message (media_types earlier) message = true) as Hm'
      by (rewrite Hmts, Hm3; exact Hm).
    pose proof (handler_run_dispatches cb message earlier Hrun Hsingle Hm') as Hfirst.
    destruct (handler_run_keeps cb message earlier) as (Ha' & Hmts' & _ & _).
    set (once := (handler tg set_iter cb message earlier).2) in *.
    assert (running once key = true) as Hrun'.
    { unfold running. rewrite Ha'. exact Hrun. }
    assert (should_forward_message (media_types once) message = true) as Hm''
      by (rewrite Hmts'; exact Hm').
    pose proof (handler_run_dispatches cb message once Hrun' Hsingle Hm'') as Hsecond.
    specialize (Hf [msg_id message]). lia.
Qed.

End Registrations.

Lemma restart_doubles_dispatch_witness :
  client_handlers
    (MediaForwarder.io
       (MediaForwarder.start_forward_monitoring listing chat_100 self_chat {["photo"]}
          (MediaForwarder.stop_forward_monitoring (IdStr "100")
             (IdStr "saved_messages") sample_engine).2).2)
  = [MediaForwarder.mkCallback ("100", "saved_messages") chat_100 self_chat;
     MediaForwarder.mkCallback ("100", "saved_messages") chat_100 self_chat]
  /\ (0 + 2
      <= forward_attempts [5%Z]
           (MediaForwarder.io
              (on_new_message accepting small_int_iter (fun _ _ => true)
                 (photo_message 5 None)
                 (MediaForwarder.start_forward_monitoring listing chat_100 self_chat
                    {["photo"]}
                    (MediaForwarder.stop_forward_monitoring (IdStr "100")
                       (IdStr "saved_messages") sample_engine).2).2)))%nat.
Proof.
  assert (should_forward_message {["photo"]} (photo_message 5 None) = true)
    as Hm by (vm_compute; reflexivity).
  destruct (restart_doubles_dispatch listing accepting small_int_iter (fun _ _ => true)
              chat_100 self_chat {["photo"]} {["photo"]} (photo_message 5 None)
              (MediaForwarder.init Configuration.init self_chat)
              eq_refl eq_refl Hm eq_refl)
    as (_ & _ & _ & Hclient & Hdouble).
  split; [exact Hclient | exact Hdouble].
Defined.

(** * A replay for a rule that is running *)

Section ReplayOfRunningRule.

Import MediaForwarder.

Variable str_iter : gset string -> list string.

Variable tg : Telegram.

Implicit Types (w : t) (evs : list Event).

Lemma registrations_replay_events before evs :
  forallb replay_event evs = true ->
  registrations (before ++ evs) = registrations before.
Proof.
  unfold registrations. rewrite List.filter_app, length_app.
  induction evs as [|e evs IH]; simpl; [lia|].
  intros H. apply andb_true_iff in H as [He Hevs].
  destruct e; try discriminate; apply IH, Hevs.
Qed.

(** X29.  A replay for a pair whose rule is already running replays the
    history and changes nothing else: it registers no second handler, and
    the table, the handlers, the windows and the store stay as they are, so
    the rule keeps the media types it was started with in the table and in
    the store, whatever media types the replay used. *)
Theorem replay_of_running_rule callback limit scan answers source target w :
  source_chat w = Some source -> target_chat w = Some target ->
  running w (key_of w source target) = true ->
  let w' := (forward_all_media str_iter tg callback limit scan answers w).2 in
  registrations (io w') = registrations (io w)
  /\ active_forwards w' = active_forwards w
  /\ handlers w' = handlers w
  /\ forwarded_groups w' = forwarded_groups w
  /\ config w' = config w.
Proof.
  intros Hs Ht Hrun. unfold forward_all_media. rewrite Hs, Ht.
  pose proof (replay_history_replayed tg callback limit scan answers source target w)
    as Hrep.
  destruct (replay_history tg callback limit scan answers source target w)
    as [[raised n] w1].
  cbn [fst snd] in Hrep.
  pose proof (replayed_attributes tg _ _ _ Hrep) as (Hc & Ha & Hh & Hg & _ & Hsm).
  destruct Hrep as (evs & Hw1 & _ & Hevs).
  assert (registrations (io w1) = registrations (io w)) as Hreg.
  { rewrite Hw1. destruct w. simpl. apply registrations_replay_events, Hevs. }
  assert (running w1 (key_of w1 source target) = true) as Hrun1.
  { unfold running, key_of in *. rewrite Ha, Hsm. exact Hrun. }
  assert ((let '(_, w2) := start_forward_monitoring str_iter source target (media_types w1) w1
           in (true, n, w2)) = (true, n, w1)) as Hstart.
  { unfold start_forward_monitoring. rewrite Hrun1. reflexivity. }
  destruct raised; [|rewrite Hstart]; cbn [snd]; tauto.
Qed.

End ReplayOfRunningRule.

Lemma replay_of_running_rule_witness :
  registrations
    (MediaForwarder.io
       (MediaForwarder.forward_all_media listing accepting false None (inr [])
          [inr scenario] scenario_started.2).2)
  = registrations (MediaForwarder.io scenario_started.2).
Proof.
  assert (MediaForwarder.running scenario_started.2
            (MediaForwarder.key_of scenario_started.2 chat_100 self_chat) = true)
    as Hrun by (vm_compute; reflexivity).
  exact (proj1 (replay_of_running_rule listing accepting false None (inr []) [inr scenario]
                  chat_100 self_chat scenario_started.2 eq_refl eq_refl Hrun)).
Defined.

(** * From the choice of the endpoints to the rule *)

Section ChosenEndpoints.

Import MediaForwarder.

Variable str_iter : gset string -> list string.

Implicit Types (w : t) (tg : Telegram).

Lemma set_source_chosen tg chat_id w :
  (set_source tg chat_id w).1.1 = true ->
  exists z source,
    py_int chat_id = Some z /\ get_entity tg z = Some source
    /\ (set_source tg chat_id w).2
       = set_source_chat (Some source) (emit (EvGetEntity z) w).
Proof.
  unfold set_source, client_get_entity.
  destruct (py_int chat_id) as [z|]; [|discriminate].
  destruct (get_entity tg z) as [source|] eqn:E; [|discriminate].
  intros _. exists z, source. split; [reflexivity|]. split; [exact E | reflexivity].
Qed.

Lemma set_target_chosen tg chat_id w :
  (set_target tg chat_id w).1.1 = true ->
  exists target,
    target_chat (set_target tg chat_id w).2 = Some target
    /\ source_chat (set_target tg chat_id w).2 = source_chat w
    /\ saved_messages (set_target tg chat_id w).2 = saved_messages w
    /\ (if py_eq_str chat_id "saved_messages" || py_eq_str chat_id SAVED_MESSAGES_KEY
        then target = saved_messages w
        else exists z, py_int chat_id = Some z /\ get_entity tg z = Some target).
Proof.
  unfold set_target, client_get_entity.
  destruct (_ || _).
  { intros _. exists (saved_messages w). simpl. tauto. }
  destruct (py_int chat_id) as [z|]; [|discriminate].
  destruct (get_entity tg z) as [target|] eqn:E; [|discriminate].
  intros _. exists target. simpl.
  split; [reflexivity|]. split; [reflexivity|]. split; [reflexivity|].
  exists z. split; [reflexivity | exact E].
Qed.

(** X30.  The rule a replay hands over is the rule of the chats that were
    chosen: when [set_source] and [set_target] succeeded and the replay that
    follows returns success, the source of the rule is the chat Telegram
    resolved for the chosen source id, its target is the own chat when the
    target was chosen by one of its two names and the chat Telegram resolved
    for the chosen target id otherwise, and the rule of that pair is
    running. *)
Theorem chosen_endpoints_become_rule
    tg1 tg2 tg3 source_id target_id callback limit scan answers w n w3 :
  let chosen1 := set_source tg1 source_id w in
  let chosen2 := set_target tg2 target_id chosen1.2 in
  chosen1.1.1 = true -> chosen2.1.1 = true ->
  forward_all_media str_iter tg3 callback limit scan answers chosen2.2 = ((true, n), w3) ->
  exists z source target,
    py_int source_id = Some z /\ get_entity tg1 z = Some source
    /\ (if py_eq_str target_id "saved_messages"
           || py_eq_str target_id SAVED_MESSAGES_KEY
        then target = saved_messages w
        else exists z', py_int target_id = Some z' /\ get_entity tg2 z' = Some target)
    /\ running w3 (key_of w source target) = true.
Proof.
  intros chosen1 chosen2 H1 H2 Hrun.
  destruct (set_source_chosen tg1 source_id w H1) as (z & source & Hz & Hsource & Hw1).
  fold chosen1 in Hw1.
  destruct (set_target_chosen tg2 target_id chosen1.2 H2)
    as (target & Ht & Hs & Hsm & Htarget).
  fold chosen2 in Ht, Hs, Hsm.
  assert (source_chat chosen2.2 = Some source) as Hs2
    by (rewrite Hs, Hw1; reflexivity).
  assert (saved_messages chosen2.2 = saved_messages w) as Hsm2
    by (rewrite Hsm, Hw1; reflexivity).
  assert (saved_messages chosen1.2 = saved_messages w) as Hsm1
    by (rewrite Hw1; reflexivity).
  rewrite Hsm1 in Htarget.
  exists z, source, target.
  split; [exact Hz|]. split; [exact Hsource|]. split; [exact Htarget|].
  clearbody chosen2. clear Hw1 Hs Hsm Htarget H1 H2 Hsm1. clearbody chosen1.
  unfold forward_all_media in Hrun. rewrite Hs2, Ht in Hrun.
  pose proof (replay_history_replayed tg3 callback limit scan answers source target
                chosen2.2) as Hrep.
  destruct (replay_history tg3 callback limit scan answers source target chosen2.2)
    as [[[e|] n1] w1]; [discriminate|].
  cbn [fst snd] in Hrep.
  pose proof (replayed_attributes tg3 _ _ _ Hrep) as (_ & _ & _ & _ & _ & Hsm1).
  pose proof (start_runs str_iter source target (media_types w1) w1) as Hstarted.
  destruct (start_forward_monitoring str_iter source target (media_types w1) w1)
    as [started w2].
  cbn [snd] in Hstarted. injection Hrun as _ <-.
  unfold key_of in *. rewrite Hsm1, Hsm2 in Hstarted. exact Hstarted.
Qed.

End ChosenEndpoints.

Lemma chosen_endpoints_become_rule_witness :
  exists z source target,
    py_int (IdStr "100") = Some z
    /\ MediaForwarder.get_entity accepting z = Some source
    /\ (if py_eq_str (IdStr "saved") "saved_messages"
           || py_eq_str (IdStr "saved") SAVED_MESSAGES_KEY
        then target
             = MediaForwarder.saved_messages
                 (MediaForwarder.init Configuration.init self_chat)
        else exists z',
               py_int (IdStr "saved") = Some z'
               /\ MediaForwarder.get_entity accepting z' = Some target)
    /\ MediaForwarder.running
         (MediaForwarder.forward_all_media listing accepting false None (inr [])
            [inr scenario]
            (MediaForwarder.set_target accepting (IdStr "saved")
               (MediaForwarder.set_source accepting (IdStr "100")
                  (MediaForwarder.init Configuration.init self_chat)).2).2).2
         (MediaForwarder.key_of (MediaForwarder.init Configuration.init self_chat)
            source target)
       = true.
Proof.
  assert (MediaForwarder.forward_all_media listing accepting false None (inr [])
            [inr scenario]
            (MediaForwarder.set_target accepting (IdStr "saved")
               (MediaForwarder.set_source accepting (IdStr "100")
                  (MediaForwarder.init Configuration.init self_chat)).2).2
          = ((true, 4),
             (MediaForwarder.forward_all_media listing accepting false None (inr [])
                [inr scenario]
                (MediaForwarder.set_target accepting (IdStr "saved")
                   (MediaForwarder.set_source accepting (IdStr "100")
                      (MediaForwarder.init Configuration.init self_chat)).2).2).2))
    as Hrun by (vm_compute; reflexivity).
  exact (chosen_endpoints_become_rule listing accepting accepting accepting
           (IdStr "100") (IdStr "saved") false None (inr []) [inr scenario]
           (MediaForwarder.init Configuration.init self_chat) 4 _
           eq_refl eq_refl Hrun).
Defined.
